(** * Valhalla: usage reconciliation, quota enforcement and link aggregation

    A shallow embedding of the parts of [scripts/usage_sync.py], [app.py] and
    [bot.py] that meter traffic, drive the disable/enable state machine and
    assemble the subscription body, together with the Python library
    functions those parts call ([str.strip], [re.sub], [urllib.parse.unquote]).

    Python [str] values are sequences of Unicode code points and are modelled
    as [list N]; the SQL tables are lists of records in table order; remote
    panel calls are logged in the world state and answered by an oracle. *)

From Stdlib Require Import String Ascii.
From Stdlib Require Import List NArith ZArith Bool Lia Permutation Sorted.
Import ListNotations.

(* ===================================================================== *)
(** ** Python strings *)
(* ===================================================================== *)

Module PyStr.
Local Open Scope N_scope.

(** A Unicode code point. *)
Definition cp := N.

(** A Python [str]. *)
Definition str := list cp.

Definition of_ascii (a : ascii) : cp := N_of_ascii a.

(** An ASCII literal of the source as a [str]. *)
Definition lit (s : string) : str := map of_ascii (list_ascii_of_string s).

Definition cp_eqb (a b : cp) : bool := N.eqb a b.

(** The comma and the space. *)
Definition COMMA : cp := 44.
Definition SPACE : cp := 32.

Fixpoint str_eqb (a b : str) : bool :=
  match a, b with
  | [], [] => true
  | x :: a', y :: b' => cp_eqb x y && str_eqb a' b'
  | _, _ => false
  end.

Definition in_range (lo hi c : cp) : bool := (N.leb lo c && N.leb c hi)%bool.

(** [c in chars] for a string used as a set of characters. *)
Definition mem (c : cp) (chars : str) : bool := existsb (cp_eqb c) chars.

(** [str.isspace] on one character, which is also the class [\s] of [re] on
    [str] patterns and the default set removed by [str.strip()]. *)
Definition isspace (c : cp) : bool :=
  in_range 9 13 c || in_range 28 32 c || cp_eqb c 133 || cp_eqb c 160
  || cp_eqb c 5760 || in_range 8192 8202 c || in_range 8232 8233 c
  || cp_eqb c 8239 || cp_eqb c 8287 || cp_eqb c 12288.

(** First code point of every run of ten decimal digits (general category Nd,
    Unicode 14.0); the mathematical digits U+1D7CE..U+1D7FF are five such
    runs in a row. *)
Definition decimal_runs : list cp :=
  [48; 1632; 1776; 1984; 2406; 2534; 2662; 2790; 2918; 3046; 3174; 3302;
   3430; 3558; 3664; 3792; 3872; 4160; 4240; 6112; 6160; 6470; 6608; 6784;
   6800; 6992; 7088; 7232; 7248; 42528; 43216; 43264; 43472; 43504; 43600;
   44016; 65296; 66720; 68912; 69734; 69872; 69942; 70096; 70384; 70736;
   70864; 71248; 71360; 71472; 71904; 72016; 72784; 73040; 73120; 92768;
   92864; 93008; 120782; 120792; 120802; 120812; 120822; 123200; 123632;
   125264; 130032].

(** [str.isdecimal] on one character: the class [\d] of [re] on [str]
    patterns. *)
Definition isdecimal (c : cp) : bool :=
  existsb (fun lo => in_range lo (lo + 9) c) decimal_runs.

(** [s.lstrip(chars)] with the set of characters given as a predicate. *)
Fixpoint lstrip_by (p : cp -> bool) (s : str) : str :=
  match s with
  | [] => []
  | c :: t => if p c then lstrip_by p t else s
  end.

Definition rstrip_by (p : cp -> bool) (s : str) : str :=
  rev (lstrip_by p (rev s)).

Definition strip_by (p : cp -> bool) (s : str) : str :=
  rstrip_by p (lstrip_by p s).

(** [s.strip()] *)
Definition strip (s : str) : str := strip_by isspace s.

(** [s.strip(chars)] *)
Definition strip_chars (chars : str) (s : str) : str :=
  strip_by (fun c => mem c chars) s.

(** [prefix] is a prefix of [s]: [s.startswith(prefix)]. *)
Fixpoint startswith (prefix s : str) : bool :=
  match prefix, s with
  | [], _ => true
  | p :: prefix', c :: s' => cp_eqb p c && startswith prefix' s'
  | _ :: _, [] => false
  end.

(** [s.startswith(prefixes)] for a tuple of prefixes. *)
Definition startswith_any (prefixes : list str) (s : str) : bool :=
  existsb (fun p => startswith p s) prefixes.

(** [s.split(sep)] for a one-character separator: always at least one piece. *)
Fixpoint split (sep : cp) (s : str) : list str :=
  match s with
  | [] => [[]]
  | c :: t =>
      if cp_eqb c sep then [] :: split sep t
      else match split sep t with
           | [] => [[c]]
           | piece :: pieces => (c :: piece) :: pieces
           end
  end.

(** [s[:n]] *)
Definition take (n : nat) (s : str) : str := firstn n s.

(** Truthiness of a [str]: non-empty. *)
Definition nonempty (s : str) : bool :=
  match s with [] => false | _ :: _ => true end.

End PyStr.

(* ===================================================================== *)
(** ** Python regular expressions (the fragment the patterns use) *)
(* ===================================================================== *)

Module Re.
Import PyStr.

(** Pattern syntax.  Repetitions are greedy, as in the source patterns. *)
Inductive re : Type :=
| Eps                       (* the empty pattern *)
| Lit (c : cp)              (* one literal character *)
| Cls (p : cp -> bool)      (* one character of a class *)
| Seq (a b : re)            (* a followed by b *)
| Opt (a : re)              (* a? *)
| Star (a : re).            (* a* *)

Definition Plus (a : re) : re := Seq a (Star a).

(** [a{3,}] *)
Definition AtLeast3 (a : re) : re := Seq a (Seq a (Seq a (Star a))).

(** The loop of a greedy repetition: one more round of [step] while rounds
    consume input, then the continuation [k]; on failure it gives back the
    rounds one by one.  [n] bounds the number of rounds. *)
Fixpoint star_loop (step : str -> (str -> option str) -> option str)
         (k : str -> option str) (n : nat) (s : str) {struct n} : option str :=
  match n with
  | O => k s
  | S n' =>
      match step s (fun t => if Nat.ltb (length t) (length s)
                             then star_loop step k n' t else None) with
      | Some x => Some x
      | None => k s
      end
  end.

(** Backtracking matcher in continuation-passing style: [rmatch r s k] tries
    the ways [r] can match a prefix of [s] in the engine's priority order
    (greedy first) and returns the first answer the continuation [k] accepts
    on the remaining input. *)
Fixpoint rmatch (r : re) (s : str) (k : str -> option str) {struct r}
  : option str :=
  match r with
  | Eps => k s
  | Lit c =>
      match s with
      | x :: t => if cp_eqb x c then k t else None
      | [] => None
      end
  | Cls p =>
      match s with
      | x :: t => if p x then k t else None
      | [] => None
      end
  | Seq a b => rmatch a s (fun t => rmatch b t k)
  | Opt a =>
      match rmatch a s k with
      | Some x => Some x
      | None => k s
      end
  | Star a => star_loop (rmatch a) k (length s) s
  end.

(** A match of [r] at the start of [s]: the input left after it.  With
    [must_advance] an empty match is refused (the engine backtracks for a
    non-empty one), as [re.sub] asks right after an empty match. *)
Definition match_here (r : re) (must_advance : bool) (s : str) : option str :=
  rmatch r s (fun t => if must_advance && Nat.eqb (length t) (length s)
                       then None else Some t).

(** The scanning loop of [re.sub(pattern, repl, s)] for a replacement
    without group references: leftmost matches, left to right, each replaced
    by [repl]; the characters between matches are copied. *)
Fixpoint sub_loop (r : re) (repl : str) (fuel : nat) (must_advance : bool)
                  (s : str) : str :=
  match fuel with
  | O => s
  | S fuel' =>
      match match_here r must_advance s with
      | Some rest =>
          if Nat.eqb (length rest) (length s)
          then repl ++ sub_loop r repl fuel' true s
          else repl ++ sub_loop r repl fuel' false rest
      | None =>
          match s with
          | [] => []
          | c :: t => c :: sub_loop r repl fuel' false t
          end
      end
  end.

(** [re.sub(pattern, repl, s)] *)
Definition sub (r : re) (repl : str) (s : str) : str :=
  sub_loop r repl (2 * length s + 2) false s.

End Re.

(* ===================================================================== *)
(** ** [urllib.parse.unquote] *)
(* ===================================================================== *)

Module Urllib.
Import PyStr.
Local Open Scope N_scope.

(** Value of a hexadecimal digit ([0-9A-Fa-f]). *)
Definition hexval (c : cp) : option N :=
  if in_range 48 57 c then Some (c - 48)
  else if in_range 65 70 c then Some (c - 55)
  else if in_range 97 102 c then Some (c - 87)
  else None.

(** [unquote_to_bytes] on a run of ASCII characters: every [%XX] with two
    hexadecimal digits becomes the byte XX, any other [%] stays. *)
Fixpoint unquote_to_bytes (s : str) : list N :=
  match s with
  | [] => []
  | c :: t =>
      if cp_eqb c 37 then
        match t with
        | h1 :: h2 :: t' =>
            match hexval h1, hexval h2 with
            | Some a, Some b => (16 * a + b) :: unquote_to_bytes t'
            | _, _ => c :: unquote_to_bytes t
            end
        | _ => c :: unquote_to_bytes t
        end
      else c :: unquote_to_bytes t
  end.

Definition is_cont (b : N) : bool := in_range 128 191 b.

(** U+FFFD, what [errors='replace'] puts for each undecodable part. *)
Definition REPLACEMENT : cp := 65533.

(** [bytes.decode('utf-8', 'replace')]: well-formed sequences decode to
    their code point; an invalid start byte, or the valid part of a sequence
    that is cut short by a wrong byte or by the end of the input, becomes
    one U+FFFD. *)
Fixpoint utf8_decode (bs : list N) : str :=
  match bs with
  | [] => []
  | b1 :: t1 =>
      if b1 <? 128 then b1 :: utf8_decode t1
      else if b1 <? 194 then REPLACEMENT :: utf8_decode t1
      else if b1 <? 224 then
        match t1 with
        | [] => [REPLACEMENT]
        | b2 :: t2 =>
            if is_cont b2
            then ((b1 - 192) * 64 + (b2 - 128)) :: utf8_decode t2
            else REPLACEMENT :: utf8_decode t1
        end
      else if b1 <? 240 then
        match t1 with
        | [] => [REPLACEMENT]
        | b2 :: t2 =>
            if negb (is_cont b2)
               || (if b2 <? 160 then cp_eqb b1 224 else cp_eqb b1 237)
            then REPLACEMENT :: utf8_decode t1
            else
              match t2 with
              | [] => [REPLACEMENT]
              | b3 :: t3 =>
                  if is_cont b3
                  then ((b1 - 224) * 4096 + (b2 - 128) * 64 + (b3 - 128))
                         :: utf8_decode t3
                  else REPLACEMENT :: utf8_decode t2
              end
        end
      else if b1 <? 245 then
        match t1 with
        | [] => [REPLACEMENT]
        | b2 :: t2 =>
            if negb (is_cont b2)
               || (if b2 <? 144 then cp_eqb b1 240 else cp_eqb b1 244)
            then REPLACEMENT :: utf8_decode t1
            else
              match t2 with
              | [] => [REPLACEMENT]
              | b3 :: t3 =>
                  if negb (is_cont b3) then REPLACEMENT :: utf8_decode t2
                  else
                    match t3 with
                    | [] => [REPLACEMENT]
                    | b4 :: t4 =>
                        if is_cont b4
                        then ((b1 - 240) * 262144 + (b2 - 128) * 4096
                              + (b3 - 128) * 64 + (b4 - 128))
                               :: utf8_decode t4
                        else REPLACEMENT :: utf8_decode t3
                    end
              end
        end
      else REPLACEMENT :: utf8_decode t1
  end.

(** One maximal run of ASCII characters, collected in reverse, unquoted and
    decoded. *)
Definition flush_run (run_rev : str) : str :=
  utf8_decode (unquote_to_bytes (rev run_rev)).

(** The string cut into maximal ASCII runs, each unquoted and decoded; the
    characters between the runs are kept. *)
Fixpoint unquote_runs (run_rev : str) (s : str) : str :=
  match s with
  | [] => flush_run run_rev
  | c :: t =>
      if c <? 128 then unquote_runs (c :: run_rev) t
      else flush_run run_rev ++ c :: unquote_runs [] t
  end.

(** [unquote(string)] with the default [encoding='utf-8', errors='replace']. *)
Definition unquote (s : str) : str :=
  if negb (mem 37 s) then s else unquote_runs [] s.

End Urllib.

(* ===================================================================== *)
(** ** The persisted schema *)
(* ===================================================================== *)

(** Rows carry the columns the modelled queries read or write.  Column
    arithmetic is over [Z], as the SQL text states it; SQL string equality
    is equality of the strings. *)

Module LocalUser.
Import PyStr.
Record t : Type := mk {
  owner_id : Z;
  username : str;
  plan_limit_bytes : Z;
  used_bytes : Z;
  expire_at : option Z;
  disabled_pushed : Z;
  disabled_pushed_at : option Z
}.
Definition set_used_bytes (v : Z) (r : t) : t :=
  mk (owner_id r) (username r) (plan_limit_bytes r) v (expire_at r)
     (disabled_pushed r) (disabled_pushed_at r).
Definition set_disabled_pushed (v : Z) (at_ : option Z) (r : t) : t :=
  mk (owner_id r) (username r) (plan_limit_bytes r) (used_bytes r)
     (expire_at r) v at_.
End LocalUser.

Module Agent.
Record t : Type := mk {
  telegram_user_id : Z;
  plan_limit_bytes : Z;
  expire_at : option Z;
  active : Z;
  total_used_bytes : Z;
  disabled_pushed : Z;
  disabled_pushed_at : option Z
}.
Definition set_total_used_bytes (v : Z) (r : t) : t :=
  mk (telegram_user_id r) (plan_limit_bytes r) (expire_at r) (active r) v
     (disabled_pushed r) (disabled_pushed_at r).
Definition set_disabled_pushed (v : Z) (at_ : option Z) (r : t) : t :=
  mk (telegram_user_id r) (plan_limit_bytes r) (expire_at r) (active r)
     (total_used_bytes r) v at_.
End Agent.

Module Panel.
Import PyStr.
Record t : Type := mk {
  id : Z;
  telegram_user_id : Z;
  panel_url : str;
  access_token : str;
  panel_type : str
}.
End Panel.

Module Link.
Import PyStr.
Record t : Type := mk {
  id : Z;
  owner_id : Z;
  local_username : str;
  panel_id : Z;
  remote_username : str;
  last_used_traffic : Z
}.
Definition set_last_used_traffic (v : Z) (r : t) : t :=
  mk (id r) (owner_id r) (local_username r) (panel_id r) (remote_username r) v.
End Link.

Module AppUser.
Import PyStr.
Record t : Type := mk {
  telegram_user_id : Z;
  username : str;
  app_key : str
}.
End AppUser.

Module Db.
Import PyStr.
Local Open Scope Z_scope.

Record t : Type := mk {
  local_users : list LocalUser.t;
  agents : list Agent.t;
  panels : list Panel.t;
  local_user_panel_links : list Link.t;
  agent_panels : list (Z * Z);          (* (agent_tg_id, panel_id) *)
  app_users : list AppUser.t
}.

Definition with_local_users (v : list LocalUser.t) (d : t) : t :=
  mk v (agents d) (panels d) (local_user_panel_links d) (agent_panels d)
     (app_users d).
Definition with_agents (v : list Agent.t) (d : t) : t :=
  mk (local_users d) v (panels d) (local_user_panel_links d) (agent_panels d)
     (app_users d).
Definition with_links (v : list Link.t) (d : t) : t :=
  mk (local_users d) (agents d) (panels d) v (agent_panels d) (app_users d).
Definition with_app_users (v : list AppUser.t) (d : t) : t :=
  mk (local_users d) (agents d) (panels d) (local_user_panel_links d)
     (agent_panels d) v.

(** [UPDATE ... SET ... WHERE cond] *)
Definition update_where {A} (cond : A -> bool) (set : A -> A) (rows : list A)
  : list A :=
  map (fun r => if cond r then set r else r) rows.

(** [SELECT ... WHERE cond LIMIT 1] followed by [fetchone()] *)
Definition select_one {A} (cond : A -> bool) (rows : list A) : option A :=
  find cond rows.

(** [DELETE FROM ... WHERE cond] *)
Definition delete_where {A} (cond : A -> bool) (rows : list A) : list A :=
  filter (fun r => negb (cond r)) rows.

(** A link row joined with its panel: [... lup JOIN panels p ON p.id = lup.panel_id]. *)
Definition joined : Type := (Link.t * Panel.t)%type.

Definition join_panels (d : t) (ls : list Link.t) : list joined :=
  flat_map (fun l => map (fun p => (l, p))
                         (filter (fun p => Panel.id p =? Link.panel_id l)
                                 (panels d))) ls.

(** [x IN (ids)] *)
Definition in_ids (ids : list Z) (x : Z) : bool := existsb (Z.eqb x) ids.

End Db.

(* ===================================================================== *)
(** ** Remote panels, the world state and the effect monad *)
(* ===================================================================== *)

Module Remote.
Import PyStr.
Local Open Scope Z_scope.

(** The three API modules of [apis/]. *)
Inductive Api : Type := Marzneshin | Marzban | Sanaei.

(** The [used_traffic] entry of a fetched account, by what
    [int(obj.get("used_traffic", 0) or 0)] makes of it. *)
Inductive UsedTraffic : Type :=
| UtAbsent                 (* no such key, or a falsy value *)
| UtInt (n : Z)            (* a value [int] converts to [n] *)
| UtBad (msg : str).       (* a value [int] rejects, with the error text *)

(** A fetched account (a non-empty dict). *)
Record UserObj : Type := { used_traffic : UsedTraffic }.

(** The raw requests [app.py] sends itself. *)
Inductive HttpRequest : Type :=
| PostDisable (panel_url token remote_username : str)
    (* POST api/users/<name>/disable *)
| PutDisabled (panel_url token remote_username : str).
    (* PUT api/user/<name> with status disabled *)

Inductive HttpResult : Type :=
| HttpResponse (status_code : Z) (text : str)
| HttpError (msg : str).   (* the request raised *)

(** One remote call, with the answer it got. *)
Inductive Event : Type :=
| EvGetUser (api : Api) (panel_url token username : str)
            (reply : option UserObj * option str)
| EvDisable (api : Api) (panel_url token username : str)
            (reply : bool * option str)
| EvEnable (api : Api) (panel_url token username : str)
           (reply : bool * option str)
| EvReset (api : Api) (panel_url token username : str)
          (reply : bool * option str)
| EvHttp (req : HttpRequest) (reply : HttpResult).

(** The panels, as an oracle: every answer may depend on all the calls made
    so far.  The API functions of [apis/] catch every exception and return a
    pair, so the answers are total. *)
Record Panels : Type := {
  get_user : list Event -> Api -> str -> str -> str
             -> option UserObj * option str;
  disable_remote_user : list Event -> Api -> str -> str -> str
                        -> bool * option str;
  enable_remote_user : list Event -> Api -> str -> str -> str
                       -> bool * option str;
  reset_remote_user_usage : list Event -> Api -> str -> str -> str
                            -> bool * option str;
  http : list Event -> HttpRequest -> HttpResult
}.

(** The database and the log of remote calls, oldest first. *)
Record World : Type := mkWorld {
  db : Db.t;
  calls : list Event
}.

(** Computations that read and write the world. *)
Definition M (A : Type) : Type := World -> A * World.

Definition ret {A} (x : A) : M A := fun w => (x, w).

Definition bind {A B} (c : M A) (k : A -> M B) : M B :=
  fun w => let (x, w') := c w in k x w'.

Arguments bind : simpl never.

Definition exec {A} (c : M A) (w : World) : World := snd (c w).
Definition eval {A} (c : M A) (w : World) : A := fst (c w).

(** [cur.execute] of a [SELECT] *)
Definition query {A} (q : Db.t -> A) : M A := fun w => (q (db w), w).

(** [cur.execute] of an [UPDATE] or [DELETE], committed *)
Definition execute (u : Db.t -> Db.t) : M unit :=
  fun w => (tt, mkWorld (u (db w)) (calls w)).

End Remote.

Declare Scope monad_scope.
Delimit Scope monad_scope with monad.
Notation "x <- c ;; k" := (Remote.bind c (fun x => k))
  (at level 61, c at next level, right associativity) : monad_scope.
Notation "' pat <- c ;; k" :=
  (Remote.bind c (fun x => match x with pat => k end))
  (at level 61, pat pattern, c at next level, right associativity) : monad_scope.
Notation "c ;; k" := (Remote.bind c (fun _ => k))
  (at level 61, right associativity) : monad_scope.

Module Effects.
Import PyStr Remote.
Local Open Scope monad_scope.

(** A [for] loop over a list, for its effects. *)
Fixpoint for_each {A} (l : list A) (body : A -> M unit) : M unit :=
  match l with
  | [] => ret tt
  | x :: t => body x ;; for_each t body
  end.

Section Calls.
Variable P : Panels.

Definition api_get_user (api : Api) (url token name : str)
  : M (option UserObj * option str) :=
  fun w => let r := get_user P (calls w) api url token name in
           (r, mkWorld (db w) (calls w ++ [EvGetUser api url token name r])).

Definition api_disable_remote_user (api : Api) (url token name : str)
  : M (bool * option str) :=
  fun w => let r := disable_remote_user P (calls w) api url token name in
           (r, mkWorld (db w) (calls w ++ [EvDisable api url token name r])).

Definition api_enable_remote_user (api : Api) (url token name : str)
  : M (bool * option str) :=
  fun w => let r := enable_remote_user P (calls w) api url token name in
           (r, mkWorld (db w) (calls w ++ [EvEnable api url token name r])).

Definition api_reset_remote_user_usage (api : Api) (url token name : str)
  : M (bool * option str) :=
  fun w => let r := reset_remote_user_usage P (calls w) api url token name in
           (r, mkWorld (db w) (calls w ++ [EvReset api url token name r])).

Definition http_request (req : HttpRequest) : M HttpResult :=
  fun w => let r := http P (calls w) req in
           (r, mkWorld (db w) (calls w ++ [EvHttp req r])).

End Calls.

(** [get_api(panel_type)]: [API_MODULES.get(panel_type or "marzneshin",
    marzneshin)]. *)
Definition get_api (panel_type : str) : Api :=
  if str_eqb panel_type (lit "marzban") then Marzban
  else if str_eqb panel_type (lit "sanaei") then Sanaei
  else Marzneshin.

(** [[r.strip() for r in remote_username.split(",") if r.strip()]] *)
Definition sub_identities (remote_username : str) : list str :=
  filter nonempty (map strip (split COMMA remote_username)).

(** The loop over the remote names of one link, with [all_ok] and
    [last_msg], that [disable_remote] and [enable_remote] run; it returns
    [(200 if all_ok else None), last_msg]. *)
Fixpoint each_remote (call : str -> M (bool * option str)) (remotes : list str)
         (all_ok : bool) (last_msg : option str) : M (option Z * option str) :=
  match remotes with
  | [] => ret ((if all_ok then Some 200%Z else None), last_msg)
  | rn :: rest =>
      '(ok, msg) <- call rn ;;
      if ok then each_remote call rest all_ok last_msg
      else each_remote call rest false msg
  end.

(** Truthiness of an integer: [not pushed] is [negb (truthy pushed)]. *)
Definition truthy (n : Z) : bool := negb (n =? 0)%Z.

(** [expand_owner_ids(owner_id)], the same in [app.py] and [bot.py];
    [admin_ids] is [list(admin_ids())], read from the environment. *)
Definition expand_owner_ids (admin_ids : list Z) (owner_id : Z) : list Z :=
  if Db.in_ids admin_ids owner_id then admin_ids else [owner_id].

End Effects.


(* ===================================================================== *)
(** ** app.py *)
(* ===================================================================== *)

Module App.
Import PyStr Re.
Local Open Scope N_scope.

Definition ws : re := Cls isspace.
Definition digit : re := Cls isdecimal.

(** [[KMGT]] under [re.I]: the characters whose lower case is one of
    [k m g t], which includes the Kelvin sign U+212A. *)
Definition unit_prefix : re :=
  Cls (fun c => mem c [75; 107; 8490; 77; 109; 71; 103; 84; 116]).

(** [B] under [re.I]. *)
Definition unit_B : re := Cls (fun c => mem c [66; 98]).

(** [\d+(?:\.\d+)?] *)
Definition number_re : re := Seq (Plus digit) (Opt (Seq (Lit 46) (Plus digit))).

(** [\s*[KMGT]?B] *)
Definition unit_re : re := Seq (Star ws) (Seq (Opt unit_prefix) unit_B).

(** [\s*\d+(?:\.\d+)?\s*[KMGT]?B/\d+(?:\.\d+)?\s*[KMGT]?B], flags [re.I] *)
Definition traffic_re : re :=
  Seq (Star ws)
      (Seq number_re (Seq unit_re (Seq (Lit 47) (Seq number_re unit_re)))).

(** U+1F464, the owner-tag marker. *)
Definition OWNER_MARK : cp := 128100.

(** [.] without [re.S]: anything but a newline. *)
Definition dot : re := Cls (fun c => negb (cp_eqb c 10)).

(** [\s*<owner mark>.*] *)
Definition owner_re : re := Seq (Star ws) (Seq (Lit OWNER_MARK) (Star dot)).

(** [[a-zA-Z0-9_-]] *)
Definition token_char (c : cp) : bool :=
  in_range 97 122 c || in_range 65 90 c || in_range 48 57 c
  || cp_eqb c 95 || cp_eqb c 45.

(** [\s*\([a-zA-Z0-9_-]{3,}\)] *)
Definition paren_re : re :=
  Seq (Star ws) (Seq (Lit 40) (Seq (AtLeast3 (Cls token_char)) (Lit 41))).

(** [\s+] *)
Definition spaces_re : re := Plus ws.

(** [canonicalize_name(name)].  None of the calls raises on a [str], so the
    [except] branch is never taken. *)
Definition canonicalize_name (name : str) : str :=
  let nm := strip (Urllib.unquote name) in
  let nm := sub traffic_re [] nm in
  let nm := sub owner_re [] nm in
  let nm := sub paren_re [] nm in
  let nm := sub spaces_re [SPACE] nm in
  take 255 (strip nm).

(** [extract_name(link)]: the canonical name of what follows the first [#]. *)
Fixpoint after_hash (link : str) : option str :=
  match link with
  | [] => None
  | c :: t => if cp_eqb c 35 then Some t else after_hash t
  end.

Definition extract_name (link : str) : str :=
  match after_hash link with
  | None => []
  | Some nm => canonicalize_name nm
  end.

(** [ALLOWED_SCHEMES] *)
Definition ALLOWED_SCHEMES : list str :=
  [lit "vless://"; lit "vmess://"; lit "trojan://"; lit "ss://"].

Section FilterDedupe.

(** [str.lower], the full Unicode lower-casing of the Python runtime. *)
Variable lower : str -> str.

(** The test of the loop body: [ss.lower().startswith(ALLOWED_SCHEMES)]. *)
Definition allowed (ss : str) : bool :=
  startswith_any ALLOWED_SCHEMES (lower ss).

(** The three [strip] calls of the loop body: white space, then double
    quotes (34), then single quotes (39). *)
Definition unwrap (s : str) : str :=
  strip_chars [39] (strip_chars [34] (strip s)).

(** The [for] loop of [filter_dedupe] with its two accumulators: [out] (in
    order) and the set [seen], kept as a list. *)
Fixpoint filter_dedupe_loop (links : list str) (out seen : list str)
  : list str :=
  match links with
  | [] => out
  | s :: rest =>
      let ss := unwrap s in
      if negb (allowed ss) then filter_dedupe_loop rest out seen
      else if negb (existsb (str_eqb ss) seen)
           then filter_dedupe_loop rest (out ++ [ss]) (ss :: seen)
           else filter_dedupe_loop rest out seen
  end.

(** [filter_dedupe(links)] *)
Definition filter_dedupe (links : list str) : list str :=
  filter_dedupe_loop links [] [].

End FilterDedupe.

(** A panel mapping as [list_mapped_links] returns it and as the fallback
    over all panels builds it. *)
Module Mapping.
Record t : Type := mk {
  panel_id : Z;
  remote_username : str;
  panel_url : str;
  access_token : str;
  panel_type : str
}.
End Mapping.

(** The diagnostic headers of the plain-text answer;
    [x_remaining_bytes = None] is the sentinel [unlimited]. *)
Record Headers : Type := {
  x_plan_limit_bytes : Z;
  x_used_bytes : Z;
  x_remaining_bytes : option Z;
  x_disabled_pushed : Z
}.

(** What [unified_links] answers. *)
Inductive Response : Type :=
| Abort404
    (* abort(404) *)
| Html (local_username app_key : str) (lu : option LocalUser.t)
       (remote : option Remote.UserObj)
    (* render_template_string(HTML_TEMPLATE,
         user=build_user(local_username, app_key, lu, remote)) *)
| Plain (body : str) (headers : option Headers).
    (* Response(body, mimetype="text/plain") *)

(** [s.join(parts)] *)
Fixpoint join (sep : str) (parts : list str) : str :=
  match parts with
  | [] => []
  | [x] => x
  | x :: rest => x ++ sep ++ join sep rest
  end.

Section Subscription.
Import Remote Effects.
Local Open Scope Z_scope.
Local Open Scope monad_scope.

Variable lower : str -> str.
Variable P : Panels.

(** [list(admin_ids())] *)
Variable ADMIN_IDS : list Z.

(** [collect_links(mapped, local_username, want_html)]: the concurrent
    fan-out over the panels, as a function of the world it runs in.  It
    reads the filter tables and fetches from the panels; it writes nothing. *)
Variable collect_links :
  World -> list Mapping.t -> str -> bool
  -> list str * list str * option UserObj.

(** The body of the limit-reached answer: the configured placeholder entry
    with the templated message, for the owner, user name, limit and usage. *)
Variable limit_reached_body : Z -> str -> Z -> Z -> str.

Definition ids_of (owner_id : Z) : list Z := expand_owner_ids ADMIN_IDS owner_id.

(** [get_owner_id(app_username, app_key)] *)
Definition get_owner_id (app_username app_key : str) : M (option Z) :=
  query (fun d =>
    option_map AppUser.telegram_user_id
      (Db.select_one (fun r => str_eqb (AppUser.username r) app_username
                               && str_eqb (AppUser.app_key r) app_key)
                     (Db.app_users d))).

Definition user_in (ids : list Z) (local_username : str) (r : LocalUser.t)
  : bool :=
  Db.in_ids ids (LocalUser.owner_id r)
  && str_eqb (LocalUser.username r) local_username.

(** [get_local_user(owner_id, local_username)] *)
Definition get_local_user (owner_id : Z) (local_username : str)
  : M (option LocalUser.t) :=
  query (fun d => Db.select_one (user_in (ids_of owner_id) local_username)
                                (Db.local_users d)).

Definition mapping_of (row : Db.joined) : Mapping.t :=
  Mapping.mk (Link.panel_id (fst row)) (Link.remote_username (fst row))
             (Panel.panel_url (snd row)) (Panel.access_token (snd row))
             (Panel.panel_type (snd row)).

(** [list_mapped_links(owner_id, local_username)] *)
Definition list_mapped_links (owner_id : Z) (local_username : str)
  : M (list Mapping.t) :=
  query (fun d =>
    map mapping_of
      (Db.join_panels d
         (filter (fun l => Db.in_ids (ids_of owner_id) (Link.owner_id l)
                           && str_eqb (Link.local_username l) local_username)
                 (Db.local_user_panel_links d)))).

(** [list_all_panels(owner_id)] *)
Definition list_all_panels (owner_id : Z) : M (list Panel.t) :=
  query (fun d => filter (fun p => Db.in_ids (ids_of owner_id)
                                             (Panel.telegram_user_id p))
                         (Db.panels d)).

(** [mark_user_disabled(owner_id, local_username)] *)
Definition mark_user_disabled (now : Z) (owner_id : Z) (local_username : str)
  : M unit :=
  execute (fun d =>
    Db.with_local_users
      (Db.update_where (user_in (ids_of owner_id) local_username)
         (LocalUser.set_disabled_pushed 1 (Some now))
         (Db.local_users d)) d).

(** [r.text[:200]] *)
Definition text200 (text : str) : str := take 200 text.

(** [disable_remote(panel_type, panel_url, token, remote_username)] of
    [app.py]: per sub-identity through the API module for [sanaei], else a
    Marzneshin-style request and, unless it answers 200, a Marzban-style
    one; an exception gives [(None, str(e))]. *)
Definition disable_remote (panel_type panel_url token remote_username : str)
  : M (option Z * option str) :=
  if str_eqb panel_type (lit "sanaei") then
    each_remote (api_disable_remote_user P Sanaei panel_url token)
                (sub_identities remote_username) true None
  else
    r <- http_request P (PostDisable panel_url token remote_username) ;;
    match r with
    | HttpError msg => ret (None, Some msg)
    | HttpResponse status_code text =>
        if status_code =? 200 then ret (Some status_code, Some (text200 text))
        else
          r <- http_request P (PutDisabled panel_url token remote_username) ;;
          match r with
          | HttpError msg => ret (None, Some msg)
          | HttpResponse status_code text =>
              ret (Some status_code, Some (text200 text))
          end
    end.

Definition agent_in (ids : list Z) (a : Agent.t) : bool :=
  Db.in_ids ids (Agent.telegram_user_id a) && (Agent.active a =? 1).

(** [get_agent(owner_id)]: only rows with [active=1]. *)
Definition get_agent (owner_id : Z) : M (option Agent.t) :=
  query (fun d => Db.select_one (agent_in (ids_of owner_id)) (Db.agents d)).

(** [get_agent_total_used(owner_id)] *)
Definition get_agent_total_used (owner_id : Z) : M Z :=
  query (fun d =>
    match Db.select_one (agent_in (ids_of owner_id)) (Db.agents d) with
    | Some row => Agent.total_used_bytes row
    | None => 0
    end).

(** [list_all_agent_links(owner_id)] *)
Definition list_all_agent_links (owner_id : Z) : M (list Db.joined) :=
  query (fun d =>
    Db.join_panels d
      (filter (fun l => Db.in_ids (ids_of owner_id) (Link.owner_id l))
              (Db.local_user_panel_links d))).

(** [mark_agent_disabled(owner_id)] *)
Definition mark_agent_disabled (now : Z) (owner_id : Z) : M unit :=
  execute (fun d =>
    Db.with_agents
      (Db.update_where
         (fun a => Db.in_ids (ids_of owner_id) (Agent.telegram_user_id a))
         (Agent.set_disabled_pushed 1 (Some now)) (Db.agents d)) d).

(** The body of [for l in list_all_agent_links(owner_id)]. *)
Definition disable_agent_link (l : Db.joined) : M unit :=
  _ <- disable_remote (Panel.panel_type (snd l)) (Panel.panel_url (snd l))
         (Panel.access_token (snd l)) (Link.remote_username (fst l)) ;;
  ret tt.

(** The body of [for l in links] of the user-level gate. *)
Definition disable_mapping (l : Mapping.t) : M unit :=
  _ <- disable_remote (Mapping.panel_type l) (Mapping.panel_url l)
         (Mapping.access_token l) (Mapping.remote_username l) ;;
  ret tt.

(** The mappings built from all panels when a user has no link row:
    the local user name stands for the remote one. *)
Definition mappings_of_panels (local_username : str) (panels : list Panel.t)
  : list Mapping.t :=
  map (fun p => Mapping.mk (Panel.id p) local_username (Panel.panel_url p)
                           (Panel.access_token p) (Panel.panel_type p))
      panels.

(** The agent-level block of [unified_links]: it returns [agent_blocked]. *)
Definition agent_gate (now : Z) (owner_id : Z) : M bool :=
  ag <- get_agent owner_id ;;
  match ag with
  | None => ret false
  | Some ag =>
      let limit_b := Agent.plan_limit_bytes ag in
      let exp := Agent.expire_at ag in
      let pushed_a := Agent.disabled_pushed ag in
      let expired := match exp with Some e => e <=? now | None => false end in
      exceeded <- (if 0 <? limit_b then
                     used_total <- get_agent_total_used owner_id ;;
                     ret (limit_b <=? used_total)
                   else ret false) ;;
      if expired || exceeded then
        (if negb (truthy pushed_a) then
           links <- list_all_agent_links owner_id ;;
           for_each links disable_agent_link ;;
           mark_agent_disabled now owner_id
         else ret tt) ;;
        ret true
      else ret false
  end.

(** The body of the answer after [filter_dedupe]. *)
Definition body_of (uniq errors : list str) : str :=
  match uniq, errors with
  | _ :: _, _ => join [10%N] uniq ++ [10%N]
  | [], _ :: _ => join [10%N] (map (fun e => lit "# " ++ e) errors) ++ [10%N]
  | [], [] => []
  end.

(** The user-level block of [unified_links], up to its [return]: it
    returns [limit_reached]. *)
Definition user_gate (now : Z) (owner_id : Z) (local_username : str)
           (lu : LocalUser.t) : M bool :=
  let limit := LocalUser.plan_limit_bytes lu in
  let used := LocalUser.used_bytes lu in
  let pushed := LocalUser.disabled_pushed lu in
  if (0 <? limit) && (limit <=? used) then
    (if negb (truthy pushed) then
       links <- list_mapped_links owner_id local_username ;;
       links <- (match links with
                 | [] => panels <- list_all_panels owner_id ;;
                         ret (mappings_of_panels local_username panels)
                 | _ :: _ => ret links
                 end) ;;
       for_each links disable_mapping ;;
       mark_user_disabled now owner_id local_username
     else ret tt) ;;
    ret true
  else ret false.

(** The answer of the user-level block to a plain-text request. *)
Definition limit_reached_response (owner_id : Z) (local_username : str)
           (lu : LocalUser.t) : Response :=
  let limit := LocalUser.plan_limit_bytes lu in
  let used := LocalUser.used_bytes lu in
  Plain (limit_reached_body owner_id local_username limit used)
        (Some (Build_Headers limit used (Some 0) 1)).

(** The last block of [unified_links]: aggregate, filter and answer. *)
Definition aggregate (want_html : bool) (owner_id : Z)
           (local_username app_key : str) (lu : LocalUser.t)
           (agent_blocked limit_reached : bool) : M Response :=
  let limit := LocalUser.plan_limit_bytes lu in
  let used := LocalUser.used_bytes lu in
  let pushed := LocalUser.disabled_pushed lu in
  mapped <- list_mapped_links owner_id local_username ;;
  '(all_links, errors, remote_info) <-
    (if negb agent_blocked && negb limit_reached then
       match mapped with
       | _ :: _ =>
           fun w => (collect_links w mapped local_username want_html, w)
       | [] =>
           panels <- list_all_panels owner_id ;;
           fun w => (collect_links w
                       (mappings_of_panels local_username panels)
                       local_username want_html, w)
       end
     else ret ([], [], None)) ;;
  let uniq := filter_dedupe lower all_links in
  let body := body_of uniq errors in
  let remaining := if 0 <? limit then limit - used else -1 in
  if want_html then
    ret (Html local_username app_key (Some lu) remote_info)
  else
    ret (Plain body
           (Some (Build_Headers limit used
                    (if 0 <=? remaining then Some (Z.max 0 remaining)
                     else None)
                    pushed))).

(** [unified_links(local_username, app_key)], for a request at time [now]
    whose [Accept] header mentions [text/html] or not ([want_html]).  The
    three blocks the source marks with comments are [agent_gate],
    [user_gate] and [aggregate]. *)
Definition unified_links (now : Z) (want_html : bool)
           (local_username app_key : str) : M Response :=
  owner <- get_owner_id local_username app_key ;;
  match owner with
  | None => ret Abort404
  | Some owner_id =>
    if owner_id =? 0 then ret Abort404 else
    lu <- get_local_user owner_id local_username ;;
    match lu with
    | None =>
        if want_html then ret (Html local_username app_key None None)
        else ret (Plain [] None)
    | Some lu =>
      agent_blocked <- agent_gate now owner_id ;;
      if agent_blocked && negb want_html then ret (Plain [] None) else
      limit_reached <- user_gate now owner_id local_username lu ;;
      if limit_reached && negb want_html then
        ret (limit_reached_response owner_id local_username lu)
      else
        aggregate want_html owner_id local_username app_key lu
                  agent_blocked limit_reached
    end
  end.

End Subscription.

End App.


(* ===================================================================== *)
(** ** scripts/usage_sync.py *)
(* ===================================================================== *)

Module UsageSync.
Import PyStr Remote Effects.
Local Open Scope Z_scope.
Local Open Scope monad_scope.

(** The literal [18446744073709551615] of [add_usage]. *)
Definition COUNTER_MAX : Z := 18446744073709551615.

(** Rows in ascending order of [lup.id] ([ORDER BY lup.id ASC]). *)
Fixpoint insert_by_id (r : Db.joined) (rows : list Db.joined)
  : list Db.joined :=
  match rows with
  | [] => [r]
  | x :: t => if Link.id (fst r) <? Link.id (fst x) then r :: rows
              else x :: insert_by_id r t
  end.

Definition order_by_id (rows : list Db.joined) : list Db.joined :=
  fold_right insert_by_id [] rows.

(** [fetch_all_links()] *)
Definition fetch_all_links : M (list Db.joined) :=
  query (fun d => order_by_id (Db.join_panels d (Db.local_user_panel_links d))).

Definition user_is (owner_id : Z) (local_username : str) (r : LocalUser.t)
  : bool :=
  (LocalUser.owner_id r =? owner_id)
  && str_eqb (LocalUser.username r) local_username.

Definition link_of (owner_id : Z) (local_username : str) (l : Link.t)
  : bool :=
  (Link.owner_id l =? owner_id)
  && str_eqb (Link.local_username l) local_username.

Definition agent_is (owner_id : Z) (a : Agent.t) : bool :=
  Agent.telegram_user_id a =? owner_id.

(** [LEAST(counter + delta, 18446744073709551615)] *)
Definition credit (delta counter : Z) : Z := Z.min (counter + delta) COUNTER_MAX.

(** [add_usage(owner_id, local_username, delta)] *)
Definition add_usage (owner_id : Z) (local_username : str) (delta : Z)
  : M unit :=
  if delta <=? 0 then ret tt
  else
    execute (fun d =>
      Db.with_local_users
        (Db.update_where (user_is owner_id local_username)
           (fun r => LocalUser.set_used_bytes
                       (credit delta (LocalUser.used_bytes r)) r)
           (Db.local_users d)) d) ;;
    execute (fun d =>
      Db.with_agents
        (Db.update_where (agent_is owner_id)
           (fun a => Agent.set_total_used_bytes
                       (credit delta (Agent.total_used_bytes a)) a)
           (Db.agents d)) d).

(** [update_last(link_id, new_used)] *)
Definition update_last (link_id new_used : Z) : M unit :=
  execute (fun d =>
    Db.with_links
      (Db.update_where (fun l => Link.id l =? link_id)
         (Link.set_last_used_traffic new_used)
         (Db.local_user_panel_links d)) d).

(** [get_local_user(owner_id, local_username)] *)
Definition get_local_user (owner_id : Z) (local_username : str)
  : M (option LocalUser.t) :=
  query (fun d => Db.select_one (user_is owner_id local_username)
                                (Db.local_users d)).

(** [list_links_of_local_user(owner_id, local_username)] *)
Definition list_links_of_local_user (owner_id : Z) (local_username : str)
  : M (list Db.joined) :=
  query (fun d => Db.join_panels d
                    (filter (link_of owner_id local_username)
                            (Db.local_user_panel_links d))).

(** [mark_user_disabled(owner_id, local_username)]; [now] is SQL [NOW()]. *)
Definition mark_user_disabled (now : Z) (owner_id : Z) (local_username : str)
  : M unit :=
  execute (fun d =>
    Db.with_local_users
      (Db.update_where (user_is owner_id local_username)
         (LocalUser.set_disabled_pushed 1 (Some now))
         (Db.local_users d)) d).

(** [mark_user_enabled(owner_id, local_username)] *)
Definition mark_user_enabled (owner_id : Z) (local_username : str) : M unit :=
  execute (fun d =>
    Db.with_local_users
      (Db.update_where (user_is owner_id local_username)
         (LocalUser.set_disabled_pushed 0 None)
         (Db.local_users d)) d).

(** What [int(obj.get("used_traffic", 0) or 0)] evaluates to, or the text of
    the exception it raises. *)
Definition int_used_traffic (obj : UserObj) : Z + str :=
  match used_traffic obj with
  | UtAbsent => inl 0
  | UtInt n => inl n
  | UtBad msg => inr msg
  end.

(** [err or 'user not found'] *)
Definition err_or_not_found (err : option str) : str :=
  match err with
  | Some e => if nonempty e then e else lit "user not found"
  | None => lit "user not found"
  end.

(** [f"{panel_url}: {err or 'user not found'}"] *)
Definition fetch_error (panel_url : str) (err : option str) : str :=
  panel_url ++ lit ": " ++ err_or_not_found err.

Section WithPanels.
Variable P : Panels.

(** The [for rn in ...] loop of [fetch_used_traffic], with its running
    [total]; it returns at the first sub-identity that cannot be fetched. *)
Fixpoint sum_used_traffic (api : Api) (panel_url bearer : str)
         (rns : list str) (total : Z) : M (option Z * option str) :=
  match rns with
  | [] => ret (Some total, None)
  | rn :: rest =>
      '(obj, err) <- api_get_user P api panel_url bearer rn ;;
      match obj with
      | None => ret (None, Some (fetch_error panel_url err))
      | Some o =>
          match int_used_traffic o with
          | inr msg => ret (None, Some msg)
          | inl n => sum_used_traffic api panel_url bearer rest (total + n)
          end
      end
  end.

(** [fetch_used_traffic(panel_type, panel_url, bearer, remote_username)] *)
Definition fetch_used_traffic (panel_type panel_url bearer remote_username : str)
  : M (option Z * option str) :=
  let api := get_api panel_type in
  if str_eqb panel_type (lit "sanaei") && mem COMMA remote_username then
    sum_used_traffic api panel_url bearer (sub_identities remote_username) 0
  else
    '(obj, err) <- api_get_user P api panel_url bearer remote_username ;;
    match obj with
    | None => ret (None, Some (fetch_error panel_url err))
    | Some o =>
        match int_used_traffic o with
        | inr msg => ret (None, Some msg)
        | inl n => ret (Some n, None)
        end
    end.

(** [remote_username.split(",") if panel_type == "sanaei" else [remote_username]] *)
Definition remotes_of (panel_type remote_username : str) : list str :=
  if str_eqb panel_type (lit "sanaei") then split COMMA remote_username
  else [remote_username].

(** [disable_remote(panel_type, panel_url, token, remote_username)] *)
Definition disable_remote (panel_type panel_url token remote_username : str)
  : M (option Z * option str) :=
  each_remote (api_disable_remote_user P (get_api panel_type) panel_url token)
              (remotes_of panel_type remote_username) true None.

(** [enable_remote(panel_type, panel_url, token, remote_username)] *)
Definition enable_remote (panel_type panel_url token remote_username : str)
  : M (option Z * option str) :=
  each_remote (api_enable_remote_user P (get_api panel_type) panel_url token)
              (remotes_of panel_type remote_username) true None.

(** The body of [for l in links], the outcome only logged. *)
Definition disable_link (l : Db.joined) : M unit :=
  _ <- disable_remote (Panel.panel_type (snd l)) (Panel.panel_url (snd l))
         (Panel.access_token (snd l)) (Link.remote_username (fst l)) ;;
  ret tt.

Definition enable_link (l : Db.joined) : M unit :=
  _ <- enable_remote (Panel.panel_type (snd l)) (Panel.panel_url (snd l))
         (Panel.access_token (snd l)) (Link.remote_username (fst l)) ;;
  ret tt.

(** [try_disable_if_user_exceeded(owner_id, local_username)] *)
Definition try_disable_if_user_exceeded (now : Z) (owner_id : Z)
           (local_username : str) : M unit :=
  lu <- get_local_user owner_id local_username ;;
  match lu with
  | None => ret tt
  | Some lu =>
      let limit := LocalUser.plan_limit_bytes lu in
      let used := LocalUser.used_bytes lu in
      let pushed := LocalUser.disabled_pushed lu in
      if (0 <? limit) && (limit <=? used) && negb (truthy pushed) then
        links <- list_links_of_local_user owner_id local_username ;;
        for_each links disable_link ;;
        mark_user_disabled now owner_id local_username
      else ret tt
  end.

(** [try_enable_if_user_ok(owner_id, local_username)] *)
Definition try_enable_if_user_ok (owner_id : Z) (local_username : str)
  : M unit :=
  lu <- get_local_user owner_id local_username ;;
  match lu with
  | None => ret tt
  | Some lu =>
      let limit := LocalUser.plan_limit_bytes lu in
      let used := LocalUser.used_bytes lu in
      let pushed := LocalUser.disabled_pushed lu in
      if truthy pushed && ((limit =? 0) || (used <? limit)) then
        links <- list_links_of_local_user owner_id local_username ;;
        for_each links enable_link ;;
        mark_user_enabled owner_id local_username
      else ret tt
  end.

(** [get_agent(owner_id)] *)
Definition get_agent (owner_id : Z) : M (option Agent.t) :=
  query (fun d => Db.select_one (agent_is owner_id) (Db.agents d)).

(** [total_used_by_owner(owner_id)] *)
Definition total_used_by_owner (owner_id : Z) : M Z :=
  query (fun d => match Db.select_one (agent_is owner_id) (Db.agents d) with
                  | Some row => Agent.total_used_bytes row
                  | None => 0
                  end).

(** [list_all_local_usernames(owner_id)] *)
Definition list_all_local_usernames (owner_id : Z) : M (list str) :=
  query (fun d => map LocalUser.username
                      (filter (fun r => LocalUser.owner_id r =? owner_id)
                              (Db.local_users d))).

(** [list_agent_assigned_panels(owner_id)] *)
Definition list_agent_assigned_panels (owner_id : Z) : M (list Panel.t) :=
  query (fun d =>
    flat_map (fun ap => filter (fun p => Panel.id p =? snd ap) (Db.panels d))
             (filter (fun ap => fst ap =? owner_id) (Db.agent_panels d))).

(** [mark_agent_disabled(owner_id)] *)
Definition mark_agent_disabled (now : Z) (owner_id : Z) : M unit :=
  execute (fun d =>
    Db.with_agents
      (Db.update_where (agent_is owner_id)
         (Agent.set_disabled_pushed 1 (Some now)) (Db.agents d)) d).

(** [mark_all_users_disabled(owner_id)] *)
Definition mark_all_users_disabled (now : Z) (owner_id : Z) : M unit :=
  execute (fun d =>
    Db.with_local_users
      (Db.update_where (fun r => LocalUser.owner_id r =? owner_id)
         (LocalUser.set_disabled_pushed 1 (Some now)) (Db.local_users d)) d).

(** [mark_agent_enabled(owner_id)] *)
Definition mark_agent_enabled (owner_id : Z) : M unit :=
  execute (fun d =>
    Db.with_agents
      (Db.update_where (agent_is owner_id)
         (Agent.set_disabled_pushed 0 None) (Db.agents d)) d).

(** [mark_all_users_enabled(owner_id)] *)
Definition mark_all_users_enabled (owner_id : Z) : M unit :=
  execute (fun d =>
    Db.with_local_users
      (Db.update_where (fun r => LocalUser.owner_id r =? owner_id)
         (LocalUser.set_disabled_pushed 0 None) (Db.local_users d)) d).

(** [disable_user_on_assigned_panels(owner_id, username)] *)
Definition disable_user_on_assigned_panels (owner_id : Z) (username : str)
  : M unit :=
  panels <- list_agent_assigned_panels owner_id ;;
  for_each panels (fun p =>
    _ <- disable_remote (Panel.panel_type p) (Panel.panel_url p)
           (Panel.access_token p) username ;;
    ret tt).

(** [enable_user_on_assigned_panels(owner_id, username)] *)
Definition enable_user_on_assigned_panels (owner_id : Z) (username : str)
  : M unit :=
  panels <- list_agent_assigned_panels owner_id ;;
  for_each panels (fun p =>
    _ <- enable_remote (Panel.panel_type p) (Panel.panel_url p)
           (Panel.access_token p) username ;;
    ret tt).

(** [expire_at <= now_utc] guarded by [if expire_at:]. *)
Definition is_expired (now : Z) (expire_at : option Z) : bool :=
  match expire_at with
  | Some e => e <=? now
  | None => false
  end.

(** The [over_limit] computation shared by the two agent functions. *)
Definition agent_over_limit (owner_id limit_b : Z) : M bool :=
  if 0 <? limit_b then
    tot <- total_used_by_owner owner_id ;;
    ret (limit_b <=? tot)
  else ret false.

(** [try_disable_agent_if_exceeded(owner_id)] *)
Definition try_disable_agent_if_exceeded (now : Z) (owner_id : Z) : M unit :=
  ag <- get_agent owner_id ;;
  match ag with
  | None => ret tt
  | Some ag =>
      if Agent.active ag =? 0 then ret tt
      else
        let already_pushed := Agent.disabled_pushed ag in
        let limit_b := Agent.plan_limit_bytes ag in
        let expired := is_expired now (Agent.expire_at ag) in
        over_limit <- agent_over_limit owner_id limit_b ;;
        if (expired || over_limit) && negb (truthy already_pushed) then
          usernames <- list_all_local_usernames owner_id ;;
          for_each usernames (fun uname =>
            links <- list_links_of_local_user owner_id uname ;;
            for_each links disable_link ;;
            disable_user_on_assigned_panels owner_id uname) ;;
          mark_all_users_disabled now owner_id ;;
          mark_agent_disabled now owner_id
        else ret tt
  end.

(** [try_enable_agent_if_ok(owner_id)] *)
Definition try_enable_agent_if_ok (now : Z) (owner_id : Z) : M unit :=
  ag <- get_agent owner_id ;;
  match ag with
  | None => ret tt
  | Some ag =>
      if Agent.active ag =? 0 then ret tt
      else if negb (truthy (Agent.disabled_pushed ag)) then ret tt
      else
        let limit_b := Agent.plan_limit_bytes ag in
        let expired := is_expired now (Agent.expire_at ag) in
        over_limit <- agent_over_limit owner_id limit_b ;;
        if negb expired && negb over_limit then
          usernames <- list_all_local_usernames owner_id ;;
          for_each usernames (fun uname =>
            links <- list_links_of_local_user owner_id uname ;;
            for_each links enable_link ;;
            enable_user_on_assigned_panels owner_id uname) ;;
          mark_all_users_enabled owner_id ;;
          mark_agent_enabled owner_id
        else ret tt
  end.

(** [sync_agent_now(owner_id)] *)
Definition sync_agent_now (now : Z) (owner_id : Z) : M unit :=
  try_disable_agent_if_exceeded now owner_id ;;
  try_enable_agent_if_ok now owner_id.

(** [seen_owners.add(owner_id)], the set kept as a list without repeats. *)
Definition set_add (x : Z) (s : list Z) : list Z :=
  if existsb (Z.eqb x) s then s else s ++ [x].

(** The body of [for row in links] in [loop]: [None] where the source says
    [continue], the owner to add to [seen_owners] otherwise. *)
Definition sync_row (now : Z) (row : Db.joined) : M (option Z) :=
  let l := fst row in
  let p := snd row in
  '(used, err) <- fetch_used_traffic (Panel.panel_type p) (Panel.panel_url p)
                    (Panel.access_token p) (Link.remote_username l) ;;
  match used with
  | None => ret None
  | Some used =>
      let last := Link.last_used_traffic l in
      if used <? last then
        update_last (Link.id l) used ;;
        ret None
      else
        let delta := used - last in
        (if 0 <? delta then
           add_usage (Link.owner_id l) (Link.local_username l) delta ;;
           update_last (Link.id l) used
         else ret tt) ;;
        try_disable_if_user_exceeded now (Link.owner_id l)
                                     (Link.local_username l) ;;
        try_enable_if_user_ok (Link.owner_id l) (Link.local_username l) ;;
        ret (Some (Link.owner_id l))
  end.

(** [for row in links: ...] with the set [seen_owners]. *)
Fixpoint sync_rows (now : Z) (rows : list Db.joined) (seen_owners : list Z)
  : M (list Z) :=
  match rows with
  | [] => ret seen_owners
  | row :: rest =>
      r <- sync_row now row ;;
      match r with
      | None => sync_rows now rest seen_owners
      | Some owner => sync_rows now rest (set_add owner seen_owners)
      end
  end.

(** One turn of the [while True] of [loop], run at time [now]. *)
Definition cycle (now : Z) : M unit :=
  links <- fetch_all_links ;;
  seen_owners <- sync_rows now links [] ;;
  for_each seen_owners (fun owner_id =>
    try_disable_agent_if_exceeded now owner_id ;;
    try_enable_agent_if_ok now owner_id).

(** [loop()], for the turns that start at the given times. *)
Fixpoint loop (times : list Z) : M unit :=
  match times with
  | [] => ret tt
  | now :: rest => cycle now ;; loop rest
  end.

End WithPanels.
End UsageSync.

(* ===================================================================== *)
(** ** bot.py: usage reset and account deletion *)
(* ===================================================================== *)

Module Bot.
Import PyStr Remote Effects.
Local Open Scope Z_scope.
Local Open Scope monad_scope.

Section WithPanels.
Variable P : Panels.

(** [list(admin_ids())] *)
Variable ADMIN_IDS : list Z.

Definition ids_of (owner_id : Z) : list Z := expand_owner_ids ADMIN_IDS owner_id.

Definition user_in (ids : list Z) (username : str) (r : LocalUser.t) : bool :=
  Db.in_ids ids (LocalUser.owner_id r) && str_eqb (LocalUser.username r) username.

(** [GREATEST(total_used_bytes - amount, 0)] *)
Definition debit (amount total : Z) : Z := Z.max (total - amount) 0.

(** The guarded [UPDATE agents SET total_used_bytes = GREATEST(...)] that
    [reset_used] and [delete_local_user] both end their transaction with. *)
Definition credit_removal (used : Z) (owner_real : option Z) (d : Db.t) : Db.t :=
  match owner_real with
  | Some owner =>
      if 0 <? used then
        Db.with_agents
          (Db.update_where (fun a => Agent.telegram_user_id a =? owner)
             (fun a => Agent.set_total_used_bytes
                         (debit used (Agent.total_used_bytes a)) a)
             (Db.agents d)) d
      else d
  | None => d
  end.

(** [list_user_links(owner_id, local_username)] *)
Definition list_user_links (owner_id : Z) (local_username : str)
  : M (list Db.joined) :=
  query (fun d =>
    Db.join_panels d
      (filter (fun l => Db.in_ids (ids_of owner_id) (Link.owner_id l)
                        && str_eqb (Link.local_username l) local_username)
              (Db.local_user_panel_links d))).

(** [row["remote_username"].split(",") if sanaei else [row["remote_username"]]] *)
Definition remotes_of (panel_type remote_username : str) : list str :=
  if str_eqb panel_type (lit "sanaei") then split COMMA remote_username
  else [remote_username].

(** The transaction of [reset_used]. *)
Definition reset_used_tx (owner_id : Z) (username : str) (d : Db.t) : Db.t :=
  let ids := ids_of owner_id in
  let row := Db.select_one (user_in ids username) (Db.local_users d) in
  let prev_used := match row with
                   | Some r => LocalUser.used_bytes r
                   | None => 0
                   end in
  let owner_real := option_map LocalUser.owner_id row in
  let d := Db.with_local_users
             (Db.update_where (user_in ids username)
                (LocalUser.set_used_bytes 0) (Db.local_users d)) d in
  credit_removal prev_used owner_real d.

(** [reset_used(owner_id, username)] *)
Definition reset_used (owner_id : Z) (username : str) : M unit :=
  execute (reset_used_tx owner_id username) ;;
  rows <- list_user_links owner_id username ;;
  for_each rows (fun row =>
    let api := get_api (Panel.panel_type (snd row)) in
    for_each (remotes_of (Panel.panel_type (snd row))
                         (Link.remote_username (fst row)))
      (fun rn =>
         _ <- api_reset_remote_user_usage P api (Panel.panel_url (snd row))
                (Panel.access_token (snd row)) rn ;;
         ret tt)).

(** The transaction of [delete_local_user]. *)
Definition delete_local_user_tx (owner_id : Z) (username : str) (d : Db.t)
  : Db.t :=
  let ids := ids_of owner_id in
  let row := Db.select_one (user_in ids username) (Db.local_users d) in
  let used := match row with
              | Some r => LocalUser.used_bytes r
              | None => 0
              end in
  let owner_real := option_map LocalUser.owner_id row in
  let d := Db.with_links
             (Db.delete_where
                (fun l => Db.in_ids ids (Link.owner_id l)
                          && str_eqb (Link.local_username l) username)
                (Db.local_user_panel_links d)) d in
  let d := Db.with_local_users
             (Db.delete_where (user_in ids username) (Db.local_users d)) d in
  let d := Db.with_app_users
             (Db.delete_where
                (fun r => Db.in_ids ids (AppUser.telegram_user_id r)
                          && str_eqb (AppUser.username r) username)
                (Db.app_users d)) d in
  credit_removal used owner_real d.

(** [delete_local_user(owner_id, username)] *)
Definition delete_local_user (owner_id : Z) (username : str) : M unit :=
  execute (delete_local_user_tx owner_id username).

End WithPanels.
End Bot.

(* ===================================================================== *)
(** ** app.py: the per-panel filters of the link fan-out *)
(* ===================================================================== *)

Module Filters.
Import PyStr.
Local Open Scope Z_scope.

(** The two filter tables, as the rows [(panel_id, config_name)] of
    [panel_disabled_configs] and [(panel_id, config_index)] of
    [panel_disabled_numbers]. *)
Record Tables : Type := {
  panel_disabled_configs : list (Z * str);
  panel_disabled_numbers : list (Z * Z)
}.

(** A [dict] from panel ids to sets, the sets kept as lists without
    repeats. *)
Definition dict (X : Type) : Type := list (Z * list X).

(** [m.setdefault(k, set()).add(x)] *)
Fixpoint setdefault_add {X} (eqb : X -> X -> bool) (k : Z) (x : X)
         (m : dict X) : dict X :=
  match m with
  | [] => [(k, [x])]
  | (k', s) :: rest =>
      if k' =? k then (k', if existsb (eqb x) s then s else s ++ [x]) :: rest
      else (k', s) :: setdefault_add eqb k x rest
  end.

(** [m.get(k, set())] *)
Definition get {X} (k : Z) (m : dict X) : list X :=
  match find (fun e => fst e =? k) m with
  | Some e => snd e
  | None => []
  end.

(** [load_disabled_filters(panel_ids)] *)
Definition load_disabled_filters (t : Tables) (panel_ids : list Z)
  : dict str * dict Z :=
  match panel_ids with
  | [] => ([], [])
  | _ :: _ =>
      let names :=
        fold_left
          (fun names r =>
             let cn := App.canonicalize_name (snd r) in
             if nonempty cn then setdefault_add str_eqb (fst r) cn names
             else names)
          (filter (fun r => Db.in_ids panel_ids (fst r))
                  (panel_disabled_configs t))
          [] in
      let nums :=
        fold_left
          (fun nums r =>
             let idx := snd r in
             if 0 <? idx then setdefault_add Z.eqb (fst r) idx nums
             else nums)
          (filter (fun r => Db.in_ids panel_ids (fst r))
                  (panel_disabled_numbers t))
          [] in
      (names, nums)
  end.

(** [[x for idx, x in enumerate(links, idx) if idx not in disabled_nums]] *)
Fixpoint drop_numbered (idx : Z) (disabled_nums : list Z) (links : list str)
  : list str :=
  match links with
  | [] => []
  | x :: rest =>
      if existsb (Z.eqb idx) disabled_nums
      then drop_numbered (idx + 1) disabled_nums rest
      else x :: drop_numbered (idx + 1) disabled_nums rest
  end.

(** The end of [worker] in [collect_links]: the links fetched for one
    mapping go through the name filter and then the position filter of
    the mapping's panel, each applied when its set is not empty. *)
Definition apply_filters (disabled_names : list str) (disabled_nums : list Z)
           (links : list str) : list str :=
  let links :=
    match disabled_names with
    | [] => links
    | _ :: _ =>
        filter (fun x => negb (existsb (str_eqb (App.extract_name x))
                                       disabled_names))
               links
    end in
  match disabled_nums with
  | [] => links
  | _ :: _ => drop_numbered 1 disabled_nums links
  end.

End Filters.

(* ===================================================================== *)
(** ** bot.py: the quota of an agent *)
(* ===================================================================== *)

Module BotAgents.
Import PyStr Remote Effects.
Local Open Scope Z_scope.
Local Open Scope monad_scope.

Section WithPanels.
Variable P : Panels.

Definition set_plan_limit_bytes (v : Z) (a : Agent.t) : Agent.t :=
  Agent.mk (Agent.telegram_user_id a) v (Agent.expire_at a) (Agent.active a)
           (Agent.total_used_bytes a) (Agent.disabled_pushed a)
           (Agent.disabled_pushed_at a).

(** [set_agent_quota(tg_id, limit_bytes)]: the update, then
    [usage_sync.sync_agent_now(tg_id)], here run at time [now]. *)
Definition set_agent_quota (now : Z) (tg_id limit_bytes : Z) : M unit :=
  execute (fun d =>
    Db.with_agents
      (Db.update_where (fun a => Agent.telegram_user_id a =? tg_id)
         (set_plan_limit_bytes limit_bytes) (Db.agents d)) d) ;;
  UsageSync.sync_agent_now P now tg_id.

End WithPanels.
End BotAgents.

(* ===================================================================== *)
(** * Properties *)
(* ===================================================================== *)

(** ** Tables *)

Section TableFacts.
Context {A : Type}.

Lemma select_one_update_where (cond key : A -> bool) (set : A -> A)
      (rows : list A) :
  (forall r, key (set r) = key r) ->
  Db.select_one key (Db.update_where cond set rows)
  = option_map (fun r => if cond r then set r else r) (Db.select_one key rows).
Proof.
  intros Hkey. unfold Db.select_one, Db.update_where.
  induction rows as [|r rows IH]; simpl; [reflexivity|].
  destruct (cond r) eqn:Hc.
  - rewrite Hkey. destruct (key r); [simpl; now rewrite Hc | exact IH].
  - destruct (key r); [simpl; now rewrite Hc | exact IH].
Qed.

Lemma update_where_none (cond : A -> bool) (set : A -> A) (rows : list A) :
  (forall r, In r rows -> cond r = false) ->
  Db.update_where cond set rows = rows.
Proof.
  intros H. unfold Db.update_where.
  induction rows as [|r rows IH]; simpl; [reflexivity|].
  rewrite (H r (or_introl eq_refl)). f_equal. apply IH.
  intros r' Hr'. apply H. now right.
Qed.

Lemma in_update_where (cond : A -> bool) (set : A -> A) (rows : list A) r' :
  In r' (Db.update_where cond set rows) ->
  exists r, In r rows /\ r' = (if cond r then set r else r).
Proof.
  unfold Db.update_where. rewrite in_map_iff. intros [r [E Hin]]. eauto.
Qed.

End TableFacts.

(** ** The effect monad *)

Import PyStr Remote Effects.

Lemma bind_run {A B} (c : M A) (k : A -> M B) (w : World) :
  bind c k w = k (fst (c w)) (snd (c w)).
Proof. unfold bind. now destruct (c w). Qed.

(** A computation that leaves the database alone. *)
Definition keeps_db {A} (c : M A) : Prop := forall w, db (snd (c w)) = db w.

(** A computation that only adds to the log of remote calls. *)
Definition extends_calls {A} (c : M A) : Prop :=
  forall w, exists new, calls (snd (c w)) = calls w ++ new.

Lemma for_each_cons {A} (x : A) (l : list A) (body : A -> M unit) w :
  for_each (x :: l) body w = for_each l body (snd (body x w)).
Proof. simpl. now rewrite bind_run. Qed.

Lemma keeps_db_ret {A} (x : A) : keeps_db (ret x).
Proof. now intros w. Qed.

Lemma keeps_db_bind {A B} (c : M A) (k : A -> M B) :
  keeps_db c -> (forall x, keeps_db (k x)) -> keeps_db (bind c k).
Proof.
  intros Hc Hk w. rewrite bind_run. now rewrite Hk, Hc.
Qed.

Lemma keeps_db_query {A} (q : Db.t -> A) : keeps_db (query q).
Proof. now intros w. Qed.

Lemma keeps_db_for_each {A} (l : list A) (body : A -> M unit) :
  (forall x, keeps_db (body x)) -> keeps_db (for_each l body).
Proof.
  intros Hb. induction l as [|x l IH]; simpl.
  - apply keeps_db_ret.
  - apply keeps_db_bind; auto.
Qed.

Lemma keeps_db_each_remote call remotes all_ok last_msg :
  (forall rn, keeps_db (call rn)) ->
  keeps_db (each_remote call remotes all_ok last_msg).
Proof.
  intros Hc. revert all_ok last_msg.
  induction remotes as [|rn rest IH]; intros; simpl.
  - apply keeps_db_ret.
  - apply keeps_db_bind; [apply Hc|]. intros [ok msg]. destruct ok; apply IH.
Qed.

Lemma keeps_db_api_disable P api url tok rn :
  keeps_db (api_disable_remote_user P api url tok rn).
Proof. now intros w. Qed.

Lemma keeps_db_api_enable P api url tok rn :
  keeps_db (api_enable_remote_user P api url tok rn).
Proof. now intros w. Qed.

Lemma keeps_db_api_get_user P api url tok rn :
  keeps_db (api_get_user P api url tok rn).
Proof. now intros w. Qed.

Lemma keeps_db_http P req : keeps_db (http_request P req).
Proof. now intros w. Qed.

Create HintDb keeps.

#[local] Hint Resolve keeps_db_ret keeps_db_bind keeps_db_query
  keeps_db_for_each keeps_db_each_remote keeps_db_api_disable
  keeps_db_api_enable keeps_db_api_get_user keeps_db_http : keeps.

(** ** usage_sync.py: the user-level state machine *)

Section UserStateMachine.
Import UsageSync.
Local Open Scope Z_scope.
Variable P : Panels.

Lemma keeps_db_get_local_user owner uname :
  keeps_db (get_local_user owner uname).
Proof. apply keeps_db_query. Qed.

Lemma keeps_db_list_links owner uname :
  keeps_db (list_links_of_local_user owner uname).
Proof. apply keeps_db_query. Qed.

Lemma keeps_db_get_agent owner : keeps_db (UsageSync.get_agent owner).
Proof. apply keeps_db_query. Qed.

Lemma keeps_db_list_usernames owner :
  keeps_db (list_all_local_usernames owner).
Proof. apply keeps_db_query. Qed.

Lemma keeps_db_disable_remote pt url tok rn :
  keeps_db (UsageSync.disable_remote P pt url tok rn).
Proof. unfold UsageSync.disable_remote. auto with keeps. Qed.

Lemma keeps_db_enable_remote pt url tok rn :
  keeps_db (UsageSync.enable_remote P pt url tok rn).
Proof. unfold UsageSync.enable_remote. auto with keeps. Qed.

Lemma keeps_db_disable_link l : keeps_db (disable_link P l).
Proof.
  unfold disable_link. apply keeps_db_bind; auto with keeps.
  apply keeps_db_disable_remote.
Qed.

Lemma keeps_db_enable_link l : keeps_db (enable_link P l).
Proof.
  unfold enable_link. apply keeps_db_bind; auto with keeps.
  apply keeps_db_enable_remote.
Qed.

Lemma user_is_set_disabled owner uname v t r :
  user_is owner uname (LocalUser.set_disabled_pushed v t r)
  = user_is owner uname r.
Proof. reflexivity. Qed.

(** The world right after the disable attempts of the user's links. *)
Definition after_disable_attempts (owner : Z) (uname : str) (w : World)
  : World :=
  exec (bind (list_links_of_local_user owner uname)
             (fun links => for_each links (disable_link P))) w.

Lemma after_disable_attempts_db owner uname w :
  db (after_disable_attempts owner uname w) = db w.
Proof.
  unfold after_disable_attempts, exec.
  apply keeps_db_bind.
  - apply keeps_db_list_links.
  - intros links. apply keeps_db_for_each, keeps_db_disable_link.
Qed.

Lemma try_disable_pushed now owner uname w lu :
  Db.select_one (user_is owner uname) (Db.local_users (db w)) = Some lu ->
  LocalUser.disabled_pushed lu <> 0 ->
  try_disable_if_user_exceeded P now owner uname w = (tt, w).
Proof.
  intros Hlu Hp. unfold try_disable_if_user_exceeded.
  rewrite bind_run. unfold get_local_user, query at 1. simpl. rewrite Hlu.
  unfold truthy. destruct (Z.eqb_spec (LocalUser.disabled_pushed lu) 0);
    [contradiction|].
  simpl. rewrite !andb_false_r. reflexivity.
Qed.

Lemma try_disable_fires now owner uname w lu :
  Db.select_one (user_is owner uname) (Db.local_users (db w)) = Some lu ->
  0 < LocalUser.plan_limit_bytes lu ->
  LocalUser.plan_limit_bytes lu <= LocalUser.used_bytes lu ->
  LocalUser.disabled_pushed lu = 0 ->
  exec (try_disable_if_user_exceeded P now owner uname) w
  = exec (mark_user_disabled now owner uname)
         (after_disable_attempts owner uname w).
Proof.
  intros Hlu Hl Hu Hp. unfold exec, try_disable_if_user_exceeded.
  rewrite bind_run. unfold get_local_user, query at 1. simpl. rewrite Hlu.
  rewrite Hp. simpl.
  destruct (Z.ltb_spec 0 (LocalUser.plan_limit_bytes lu)); [|lia].
  destruct (Z.leb_spec (LocalUser.plan_limit_bytes lu) (LocalUser.used_bytes lu));
    [|lia].
  simpl. unfold after_disable_attempts, exec.
  rewrite !bind_run. reflexivity.
Qed.

(** C1.  For a local user whose push flag is already 1,
    [try_disable_if_user_exceeded] returns the world as it got it: no
    panel is called, whatever the panels would answer.  For a user over
    quota whose flag is 0, the disable attempts of the user's links are
    issued and then the flag is set to 1, whatever the attempts answered;
    evaluating the same condition again, at any later time, calls no
    panel. *)
Theorem pushed_user_is_not_disabled_again now owner uname w lu :
  Db.select_one (user_is owner uname) (Db.local_users (db w)) = Some lu ->
  (LocalUser.disabled_pushed lu = 1 ->
   try_disable_if_user_exceeded P now owner uname w = (tt, w))
  /\
  (0 < LocalUser.plan_limit_bytes lu ->
   LocalUser.plan_limit_bytes lu <= LocalUser.used_bytes lu ->
   LocalUser.disabled_pushed lu = 0 ->
   let w' := exec (try_disable_if_user_exceeded P now owner uname) w in
   calls w' = calls (after_disable_attempts owner uname w)
   /\ Db.select_one (user_is owner uname) (Db.local_users (db w'))
      = Some (LocalUser.set_disabled_pushed 1 (Some now) lu)
   /\ forall now', try_disable_if_user_exceeded P now' owner uname w' = (tt, w')).
Proof.
  intros Hlu. split.
  - intros Hp. apply try_disable_pushed with lu; [assumption|]. rewrite Hp. lia.
  - intros Hl Hu Hp w'.
    assert (Hw' : w' = exec (mark_user_disabled now owner uname)
                            (after_disable_attempts owner uname w))
      by (apply try_disable_fires with lu; assumption).
    assert (Hsel : Db.select_one (user_is owner uname) (Db.local_users (db w'))
                   = Some (LocalUser.set_disabled_pushed 1 (Some now) lu)).
    { rewrite Hw'. unfold exec, mark_user_disabled, execute. simpl.
      rewrite after_disable_attempts_db.
      rewrite select_one_update_where by (intros; apply user_is_set_disabled).
      rewrite Hlu. simpl.
      assert (Hk : user_is owner uname lu = true).
      { unfold Db.select_one in Hlu. now apply find_some in Hlu. }
      now rewrite Hk. }
    split; [now rewrite Hw'|]. split; [exact Hsel|].
    intros now'. apply try_disable_pushed with (1 := Hsel). simpl. lia.
Qed.

End UserStateMachine.

#[local] Hint Resolve keeps_db_get_local_user keeps_db_list_links
  keeps_db_get_agent keeps_db_list_usernames : keeps.

(** ** The ledger: every column but the push flags *)

Definition erase_user (r : LocalUser.t) : LocalUser.t :=
  LocalUser.set_disabled_pushed 0 None r.

Definition erase_agent (a : Agent.t) : Agent.t :=
  Agent.set_disabled_pushed 0 None a.

Definition ledger (d : Db.t)
  : list LocalUser.t * list Agent.t * list Link.t * list Panel.t :=
  (map erase_user (Db.local_users d), map erase_agent (Db.agents d),
   Db.local_user_panel_links d, Db.panels d).

(** A computation that may flip push flags and call panels, and no more. *)
Definition keeps_ledger {A} (c : M A) : Prop :=
  forall w, ledger (db (snd (c w))) = ledger (db w).

Lemma keeps_db_ledger {A} (c : M A) : keeps_db c -> keeps_ledger c.
Proof. intros H w. now rewrite H. Qed.

Lemma keeps_ledger_bind {A B} (c : M A) (k : A -> M B) :
  keeps_ledger c -> (forall x, keeps_ledger (k x)) -> keeps_ledger (bind c k).
Proof. intros Hc Hk w. rewrite bind_run. now rewrite Hk, Hc. Qed.

Lemma keeps_ledger_for_each {A} (l : list A) (body : A -> M unit) :
  (forall x, keeps_ledger (body x)) -> keeps_ledger (for_each l body).
Proof.
  intros Hb. induction l as [|x l IH]; simpl.
  - now intros w.
  - apply keeps_ledger_bind; auto.
Qed.

Lemma keeps_ledger_user_flags cond v t :
  keeps_ledger (execute (fun d =>
    Db.with_local_users
      (Db.update_where cond (LocalUser.set_disabled_pushed v t)
                       (Db.local_users d)) d)).
Proof.
  intros w. unfold ledger. simpl. do 3 f_equal.
  unfold Db.update_where. rewrite map_map. apply map_ext.
  intros r. now destruct (cond r).
Qed.

Lemma keeps_ledger_agent_flags cond v t :
  keeps_ledger (execute (fun d =>
    Db.with_agents
      (Db.update_where cond (Agent.set_disabled_pushed v t) (Db.agents d)) d)).
Proof.
  intros w. unfold ledger. simpl. do 3 f_equal.
  unfold Db.update_where. rewrite map_map. apply map_ext.
  intros a. now destruct (cond a).
Qed.

Create HintDb ledger.

#[local] Hint Resolve keeps_ledger_bind keeps_ledger_for_each
  keeps_ledger_user_flags keeps_ledger_agent_flags : ledger.

#[local] Hint Extern 5 (keeps_ledger _) =>
  (apply keeps_db_ledger; auto with keeps) : ledger.

(** Looking a row up by a key that ignores the push flags. *)
Lemma find_erased {A} (erase : A -> A) (key : A -> bool) (l l' : list A) :
  (forall r, key (erase r) = key r) ->
  map erase l' = map erase l ->
  option_map erase (find key l') = option_map erase (find key l).
Proof.
  intros Hk. revert l'.
  induction l as [|r l IH]; intros [|r' l'] H; simpl in *; try discriminate.
  - reflexivity.
  - injection H as Hr Hl.
    assert (Hkr : key r' = key r) by (rewrite <- (Hk r'), Hr; apply Hk).
    rewrite Hkr. destruct (key r); simpl; [now rewrite Hr | now apply IH].
Qed.

Section Observables.
Import UsageSync.
Local Open Scope Z_scope.

(** [used_bytes] of the local user, if the row exists. *)
Definition used_bytes_of (d : Db.t) (owner : Z) (uname : str) : option Z :=
  option_map LocalUser.used_bytes
    (Db.select_one (user_is owner uname) (Db.local_users d)).

(** [total_used_bytes] of the agent, if the row exists. *)
Definition total_used_of (d : Db.t) (owner : Z) : option Z :=
  option_map Agent.total_used_bytes
    (Db.select_one (agent_is owner) (Db.agents d)).

(** The stored baseline [last_used_traffic] of a link, if the row exists. *)
Definition baseline_of (d : Db.t) (link_id : Z) : option Z :=
  option_map Link.last_used_traffic
    (Db.select_one (fun l => Link.id l =? link_id)
                   (Db.local_user_panel_links d)).

Lemma ledger_used_bytes_of d d' owner uname :
  ledger d' = ledger d -> used_bytes_of d' owner uname = used_bytes_of d owner uname.
Proof.
  unfold ledger, used_bytes_of, Db.select_one. intros H.
  injection H as Hu _ _ _.
  pose proof (find_erased erase_user (user_is owner uname) _ _
                (fun r => eq_refl) Hu) as E.
  apply (f_equal (option_map LocalUser.used_bytes)) in E.
  destruct (find _ (Db.local_users d')), (find _ (Db.local_users d));
    simpl in *; try discriminate; [exact E | reflexivity].
Qed.


Lemma ledger_baseline_of d d' link_id :
  ledger d' = ledger d -> baseline_of d' link_id = baseline_of d link_id.
Proof.
  unfold ledger, baseline_of. intros H. injection H as _ _ Hl _. now rewrite Hl.
Qed.

End Observables.

(** ** usage_sync.py: what a poll of one link does to the ledger *)

Section Polling.
Import UsageSync.
Local Open Scope Z_scope.
Variable P : Panels.

Lemma keeps_db_sum_used_traffic api url tok rns total :
  keeps_db (sum_used_traffic P api url tok rns total).
Proof.
  revert total. induction rns as [|rn rest IH]; intros total; simpl.
  - apply keeps_db_ret.
  - apply keeps_db_bind; [apply keeps_db_api_get_user|].
    intros [obj err]; destruct obj as [o| ]; [|apply keeps_db_ret].
    destruct (int_used_traffic o); [apply IH | apply keeps_db_ret].
Qed.

Lemma keeps_db_fetch_used_traffic pt url tok rn :
  keeps_db (fetch_used_traffic P pt url tok rn).
Proof.
  unfold fetch_used_traffic.
  destruct (_ && _); [apply keeps_db_sum_used_traffic|].
  apply keeps_db_bind; [apply keeps_db_api_get_user|].
  intros [obj err]; destruct obj as [o| ]; [|apply keeps_db_ret].
  destruct (int_used_traffic o); apply keeps_db_ret.
Qed.

Lemma keeps_ledger_disable_link l : keeps_ledger (disable_link P l).
Proof. apply keeps_db_ledger, keeps_db_disable_link. Qed.

Lemma keeps_ledger_enable_link l : keeps_ledger (enable_link P l).
Proof. apply keeps_db_ledger, keeps_db_enable_link. Qed.

Lemma keeps_ledger_try_disable_user now owner uname :
  keeps_ledger (try_disable_if_user_exceeded P now owner uname).
Proof.
  unfold try_disable_if_user_exceeded.
  apply keeps_ledger_bind; [auto with ledger|].
  intros [lu| ]; [|auto with ledger].
  destruct (_ && _); [|auto with ledger].
  apply keeps_ledger_bind; [auto with ledger|]. intros links.
  apply keeps_ledger_bind.
  - apply keeps_ledger_for_each, keeps_ledger_disable_link.
  - intros _. apply keeps_ledger_user_flags.
Qed.

Lemma keeps_ledger_try_enable_user owner uname :
  keeps_ledger (try_enable_if_user_ok P owner uname).
Proof.
  unfold try_enable_if_user_ok.
  apply keeps_ledger_bind; [auto with ledger|].
  intros [lu| ]; [|auto with ledger].
  destruct (_ && _); [|auto with ledger].
  apply keeps_ledger_bind; [auto with ledger|]. intros links.
  apply keeps_ledger_bind.
  - apply keeps_ledger_for_each, keeps_ledger_enable_link.
  - intros _. apply keeps_ledger_user_flags.
Qed.

Lemma keeps_db_assigned_disable owner uname :
  keeps_db (disable_user_on_assigned_panels P owner uname).
Proof.
  unfold disable_user_on_assigned_panels.
  apply keeps_db_bind; [apply keeps_db_query|]. intros panels.
  apply keeps_db_for_each. intros p.
  apply keeps_db_bind; [apply keeps_db_disable_remote | intros; apply keeps_db_ret].
Qed.

Lemma keeps_db_assigned_enable owner uname :
  keeps_db (enable_user_on_assigned_panels P owner uname).
Proof.
  unfold enable_user_on_assigned_panels.
  apply keeps_db_bind; [apply keeps_db_query|]. intros panels.
  apply keeps_db_for_each. intros p.
  apply keeps_db_bind; [apply keeps_db_enable_remote | intros; apply keeps_db_ret].
Qed.

Lemma keeps_db_agent_over_limit owner limit_b :
  keeps_db (agent_over_limit owner limit_b).
Proof.
  unfold agent_over_limit. destruct (0 <? limit_b); auto with keeps.
  apply keeps_db_bind; [apply keeps_db_query | intros; apply keeps_db_ret].
Qed.

Lemma keeps_ledger_try_disable_agent now owner :
  keeps_ledger (try_disable_agent_if_exceeded P now owner).
Proof.
  unfold try_disable_agent_if_exceeded.
  apply keeps_ledger_bind; [auto with ledger|].
  intros [ag| ]; [|auto with ledger].
  destruct (Agent.active ag =? 0); [auto with ledger|].
  apply keeps_ledger_bind;
    [apply keeps_db_ledger, keeps_db_agent_over_limit|].
  intros over. destruct (_ && _); [|auto with ledger].
  apply keeps_ledger_bind; [auto with ledger|]. intros usernames.
  apply keeps_ledger_bind.
  - apply keeps_ledger_for_each. intros uname.
    apply keeps_ledger_bind; [auto with ledger|]. intros links.
    apply keeps_ledger_bind.
    + apply keeps_ledger_for_each, keeps_ledger_disable_link.
    + intros _. apply keeps_db_ledger, keeps_db_assigned_disable.
  - intros _. apply keeps_ledger_bind.
    + apply keeps_ledger_user_flags.
    + intros _. apply keeps_ledger_agent_flags.
Qed.


(** The report a poll of [row] gets in world [w]. *)
Definition report (row : Db.joined) (w : World) : option Z :=
  fst (eval (fetch_used_traffic P (Panel.panel_type (snd row))
               (Panel.panel_url (snd row)) (Panel.access_token (snd row))
               (Link.remote_username (fst row))) w).

(** The world after the fetch of a poll: the same database, a longer log. *)
Definition fetched (row : Db.joined) (w : World) : World :=
  exec (fetch_used_traffic P (Panel.panel_type (snd row))
          (Panel.panel_url (snd row)) (Panel.access_token (snd row))
          (Link.remote_username (fst row))) w.

Lemma fetched_db row w : db (fetched row w) = db w.
Proof. apply keeps_db_fetch_used_traffic. Qed.


Lemma sync_row_dropped now row w used :
  report row w = Some used ->
  used < Link.last_used_traffic (fst row) ->
  sync_row P now row w
  = (None, exec (update_last (Link.id (fst row)) used) (fetched row w)).
Proof.
  unfold report, fetched, eval, exec, sync_row. intros H Hlt.
  rewrite bind_run.
  destruct (fetch_used_traffic P _ _ _ _ w) as [[u err] w1].
  simpl in *. subst u.
  destruct (Z.ltb_spec used (Link.last_used_traffic (fst row))); [|lia].
  reflexivity.
Qed.

Lemma sync_row_credited now row w used :
  report row w = Some used ->
  Link.last_used_traffic (fst row) < used ->
  eval (sync_row P now row) w = Some (Link.owner_id (fst row))
  /\ ledger (db (exec (sync_row P now row) w))
     = ledger (db (exec (bind (add_usage (Link.owner_id (fst row))
                                 (Link.local_username (fst row))
                                 (used - Link.last_used_traffic (fst row)))
                              (fun _ => update_last (Link.id (fst row)) used))
                        w)).
Proof.
  unfold report, eval, exec, sync_row. intros H Hlt.
  rewrite bind_run.
  pose proof (keeps_db_fetch_used_traffic (Panel.panel_type (snd row))
                (Panel.panel_url (snd row)) (Panel.access_token (snd row))
                (Link.remote_username (fst row)) w) as Hdb.
  destruct (fetch_used_traffic P _ _ _ _ w) as [[u err] w1].
  simpl in *. subst u.
  destruct (Z.ltb_spec used (Link.last_used_traffic (fst row))); [lia|].
  destruct (Z.ltb_spec 0 (used - Link.last_used_traffic (fst row))); [|lia].
  rewrite !bind_run.
  split; [reflexivity|].
  simpl. rewrite keeps_ledger_try_enable_user, keeps_ledger_try_disable_user.
  unfold add_usage.
  destruct (Z.leb_spec (used - Link.last_used_traffic (fst row)) 0); [lia|].
  simpl. now rewrite Hdb.
Qed.

Lemma sync_row_unchanged now row w used :
  report row w = Some used ->
  used = Link.last_used_traffic (fst row) ->
  ledger (db (exec (sync_row P now row) w)) = ledger (db w).
Proof.
  unfold report, eval, exec, sync_row. intros H He.
  rewrite bind_run.
  pose proof (keeps_db_fetch_used_traffic (Panel.panel_type (snd row))
                (Panel.panel_url (snd row)) (Panel.access_token (snd row))
                (Link.remote_username (fst row)) w) as Hdb.
  destruct (fetch_used_traffic P _ _ _ _ w) as [[u err] w1].
  simpl in *. subst u.
  destruct (Z.ltb_spec used (Link.last_used_traffic (fst row))); [lia|].
  destruct (Z.ltb_spec 0 (used - Link.last_used_traffic (fst row))); [lia|].
  rewrite !bind_run. simpl.
  rewrite keeps_ledger_try_enable_user, keeps_ledger_try_disable_user.
  now rewrite Hdb.
Qed.

End Polling.

(** ** The ledger operations, seen through the observables *)

Section LedgerOps.
Import UsageSync.
Local Open Scope Z_scope.

Lemma str_eqb_eq (a b : str) : str_eqb a b = true <-> a = b.
Proof.
  revert b. induction a as [|x a IH]; intros [|y b]; simpl;
    try (split; [discriminate | discriminate]); [tauto|].
  rewrite andb_true_iff, IH. unfold cp_eqb. rewrite N.eqb_eq.
  split; [intros [-> ->]; reflexivity | intros E; injection E; auto].
Qed.

Lemma str_eqb_refl (a : str) : str_eqb a a = true.
Proof. now apply str_eqb_eq. Qed.


Lemma update_last_db link_id used w :
  db (exec (update_last link_id used) w)
  = Db.with_links
      (Db.update_where (fun l => Link.id l =? link_id)
         (Link.set_last_used_traffic used)
         (Db.local_user_panel_links (db w))) (db w).
Proof. reflexivity. Qed.

Lemma baseline_after_update_last link_id used d :
  baseline_of
    (Db.with_links
       (Db.update_where (fun l => Link.id l =? link_id)
          (Link.set_last_used_traffic used) (Db.local_user_panel_links d)) d)
    link_id
  = option_map (fun _ => used) (baseline_of d link_id).
Proof.
  unfold baseline_of. simpl.
  rewrite select_one_update_where by reflexivity.
  destruct (Db.select_one _ _) as [l| ] eqn:E; [|reflexivity].
  simpl. apply find_some in E. destruct E as [_ E]. now rewrite E.
Qed.


(** The database after [add_usage] with a positive delta. *)
Definition credited (owner : Z) (uname : str) (delta : Z) (d : Db.t) : Db.t :=
  Db.with_agents
    (Db.update_where (agent_is owner)
       (fun a => Agent.set_total_used_bytes
                   (credit delta (Agent.total_used_bytes a)) a)
       (Db.agents
          (Db.with_local_users
             (Db.update_where (user_is owner uname)
                (fun r => LocalUser.set_used_bytes
                            (credit delta (LocalUser.used_bytes r)) r)
                (Db.local_users d)) d)))
    (Db.with_local_users
       (Db.update_where (user_is owner uname)
          (fun r => LocalUser.set_used_bytes
                      (credit delta (LocalUser.used_bytes r)) r)
          (Db.local_users d)) d).

Lemma add_usage_db owner uname delta w :
  0 < delta ->
  db (exec (add_usage owner uname delta) w) = credited owner uname delta (db w).
Proof.
  intros H. unfold add_usage, exec.
  destruct (Z.leb_spec delta 0); [lia|]. reflexivity.
Qed.


Lemma used_bytes_credited owner uname delta d :
  used_bytes_of (credited owner uname delta d) owner uname
  = option_map (credit delta) (used_bytes_of d owner uname).
Proof.
  unfold used_bytes_of, credited. simpl.
  rewrite select_one_update_where by reflexivity.
  destruct (Db.select_one _ _) as [r| ] eqn:E; [|reflexivity].
  simpl. apply find_some in E. destruct E as [_ E]. now rewrite E.
Qed.



Lemma used_bytes_with_links v d owner uname :
  used_bytes_of (Db.with_links v d) owner uname = used_bytes_of d owner uname.
Proof. reflexivity. Qed.



End LedgerOps.

(** ** usage_sync.py: accounting over many polls *)

Section Accounting.
Import UsageSync.
Local Open Scope Z_scope.
Variable P : Panels.

(** The link under study and the local user it belongs to. *)
Variable link_id : Z.
Variable owner : Z.
Variable uname : str.

Definition own_row (row : Db.joined) : Prop :=
  Link.id (fst row) = link_id
  /\ Link.owner_id (fst row) = owner
  /\ Link.local_username (fst row) = uname.




Lemma sync_row_own now row w used u0 :
  own_row row ->
  report P row w = Some used ->
  Link.last_used_traffic (fst row) <= used ->
  baseline_of (db w) link_id = Some (Link.last_used_traffic (fst row)) ->
  used_bytes_of (db w) owner uname = Some u0 ->
  u0 <= COUNTER_MAX ->
  baseline_of (db (exec (sync_row P now row) w)) link_id = Some used
  /\ used_bytes_of (db (exec (sync_row P now row) w)) owner uname
     = Some (credit (used - Link.last_used_traffic (fst row)) u0).
Proof.
  intros (Hid & Ho & Hu) H Hle Hb Hub Hmax.
  destruct (Z.eq_dec used (Link.last_used_traffic (fst row))) as [He|Hne].
  - pose proof (sync_row_unchanged P now row w used H He) as E.
    rewrite (ledger_baseline_of _ _ _ E), (ledger_used_bytes_of _ _ _ _ E).
    rewrite Hb, Hub, He, Z.sub_diag. unfold credit. split; f_equal; lia.
  - assert (Hlt : Link.last_used_traffic (fst row) < used) by lia.
    destruct (sync_row_credited P now row w used H Hlt) as [_ E].
    rewrite (ledger_baseline_of _ _ _ E), (ledger_used_bytes_of _ _ _ _ E).
    unfold exec. rewrite bind_run.
    change (snd (update_last ?i ?u ?x)) with (exec (update_last i u) x).
    rewrite update_last_db.
    change (snd (add_usage ?o ?n ?dl ?x)) with (exec (add_usage o n dl) x).
    rewrite add_usage_db by lia. rewrite Hid, Ho, Hu. split.
    + rewrite baseline_after_update_last.
      unfold baseline_of in *. simpl. now rewrite Hb.
    + rewrite used_bytes_with_links, used_bytes_credited, Hub. reflexivity.
Qed.



(** The delta of every poll. *)
Fixpoint deltas (last : Z) (reports : list Z) : list Z :=
  match reports with
  | [] => []
  | r :: rest => (r - last) :: deltas r rest
  end.

Definition sum (l : list Z) : Z := fold_right Z.add 0 l.

(** The most recent reported value. *)
Definition latest (last : Z) (reports : list Z) : Z := List.last reports last.

Lemma last_default_irrelevant (x : Z) (l : list Z) (d d' : Z) :
  List.last (x :: l) d = List.last (x :: l) d'.
Proof.
  revert x. induction l as [|y l IH]; intros x; [reflexivity|].
  change (List.last (y :: l) d = List.last (y :: l) d'). apply IH.
Qed.

Lemma latest_cons last r rest : latest last (r :: rest) = latest r rest.
Proof.
  unfold latest. destruct rest as [|z rest]; [reflexivity|].
  change (List.last (z :: rest) last = List.last (z :: rest) r).
  apply last_default_irrelevant.
Qed.



Lemma sum_deltas_telescope last reports :
  sum (deltas last reports) = latest last reports - last.
Proof.
  revert last. induction reports as [|r rest IH]; intros last.
  - unfold sum, latest. simpl. lia.
  - rewrite latest_cons. simpl. unfold sum in *. simpl. rewrite IH. lia.
Qed.

(** *** The loop itself is such a run *)













Lemma insert_by_id_perm r rows : Permutation (insert_by_id r rows) (r :: rows).
Proof.
  induction rows as [|x rows IH]; simpl; [reflexivity|].
  destruct (Link.id (fst r) <? Link.id (fst x)); [reflexivity|].
  rewrite IH. apply perm_swap.
Qed.

Lemma order_by_id_perm rows : Permutation (order_by_id rows) rows.
Proof.
  unfold order_by_id. induction rows as [|r rows IH]; simpl; [reflexivity|].
  rewrite insert_by_id_perm. now constructor.
Qed.












End Accounting.

(** ** usage_sync.py: the claims about one poll *)

Section PollClaims.
Import UsageSync.
Local Open Scope Z_scope.
Variable P : Panels.

Lemma select_one_in {A} (key : A -> bool) (rows : list A) (r : A) :
  In r rows -> key r = true -> exists r', Db.select_one key rows = Some r'.
Proof.
  intros Hin Hk. unfold Db.select_one.
  destruct (find key rows) as [r'| ] eqn:E; [eauto|].
  now rewrite (find_none _ _ E r Hin) in Hk.
Qed.

Lemma baseline_of_stored d l :
  In l (Db.local_user_panel_links d) ->
  exists b, baseline_of d (Link.id l) = Some b.
Proof.
  intros Hin. unfold baseline_of.
  destruct (select_one_in (fun x => Link.id x =? Link.id l) _ l Hin
              (Z.eqb_refl _)) as [r' E].
  rewrite E. simpl. eauto.
Qed.

(** C2.  A poll that is reported less than the stored baseline: the source
    says [continue] right after [update_last], so the link table gets the
    lower value as the new baseline of this link and nothing else is
    written: the rows of [local_users] and [agents] are the same, hence
    [used_bytes] and [total_used_bytes] of everyone are unchanged and the
    delta credited is 0. *)
Theorem counter_regression_rebases_baseline now row w used :
  In (fst row) (Db.local_user_panel_links (db w)) ->
  report P row w = Some used ->
  used < Link.last_used_traffic (fst row) ->
  let w' := exec (sync_row P now row) w in
  baseline_of (db w') (Link.id (fst row)) = Some used
  /\ Db.local_user_panel_links (db w')
     = Db.update_where (fun l => Link.id l =? Link.id (fst row))
         (Link.set_last_used_traffic used) (Db.local_user_panel_links (db w))
  /\ Db.local_users (db w') = Db.local_users (db w)
  /\ Db.agents (db w') = Db.agents (db w)
  /\ (forall owner uname,
        used_bytes_of (db w') owner uname = used_bytes_of (db w) owner uname)
  /\ (forall owner, total_used_of (db w') owner = total_used_of (db w) owner).
Proof.
  intros Hin Hrep Hlt w'.
  assert (Hw' : w' = exec (update_last (Link.id (fst row)) used)
                          (fetched P row w))
    by (unfold w', exec at 1; now rewrite (sync_row_dropped P now row w used)).
  assert (Hdb : db w' = Db.with_links
                  (Db.update_where (fun l => Link.id l =? Link.id (fst row))
                     (Link.set_last_used_traffic used)
                     (Db.local_user_panel_links (db w))) (db w))
    by (now rewrite Hw', update_last_db, (fetched_db P)).
  rewrite Hdb. repeat split.
  rewrite baseline_after_update_last.
  destruct (baseline_of_stored (db w) (fst row) Hin) as [b ->]. reflexivity.
Qed.




End PollClaims.

(** ** usage_sync.py: links with several sub-identities *)

Section MultiIdentity.
Import UsageSync.
Local Open Scope Z_scope.
Variable P : Panels.










End MultiIdentity.

(** ** usage_sync.py: the agent-level state machine *)

Section AgentStateMachine.
Import UsageSync.
Local Open Scope Z_scope.
Variable P : Panels.

Lemma agent_over_limit_unlimited owner w :
  agent_over_limit owner 0 w = (false, w).
Proof. reflexivity. Qed.

Lemma try_disable_agent_inactive now owner w ag :
  Db.select_one (agent_is owner) (Db.agents (db w)) = Some ag ->
  Agent.active ag = 0 ->
  try_disable_agent_if_exceeded P now owner w = (tt, w).
Proof.
  intros Hag Hact. unfold try_disable_agent_if_exceeded.
  rewrite bind_run. unfold UsageSync.get_agent, query at 1. simpl.
  rewrite Hag, Hact. reflexivity.
Qed.

Lemma try_enable_agent_inactive now owner w ag :
  Db.select_one (agent_is owner) (Db.agents (db w)) = Some ag ->
  Agent.active ag = 0 ->
  try_enable_agent_if_ok P now owner w = (tt, w).
Proof.
  intros Hag Hact. unfold try_enable_agent_if_ok.
  rewrite bind_run. unfold UsageSync.get_agent, query at 1. simpl.
  rewrite Hag, Hact. reflexivity.
Qed.

Lemma try_disable_agent_unlimited now owner w ag :
  Db.select_one (agent_is owner) (Db.agents (db w)) = Some ag ->
  Agent.plan_limit_bytes ag = 0 ->
  is_expired now (Agent.expire_at ag) = false ->
  try_disable_agent_if_exceeded P now owner w = (tt, w).
Proof.
  intros Hag Hlim Hexp. unfold try_disable_agent_if_exceeded.
  rewrite bind_run. unfold UsageSync.get_agent, query at 1. simpl.
  rewrite Hag. destruct (Agent.active ag =? 0); [reflexivity|].
  rewrite Hlim, Hexp, bind_run, agent_over_limit_unlimited. reflexivity.
Qed.

Lemma try_disable_user_unlimited now owner uname w lu :
  Db.select_one (user_is owner uname) (Db.local_users (db w)) = Some lu ->
  LocalUser.plan_limit_bytes lu = 0 ->
  try_disable_if_user_exceeded P now owner uname w = (tt, w).
Proof.
  intros Hlu Hlim. unfold try_disable_if_user_exceeded.
  rewrite bind_run. unfold UsageSync.get_local_user, query at 1. simpl.
  rewrite Hlu, Hlim. reflexivity.
Qed.

End AgentStateMachine.

(** ** app.py: the subscription gate *)

Section Gate.
Import App.
Local Open Scope Z_scope.
Variable lower : str -> str.
Variable P : Panels.
Variable ADMIN_IDS : list Z.
Variable collect_links :
  World -> list Mapping.t -> str -> bool
  -> list str * list str * option UserObj.
Variable limit_reached_body : Z -> str -> Z -> Z -> str.

Local Abbreviation unified_links :=
  (App.unified_links lower P ADMIN_IDS collect_links limit_reached_body).
Local Abbreviation agent_gate := (App.agent_gate P ADMIN_IDS).
Local Abbreviation ids_of := (App.ids_of ADMIN_IDS).

(** The agent is over quota or expired, as the gate reads it. *)
Definition agent_blocks (now : Z) (ag : Agent.t) : Prop :=
  (0 < Agent.plan_limit_bytes ag
   /\ Agent.plan_limit_bytes ag <= Agent.total_used_bytes ag)
  \/ (exists e, Agent.expire_at ag = Some e /\ e <= now).

(** The answer has an empty body: it is the empty plain-text response. *)
Definition body_empty (r : Response) : bool :=
  match r with
  | Plain [] _ => true
  | _ => false
  end.

(** The world right after the disable attempts on the agent's links. *)
Definition after_agent_attempts (owner_id : Z) (w : World) : World :=
  exec (bind (list_all_agent_links ADMIN_IDS owner_id)
             (fun links => for_each links (disable_agent_link P))) w.

Lemma keeps_db_app_disable_remote pt url tok rn :
  keeps_db (App.disable_remote P pt url tok rn).
Proof.
  unfold App.disable_remote. destruct (str_eqb pt _).
  - apply keeps_db_each_remote. intros. apply keeps_db_api_disable.
  - apply keeps_db_bind; [apply keeps_db_http|].
    intros [status text|msg]; [|apply keeps_db_ret].
    destruct (status =? 200); [apply keeps_db_ret|].
    apply keeps_db_bind; [apply keeps_db_http|].
    intros [status' text'|msg]; apply keeps_db_ret.
Qed.

Lemma keeps_db_disable_agent_link l : keeps_db (disable_agent_link P l).
Proof.
  unfold disable_agent_link.
  apply keeps_db_bind; [apply keeps_db_app_disable_remote|].
  intros; apply keeps_db_ret.
Qed.

Lemma keeps_db_disable_mapping l : keeps_db (disable_mapping P l).
Proof.
  unfold disable_mapping.
  apply keeps_db_bind; [apply keeps_db_app_disable_remote|].
  intros; apply keeps_db_ret.
Qed.

Lemma after_agent_attempts_db owner_id w :
  db (after_agent_attempts owner_id w) = db w.
Proof.
  unfold after_agent_attempts, exec. apply keeps_db_bind.
  - apply keeps_db_query.
  - intros links. apply keeps_db_for_each, keeps_db_disable_agent_link.
Qed.

Lemma agent_blocks_spec now ag :
  agent_blocks now ag ->
  (match Agent.expire_at ag with Some e => e <=? now | None => false end
   || ((0 <? Agent.plan_limit_bytes ag)
       && (Agent.plan_limit_bytes ag <=? Agent.total_used_bytes ag))) = true.
Proof.
  intros [[H1 H2]|[e [He Hle]]].
  - apply orb_true_iff. right. apply andb_true_iff.
    split; [now apply Z.ltb_lt | now apply Z.leb_le].
  - rewrite He. apply orb_true_iff. left. now apply Z.leb_le.
Qed.

(** What the gate does when the agent blocks. *)
Lemma agent_gate_blocks now owner_id w ag :
  Db.select_one (agent_in (ids_of owner_id)) (Db.agents (db w)) = Some ag ->
  agent_blocks now ag ->
  agent_gate now owner_id w
  = (true,
     if truthy (Agent.disabled_pushed ag) then w
     else exec (mark_agent_disabled ADMIN_IDS now owner_id)
               (after_agent_attempts owner_id w)).
Proof.
  intros Hag Hb. apply agent_blocks_spec in Hb.
  unfold App.agent_gate. rewrite bind_run.
  unfold App.get_agent, query at 1. simpl. rewrite Hag.
  rewrite bind_run.
  assert (Hex : forall w0 : World, db w0 = db w ->
            (if 0 <? Agent.plan_limit_bytes ag
             then bind (get_agent_total_used ADMIN_IDS owner_id)
                       (fun used_total =>
                          ret (Agent.plan_limit_bytes ag <=? used_total))
             else ret false) w0
            = ((0 <? Agent.plan_limit_bytes ag)
               && (Agent.plan_limit_bytes ag <=? Agent.total_used_bytes ag), w0)).
  { intros w0 Hw0. destruct (0 <? Agent.plan_limit_bytes ag); [|reflexivity].
    rewrite bind_run. unfold get_agent_total_used, query. simpl.
    now rewrite Hw0, Hag. }
  rewrite (Hex w eq_refl). cbn [fst snd]. rewrite Hb.
  rewrite bind_run.
  destruct (truthy (Agent.disabled_pushed ag)); simpl; [reflexivity|].
  unfold after_agent_attempts, exec. rewrite !bind_run. reflexivity.
Qed.

(** What the gate does when no active agent row is found. *)
Lemma agent_gate_no_agent now owner_id w :
  Db.select_one (agent_in (ids_of owner_id)) (Db.agents (db w)) = None ->
  agent_gate now owner_id w = (false, w).
Proof.
  intros Hag. unfold App.agent_gate. rewrite bind_run.
  unfold App.get_agent, query at 1. simpl. now rewrite Hag.
Qed.

(** What the gate does for an agent without a limit that has not expired. *)
Lemma agent_gate_unlimited now owner_id w ag :
  Db.select_one (agent_in (ids_of owner_id)) (Db.agents (db w)) = Some ag ->
  Agent.plan_limit_bytes ag = 0 ->
  UsageSync.is_expired now (Agent.expire_at ag) = false ->
  agent_gate now owner_id w = (false, w).
Proof.
  intros Hag Hlim Hexp. unfold App.agent_gate. rewrite bind_run.
  unfold App.get_agent, query at 1. simpl. rewrite Hag, Hlim.
  rewrite bind_run. simpl. unfold UsageSync.is_expired in Hexp.
  now rewrite Hexp.
Qed.

(** The [disable_remote_user] calls, to the given panel, that the events
    record, with the names they were for. *)
Inductive disable_calls (api : Api) (url tok : str)
  : list str -> list Event -> Prop :=
| dc_nil : disable_calls api url tok [] []
| dc_cons rn rns reply es :
    disable_calls api url tok rns es ->
    disable_calls api url tok (rn :: rns)
                  (EvDisable api url tok rn reply :: es).

(** The events of one disable attempt on a link of [app.py]: for [sanaei]
    one call per sub-identity; otherwise the Marzneshin-style request and,
    when that one answered something else than 200, the Marzban-style one. *)
Definition disable_attempt (pt url tok rn : str) (es : list Event) : Prop :=
  if str_eqb pt (lit "sanaei")
  then disable_calls Sanaei url tok (sub_identities rn) es
  else (exists r, es = [EvHttp (PostDisable url tok rn) r]
                  /\ match r with
                     | HttpResponse status _ => status = 200
                     | HttpError _ => True
                     end)
       \/ (exists status text r',
             status <> 200
             /\ es = [EvHttp (PostDisable url tok rn) (HttpResponse status text);
                      EvHttp (PutDisabled url tok rn) r']).

Definition link_attempt (l : Db.joined) (es : list Event) : Prop :=
  disable_attempt (Panel.panel_type (snd l)) (Panel.panel_url (snd l))
                  (Panel.access_token (snd l)) (Link.remote_username (fst l)) es.

Lemma each_remote_cons call rn rest all_ok last_msg (w : World) :
  each_remote call (rn :: rest) all_ok last_msg w
  = if fst (fst (call rn w))
    then each_remote call rest all_ok last_msg (snd (call rn w))
    else each_remote call rest false (snd (fst (call rn w))) (snd (call rn w)).
Proof.
  simpl. rewrite bind_run. destruct (call rn w) as [[ok msg] w1].
  simpl. now destruct ok.
Qed.

Lemma each_remote_disable_calls api url tok rns all_ok last_msg w :
  exists es,
    calls (snd (each_remote (api_disable_remote_user P api url tok) rns
                            all_ok last_msg w)) = calls w ++ es
    /\ disable_calls api url tok rns es.
Proof.
  revert all_ok last_msg w.
  induction rns as [|rn rest IH]; intros all_ok last_msg w.
  - exists []. simpl. rewrite app_nil_r. split; [reflexivity | constructor].
  - rewrite each_remote_cons.
    remember (api_disable_remote_user P api url tok rn w) as step eqn:Es.
    assert (Hstep : calls (snd step)
                    = calls w ++ [EvDisable api url tok rn (fst step)])
      by (subst step; reflexivity).
    destruct (fst (fst step)).
    + destruct (IH all_ok last_msg (snd step)) as [es [Hc Hd]].
      exists (EvDisable api url tok rn (fst step) :: es).
      split; [|now constructor].
      rewrite Hc, Hstep. now rewrite <- app_assoc.
    + destruct (IH false (snd (fst step)) (snd step)) as [es [Hc Hd]].
      exists (EvDisable api url tok rn (fst step) :: es).
      split; [|now constructor].
      rewrite Hc, Hstep. now rewrite <- app_assoc.
Qed.

Lemma http_request_run req w :
  http_request P req w
  = (http P (calls w) req,
     mkWorld (db w) (calls w ++ [EvHttp req (http P (calls w) req)])).
Proof. reflexivity. Qed.

Lemma app_disable_remote_attempt pt url tok rn w :
  exists es,
    calls (snd (App.disable_remote P pt url tok rn w)) = calls w ++ es
    /\ disable_attempt pt url tok rn es.
Proof.
  unfold App.disable_remote, disable_attempt.
  destruct (str_eqb pt (lit "sanaei")).
  - apply each_remote_disable_calls.
  - rewrite bind_run, http_request_run. cbn [fst snd].
    destruct (http P (calls w) (PostDisable url tok rn))
      as [status text|msg] eqn:E1.
    + destruct (Z.eqb_spec status 200) as [->|Hne].
      * eexists. split; [reflexivity|]. left. eexists. split; reflexivity.
      * rewrite bind_run, http_request_run. cbn [fst snd calls].
        set (r' := http P _ (PutDisabled url tok rn)).
        exists [EvHttp (PostDisable url tok rn) (HttpResponse status text);
                EvHttp (PutDisabled url tok rn) r'].
        split.
        { destruct r'; simpl; now rewrite <- app_assoc. }
        right. exists status, text, r'. split; [assumption | reflexivity].
    + eexists. split; [reflexivity|]. left. eexists. split; [reflexivity | exact I].
Qed.

Lemma disable_agent_link_run l w :
  snd (disable_agent_link P l w)
  = snd (App.disable_remote P (Panel.panel_type (snd l))
           (Panel.panel_url (snd l)) (Panel.access_token (snd l))
           (Link.remote_username (fst l)) w).
Proof. unfold disable_agent_link. now rewrite bind_run. Qed.

Lemma agent_attempts_per_link links w :
  exists chunks,
    calls (snd (for_each links (disable_agent_link P) w))
    = calls w ++ concat chunks
    /\ Forall2 link_attempt links chunks.
Proof.
  revert w. induction links as [|l links IH]; intros w.
  - exists []. simpl. rewrite app_nil_r. split; [reflexivity | constructor].
  - rewrite for_each_cons, disable_agent_link_run.
    destruct (app_disable_remote_attempt (Panel.panel_type (snd l))
                (Panel.panel_url (snd l)) (Panel.access_token (snd l))
                (Link.remote_username (fst l)) w) as [es [Hc Ha]].
    destruct (IH (snd (App.disable_remote P (Panel.panel_type (snd l))
                         (Panel.panel_url (snd l)) (Panel.access_token (snd l))
                         (Link.remote_username (fst l)) w)))
      as [chunks [Hcs Hf]].
    exists (es :: chunks). split; [|now constructor].
    rewrite Hcs, Hc. simpl. now rewrite app_assoc.
Qed.

(** A computation that only reads. *)
Definition reads_only {A} (c : M A) : Prop := forall w, snd (c w) = w.

Lemma reads_only_ret {A} (x : A) : reads_only (ret x).
Proof. now intros w. Qed.

Lemma reads_only_query {A} (q : Db.t -> A) : reads_only (query q).
Proof. now intros w. Qed.

Lemma reads_only_bind {A B} (c : M A) (k : A -> M B) :
  reads_only c -> (forall x, reads_only (k x)) -> reads_only (bind c k).
Proof. intros Hc Hk w. rewrite bind_run. now rewrite Hk, Hc. Qed.

Lemma aggregate_reads_only want_html owner_id local_username app_key lu
      agent_blocked limit_reached :
  reads_only (aggregate lower ADMIN_IDS collect_links want_html owner_id
                local_username app_key lu agent_blocked limit_reached).
Proof.
  unfold aggregate.
  apply reads_only_bind; [apply reads_only_query|]. intros mapped.
  apply reads_only_bind.
  - destruct (_ && _); [|apply reads_only_ret].
    destruct mapped; [|now intros w].
    apply reads_only_bind; [apply reads_only_query | now intros panels w].
  - intros [[all_links errors] remote_info].
    destruct want_html; apply reads_only_ret.
Qed.

Lemma aggregate_html owner_id local_username app_key lu agent_blocked
      limit_reached w :
  exists remote,
    eval (aggregate lower ADMIN_IDS collect_links true owner_id local_username
            app_key lu agent_blocked limit_reached) w
    = Html local_username app_key (Some lu) remote.
Proof.
  unfold eval, aggregate. rewrite !bind_run.
  match goal with
  | |- context [fst (?c ?w0)] =>
      match type of c with
      | M (_ * _ * _) => destruct (fst (c w0)) as [[al er] ri]
      end
  end.
  now exists ri.
Qed.

Lemma user_gate_unlimited now owner_id local_username lu w :
  LocalUser.plan_limit_bytes lu = 0 ->
  user_gate P ADMIN_IDS now owner_id local_username lu w = (false, w).
Proof. intros H. unfold user_gate. now rewrite H. Qed.

(** The run of [unified_links] for a known user, from the agent gate on. *)
Definition from_gate (now : Z) (want_html : bool) (owner_id : Z)
           (local_username app_key : str) (lu : LocalUser.t) : M Response :=
  bind (agent_gate now owner_id) (fun agent_blocked =>
    if agent_blocked && negb want_html then ret (Plain [] None) else
    bind (user_gate P ADMIN_IDS now owner_id local_username lu)
      (fun limit_reached =>
         if limit_reached && negb want_html then
           ret (limit_reached_response limit_reached_body owner_id
                  local_username lu)
         else
           aggregate lower ADMIN_IDS collect_links want_html owner_id
                     local_username app_key lu agent_blocked limit_reached)).

(** The request names a local user: the application user row gives the
    owner and the owner has a [local_users] row of that name. *)
Definition known_user (w : World) (local_username app_key : str)
           (owner_id : Z) (lu : LocalUser.t) : Prop :=
  eval (get_owner_id local_username app_key) w = Some owner_id
  /\ owner_id <> 0
  /\ Db.select_one (user_in (ids_of owner_id) local_username)
                   (Db.local_users (db w)) = Some lu.

Lemma unified_links_known_user now want_html local_username app_key w
      owner_id lu :
  known_user w local_username app_key owner_id lu ->
  unified_links now want_html local_username app_key w
  = from_gate now want_html owner_id local_username app_key lu w.
Proof.
  intros (Ho & Hne & Hlu).
  unfold App.unified_links. rewrite bind_run.
  unfold eval in Ho. rewrite Ho.
  assert (Hw : snd (get_owner_id local_username app_key w) = w) by reflexivity.
  rewrite Hw. destruct (Z.eqb_spec owner_id 0); [contradiction|].
  rewrite bind_run. unfold App.get_local_user, query at 1 2. cbn [fst snd].
  fold (App.ids_of ADMIN_IDS owner_id). rewrite Hlu. reflexivity.
Qed.

Lemma unified_links_blocked_plain now local_username app_key w owner_id lu ag :
  known_user w local_username app_key owner_id lu ->
  Db.select_one (agent_in (ids_of owner_id)) (Db.agents (db w)) = Some ag ->
  agent_blocks now ag ->
  unified_links now false local_username app_key w
  = (Plain [] None, snd (agent_gate now owner_id w)).
Proof.
  intros Hk Hag Hb.
  rewrite (unified_links_known_user now false local_username app_key w
             owner_id lu Hk).
  unfold from_gate. rewrite bind_run.
  rewrite (agent_gate_blocks now owner_id w ag Hag Hb). reflexivity.
Qed.

Lemma unified_links_blocked_html now local_username app_key w owner_id lu ag :
  known_user w local_username app_key owner_id lu ->
  Db.select_one (agent_in (ids_of owner_id)) (Db.agents (db w)) = Some ag ->
  agent_blocks now ag ->
  exists remote,
    eval (unified_links now true local_username app_key) w
    = Html local_username app_key (Some lu) remote.
Proof.
  intros Hk Hag Hb. unfold eval.
  rewrite (unified_links_known_user now true local_username app_key w
             owner_id lu Hk).
  unfold from_gate. rewrite bind_run.
  rewrite (agent_gate_blocks now owner_id w ag Hag Hb). cbn [fst snd andb negb].
  rewrite bind_run. rewrite andb_false_r.
  apply aggregate_html.
Qed.

Lemma unified_links_user_unlimited now want_html local_username app_key w
      owner_id lu :
  known_user w local_username app_key owner_id lu ->
  LocalUser.plan_limit_bytes lu = 0 ->
  exec (unified_links now want_html local_username app_key) w
  = exec (agent_gate now owner_id) w.
Proof.
  intros Hk Hlim. unfold exec.
  rewrite (unified_links_known_user now want_html local_username app_key w
             owner_id lu Hk).
  unfold from_gate. rewrite bind_run.
  destruct (fst (agent_gate now owner_id w) && negb want_html); [reflexivity|].
  rewrite bind_run, (user_gate_unlimited now owner_id local_username lu _ Hlim).
  cbn [fst snd andb]. apply aggregate_reads_only.
Qed.

Lemma extends_calls_ret {A} (x : A) : extends_calls (ret x).
Proof. intros w. exists []. simpl. now rewrite app_nil_r. Qed.

Lemma extends_calls_bind {A B} (c : M A) (k : A -> M B) :
  extends_calls c -> (forall x, extends_calls (k x)) ->
  extends_calls (bind c k).
Proof.
  intros Hc Hk w. rewrite bind_run.
  destruct (Hc w) as [n1 H1].
  destruct (Hk (fst (c w)) (snd (c w))) as [n2 H2].
  exists (n1 ++ n2). now rewrite H2, H1, app_assoc.
Qed.

Lemma extends_calls_keeps_calls {A} (c : M A) :
  (forall w, calls (snd (c w)) = calls w) -> extends_calls c.
Proof. intros H w. exists []. now rewrite H, app_nil_r. Qed.

Lemma extends_calls_for_each {A} (l : list A) (body : A -> M unit) :
  (forall x, extends_calls (body x)) -> extends_calls (for_each l body).
Proof.
  intros Hb. induction l as [|x l IH]; simpl.
  - apply extends_calls_ret.
  - apply extends_calls_bind; auto.
Qed.

Lemma extends_calls_disable_mapping l : extends_calls (disable_mapping P l).
Proof.
  unfold disable_mapping. apply extends_calls_bind.
  - intros w.
    destruct (app_disable_remote_attempt (Mapping.panel_type l)
                (Mapping.panel_url l) (Mapping.access_token l)
                (Mapping.remote_username l) w) as [es [Hc _]].
    now exists es.
  - intros. apply extends_calls_ret.
Qed.

(** The user-level block leaves the [agents] table alone and only adds to
    the log of remote calls. *)
Lemma user_gate_frame now owner_id local_username lu w :
  Db.agents (db (snd (user_gate P ADMIN_IDS now owner_id local_username lu w)))
  = Db.agents (db w)
  /\ exists extra,
       calls (snd (user_gate P ADMIN_IDS now owner_id local_username lu w))
       = calls w ++ extra.
Proof.
  unfold user_gate.
  destruct (_ && _); [|split; [reflexivity | exists []; simpl; now rewrite app_nil_r]].
  rewrite bind_run. cbn [snd ret].
  destruct (negb _); [|split; [reflexivity | exists []; simpl; now rewrite app_nil_r]].
  rewrite !bind_run.
  set (links := fst (bind (list_mapped_links ADMIN_IDS owner_id local_username)
                          _ w)) || idtac.
  match goal with
  | |- context [for_each ?ls (disable_mapping P) ?w0] =>
      pose proof (keeps_db_for_each ls (disable_mapping P)
                    keeps_db_disable_mapping w0) as Hdb;
      destruct (extends_calls_for_each ls (disable_mapping P)
                  extends_calls_disable_mapping w0) as [extra Hc];
      assert (Hw0 : w0 = w)
  end.
  { destruct (fst (list_mapped_links ADMIN_IDS owner_id local_username w));
      reflexivity. }
  rewrite Hw0 in *. split.
  - unfold App.mark_user_disabled, execute. cbn [snd db Db.agents Db.with_local_users].
    now rewrite Hdb.
  - exists extra. unfold App.mark_user_disabled, execute. cbn [snd calls].
    exact Hc.
Qed.

(** C4, as the code has it.  For a known user whose active agent is over
    quota or expired: the agent gate runs first, whatever the request; when
    the agent's push flag was 0 it issues one disable attempt per link of
    the agent, in order, and then sets the flag, whatever the attempts
    answered.  A plain-text request is answered right after the gate with an
    empty body.  A request that accepts [text/html] goes on to the user
    gate and is answered with the rendered page; the flag stays set and the
    gate's calls stay the first ones logged. *)
Theorem blocked_agent_gate_disables_once_and_answers_empty
        now local_username app_key w owner_id lu ag :
  known_user w local_username app_key owner_id lu ->
  Db.select_one (agent_in (ids_of owner_id)) (Db.agents (db w)) = Some ag ->
  agent_blocks now ag ->
  let gated := exec (agent_gate now owner_id) w in
  (* the plain-text answer *)
  unified_links now false local_username app_key w = (Plain [] None, gated)
  (* the first push *)
  /\ (Agent.disabled_pushed ag = 0 ->
      (exists chunks,
         calls gated = calls w ++ concat chunks
         /\ Forall2 link_attempt
              (eval (list_all_agent_links ADMIN_IDS owner_id) w) chunks)
      /\ Db.select_one (agent_in (ids_of owner_id)) (Db.agents (db gated))
         = Some (Agent.set_disabled_pushed 1 (Some now) ag))
  (* an already pushed agent *)
  /\ (Agent.disabled_pushed ag <> 0 -> gated = w)
  (* any request runs the gate first *)
  /\ (forall want_html,
        let final := exec (unified_links now want_html local_username app_key) w in
        Db.agents (db final) = Db.agents (db gated)
        /\ exists extra, calls final = calls gated ++ extra).
Proof.
  intros Hk Hag Hb gated.
  assert (Hgate := agent_gate_blocks now owner_id w ag Hag Hb).
  assert (Hgated : gated
                   = if truthy (Agent.disabled_pushed ag) then w
                     else exec (mark_agent_disabled ADMIN_IDS now owner_id)
                               (after_agent_attempts owner_id w))
    by (unfold gated, exec; now rewrite Hgate).
  split; [|split; [|split]].
  - now apply unified_links_blocked_plain with (lu := lu) (ag := ag).
  - intros Hp. rewrite Hgated. unfold truthy. rewrite Hp. cbn [Z.eqb negb].
    split.
    + unfold after_agent_attempts, exec. rewrite bind_run.
      unfold App.mark_agent_disabled, execute. cbn [snd calls].
      apply agent_attempts_per_link.
    + unfold exec, App.mark_agent_disabled, execute.
      cbn [snd db Db.agents Db.with_agents].
      rewrite after_agent_attempts_db.
      rewrite select_one_update_where by reflexivity.
      rewrite Hag. cbn [option_map].
      assert (Hin : Db.in_ids (ids_of owner_id) (Agent.telegram_user_id ag) = true).
      { unfold Db.select_one in Hag. apply find_some in Hag.
        destruct Hag as [_ Hag]. unfold agent_in in Hag.
        now apply andb_true_iff in Hag. }
      now rewrite Hin.
  - intros Hp. rewrite Hgated. unfold truthy.
    destruct (Z.eqb_spec (Agent.disabled_pushed ag) 0); [contradiction|].
    reflexivity.
  - intros want_html final. unfold final, exec.
    rewrite (unified_links_known_user now want_html local_username app_key w
               owner_id lu Hk).
    unfold from_gate. rewrite bind_run. fold (exec (agent_gate now owner_id) w).
    fold gated.
    destruct (fst (agent_gate now owner_id w) && negb want_html).
    + split; [reflexivity | exists []; simpl; now rewrite app_nil_r].
    + rewrite bind_run.
      destruct (user_gate_frame now owner_id local_username lu gated)
        as [Ha [extra Hc]].
      destruct (fst (user_gate P ADMIN_IDS now owner_id local_username lu gated)
                && negb want_html).
      * cbn [snd ret]. split; [exact Ha | now exists extra].
      * split; rewrite aggregate_reads_only; [exact Ha | now exists extra].
Qed.

End Gate.

(** ** Unlimited plans and inactive agents *)

Section PlanAndActivity.
Local Open Scope Z_scope.
Variable lower : str -> str.
Variable P : Panels.
Variable ADMIN_IDS : list Z.
Variable collect_links :
  World -> list App.Mapping.t -> str -> bool
  -> list str * list str * option UserObj.
Variable limit_reached_body : Z -> str -> Z -> Z -> str.

(** The over-quota test that [try_disable_if_user_exceeded],
    [try_disable_agent_if_exceeded] and both gates of [unified_links]
    write out: [limit > 0 and used >= limit]. *)
Definition over_quota (limit used : Z) : bool := (0 <? limit) && (limit <=? used).

Lemma over_quota_unlimited used : over_quota 0 used = false.
Proof. reflexivity. Qed.

(** C5.  With [plan_limit_bytes = 0] the over-quota test is false for every
    usage.  So: the user-level check of the polling loop does nothing for
    such a user; the user gate of a subscription request does nothing
    either (the request leaves the world as the agent gate left it); for
    such an agent the over-limit computation answers no, and the agent-level
    check of the loop and the agent gate of a request do nothing unless the
    agent has expired. *)
Theorem unlimited_plan_is_never_over_quota :
  (forall used, over_quota 0 used = false)
  /\ (forall now owner uname w lu,
        Db.select_one (UsageSync.user_is owner uname) (Db.local_users (db w))
        = Some lu ->
        LocalUser.plan_limit_bytes lu = 0 ->
        UsageSync.try_disable_if_user_exceeded P now owner uname w = (tt, w))
  /\ (forall now want_html local_username app_key w owner_id lu,
        known_user ADMIN_IDS w local_username app_key owner_id lu ->
        LocalUser.plan_limit_bytes lu = 0 ->
        App.user_gate P ADMIN_IDS now owner_id local_username lu w = (false, w)
        /\ exec (App.unified_links lower P ADMIN_IDS collect_links
                   limit_reached_body now want_html local_username app_key) w
           = exec (App.agent_gate P ADMIN_IDS now owner_id) w)
  /\ (forall owner w, UsageSync.agent_over_limit owner 0 w = (false, w))
  /\ (forall now owner w ag,
        Db.select_one (UsageSync.agent_is owner) (Db.agents (db w)) = Some ag ->
        Agent.plan_limit_bytes ag = 0 ->
        UsageSync.is_expired now (Agent.expire_at ag) = false ->
        UsageSync.try_disable_agent_if_exceeded P now owner w = (tt, w))
  /\ (forall now owner_id w ag,
        Db.select_one (App.agent_in (App.ids_of ADMIN_IDS owner_id))
                      (Db.agents (db w)) = Some ag ->
        Agent.plan_limit_bytes ag = 0 ->
        UsageSync.is_expired now (Agent.expire_at ag) = false ->
        App.agent_gate P ADMIN_IDS now owner_id w = (false, w)).
Proof.
  repeat split.
  - intros. now apply try_disable_user_unlimited with lu.
  - now apply user_gate_unlimited.
  - now apply unified_links_user_unlimited with lu.
  - intros. now apply try_disable_agent_unlimited with ag.
  - intros. now apply agent_gate_unlimited with ag.
Qed.

Lemma get_agent_active owner_id w ag :
  eval (App.get_agent ADMIN_IDS owner_id) w = Some ag -> Agent.active ag = 1.
Proof.
  unfold eval, App.get_agent, query, Db.select_one. simpl. intros H.
  apply find_some in H. destruct H as [_ H]. unfold App.agent_in in H.
  apply andb_true_iff in H. destruct H as [_ H]. now apply Z.eqb_eq.
Qed.

Lemma get_agent_skips_inactive owner_id w :
  (forall a, In a (Db.agents (db w)) ->
             Db.in_ids (App.ids_of ADMIN_IDS owner_id) (Agent.telegram_user_id a)
             = true ->
             Agent.active a = 0) ->
  Db.select_one (App.agent_in (App.ids_of ADMIN_IDS owner_id))
                (Db.agents (db w)) = None.
Proof.
  intros H. unfold Db.select_one.
  destruct (find _ _) as [a| ] eqn:E; [|reflexivity].
  apply find_some in E. destruct E as [Hin E]. unfold App.agent_in in E.
  apply andb_true_iff in E. destruct E as [E1 E2].
  rewrite (H a Hin E1) in E2. discriminate.
Qed.

(** C10.  An agent row with [active = 0]: both agent-level functions of the
    polling loop return at once, so they call no panel and write nothing,
    whatever the agent's quota, usage and expiry are.  On the read path
    [get_agent] returns only rows with [active = 1]; when the rows the
    request could use are all inactive the agent gate does not block, calls
    no panel and writes nothing. *)
Theorem inactive_agent_is_not_enforced :
  (forall now owner w ag,
     Db.select_one (UsageSync.agent_is owner) (Db.agents (db w)) = Some ag ->
     Agent.active ag = 0 ->
     UsageSync.try_disable_agent_if_exceeded P now owner w = (tt, w)
     /\ UsageSync.try_enable_agent_if_ok P now owner w = (tt, w))
  /\ (forall owner_id w ag,
        eval (App.get_agent ADMIN_IDS owner_id) w = Some ag ->
        Agent.active ag = 1)
  /\ (forall now owner_id w,
        (forall a, In a (Db.agents (db w)) ->
                   Db.in_ids (App.ids_of ADMIN_IDS owner_id)
                             (Agent.telegram_user_id a) = true ->
                   Agent.active a = 0) ->
        App.agent_gate P ADMIN_IDS now owner_id w = (false, w)).
Proof.
  repeat split.
  - now apply try_disable_agent_inactive with ag.
  - now apply try_enable_agent_inactive with ag.
  - apply get_agent_active.
  - intros. apply agent_gate_no_agent. now apply get_agent_skips_inactive.
Qed.

End PlanAndActivity.

(** ** bot.py: giving usage back to the agent *)

Section CreditRemoval.
Local Open Scope Z_scope.
Variable P : Panels.
Variable ADMIN_IDS : list Z.

Lemma credit_removal_total used owner d :
  total_used_of (Bot.credit_removal used (Some owner) d) owner
  = option_map (fun total => if 0 <? used then Bot.debit used total else total)
               (total_used_of d owner).
Proof.
  unfold Bot.credit_removal, total_used_of.
  destruct (0 <? used); [|now destruct (Db.select_one _ _)].
  simpl. unfold UsageSync.agent_is.
  rewrite select_one_update_where by reflexivity.
  destruct (Db.select_one _ _) as [a| ] eqn:E; [|reflexivity].
  simpl. apply find_some in E. destruct E as [_ E]. now rewrite E.
Qed.

Lemma debit_floor used total :
  0 <= used -> 0 <= total ->
  (if 0 <? used then Bot.debit used total else total) = Z.max (total - used) 0
  /\ 0 <= Z.max (total - used) 0.
Proof.
  intros Hu Ht. unfold Bot.debit.
  destruct (Z.ltb_spec 0 used); lia.
Qed.

Lemma keeps_db_reset_calls owner_id username :
  keeps_db (bind (Bot.list_user_links ADMIN_IDS owner_id username) (fun rows =>
    for_each rows (fun row =>
      let api := get_api (Panel.panel_type (snd row)) in
      for_each (Bot.remotes_of (Panel.panel_type (snd row))
                               (Link.remote_username (fst row)))
        (fun rn =>
           bind (api_reset_remote_user_usage P api (Panel.panel_url (snd row))
                   (Panel.access_token (snd row)) rn)
                (fun _ => ret tt))))).
Proof.
  apply keeps_db_bind; [apply keeps_db_query|]. intros rows.
  apply keeps_db_for_each. intros row. cbv zeta.
  apply keeps_db_for_each. intros rn.
  apply keeps_db_bind; [now intros w | intros; apply keeps_db_ret].
Qed.

Lemma reset_used_db owner_id username w :
  db (exec (Bot.reset_used P ADMIN_IDS owner_id username) w)
  = Bot.reset_used_tx ADMIN_IDS owner_id username (db w).
Proof.
  unfold exec, Bot.reset_used. rewrite bind_run.
  now rewrite keeps_db_reset_calls.
Qed.

(** C7.  [reset_used] and [delete_local_user] read the user's recorded
    [used_bytes] and the row's [owner_id] and end their transaction by
    taking that amount off [total_used_bytes] of the agent with that id,
    never going below zero.  With counters that are not negative, the
    agent's new total is [max(total - used, 0)], which is not negative;
    [reset_used] also leaves the user's [used_bytes] at 0. *)
Theorem credit_removal_floors_at_zero owner_id username w lu ag :
  Db.select_one (Bot.user_in (Bot.ids_of ADMIN_IDS owner_id) username)
                (Db.local_users (db w)) = Some lu ->
  Db.select_one (UsageSync.agent_is (LocalUser.owner_id lu))
                (Db.agents (db w)) = Some ag ->
  0 <= LocalUser.used_bytes lu ->
  0 <= Agent.total_used_bytes ag ->
  let floored := Z.max (Agent.total_used_bytes ag - LocalUser.used_bytes lu) 0 in
  total_used_of (db (exec (Bot.reset_used P ADMIN_IDS owner_id username) w))
                (LocalUser.owner_id lu) = Some floored
  /\ total_used_of
       (db (exec (Bot.delete_local_user ADMIN_IDS owner_id username) w))
       (LocalUser.owner_id lu) = Some floored
  /\ 0 <= floored
  /\ option_map LocalUser.used_bytes
       (Db.select_one (Bot.user_in (Bot.ids_of ADMIN_IDS owner_id) username)
          (Db.local_users
             (db (exec (Bot.reset_used P ADMIN_IDS owner_id username) w))))
     = Some 0.
Proof.
  intros Hlu Hag Hu Ht floored.
  destruct (debit_floor (LocalUser.used_bytes lu) (Agent.total_used_bytes ag)
              Hu Ht) as [Hd Hnn].
  assert (Htot : total_used_of (db w) (LocalUser.owner_id lu)
                 = Some (Agent.total_used_bytes ag))
    by (unfold total_used_of; now rewrite Hag).
  rewrite reset_used_db.
  unfold Bot.reset_used_tx, Bot.delete_local_user, exec, execute,
         Bot.delete_local_user_tx.
  rewrite Hlu. cbn [option_map snd db].
  rewrite !credit_removal_total.
  repeat split.
  - change (total_used_of (Db.with_local_users ?v ?d) ?o)
      with (total_used_of d o).
    rewrite Htot. cbn [option_map]. now rewrite Hd.
  - change (total_used_of (Db.with_app_users ?v ?d) ?o)
      with (total_used_of d o).
    change (total_used_of (Db.with_local_users ?v ?d) ?o)
      with (total_used_of d o).
    change (total_used_of (Db.with_links ?v ?d) ?o)
      with (total_used_of d o).
    rewrite Htot. cbn [option_map]. now rewrite Hd.
  - exact Hnn.
  - unfold Bot.credit_removal.
    destruct (0 <? LocalUser.used_bytes lu);
      cbn [Db.local_users Db.with_agents Db.with_local_users];
      rewrite select_one_update_where by reflexivity;
      rewrite Hlu; cbn [option_map];
      (assert (Hk : Bot.user_in (Bot.ids_of ADMIN_IDS owner_id) username lu = true)
         by (unfold Db.select_one in Hlu; now apply find_some in Hlu));
      now rewrite Hk.
Qed.

End CreditRemoval.


(** ** Regular expressions: what a match consumes *)

Section Matching.
Import Re.

(** A character every match of the pattern contains. *)
Fixpoint requires (c : cp) (r : re) : bool :=
  match r with
  | Lit c' => cp_eqb c' c
  | Seq a b => requires c a || requires c b
  | _ => false
  end.

(** Every match of the pattern has at least one character. *)
Fixpoint consumes (r : re) : bool :=
  match r with
  | Lit _ | Cls _ => true
  | Seq a b => consumes a || consumes b
  | _ => false
  end.

(** What a successful match splits the input into. *)
Definition splits (r : re) (s : str) (k : str -> option str) (x : str) : Prop :=
  exists pre rest,
    s = pre ++ rest
    /\ k rest = Some x
    /\ (forall c, requires c r = true -> In c pre)
    /\ (consumes r = true -> pre <> []).

Lemma star_loop_splits (a : re) k n s x :
  (forall s' k' x', rmatch a s' k' = Some x' -> splits a s' k' x') ->
  star_loop (rmatch a) k n s = Some x ->
  exists pre rest, s = pre ++ rest /\ k rest = Some x.
Proof.
  intros Ha. revert s. induction n as [|n IH]; intros s H; simpl in H.
  - exists [], s. auto.
  - destruct (rmatch a s _) as [y| ] eqn:E.
    + injection H as ->. apply Ha in E.
      destruct E as (pre & rest & -> & Hk & _).
      destruct (Nat.ltb _ _); [|discriminate].
      apply IH in Hk. destruct Hk as (pre' & rest' & -> & Hk).
      exists (pre ++ pre'), rest'. now rewrite app_assoc.
    + exists [], s. auto.
Qed.

Lemma rmatch_splits r : forall s k x, rmatch r s k = Some x -> splits r s k x.
Proof.
  induction r as [|c|p|a IHa b IHb|a IHa|a IHa]; intros s k x H; simpl in H.
  - exists [], s. repeat split; try discriminate; assumption.
  - destruct s as [|y t]; [discriminate|].
    destruct (cp_eqb y c) eqn:E; [|discriminate].
    exists [y], t. repeat split; [assumption| |discriminate].
    intros c' Hc'. simpl in Hc'. unfold cp_eqb in *.
    apply N.eqb_eq in E, Hc'. subst. now left.
  - destruct s as [|y t]; [discriminate|].
    destruct (p y); [|discriminate].
    exists [y], t. repeat split; [assumption|discriminate|discriminate].
  - apply IHa in H. destruct H as (pre & rest & -> & Hk & Hreq & Hcon).
    apply IHb in Hk. destruct Hk as (pre' & rest' & -> & Hk & Hreq' & Hcon').
    exists (pre ++ pre'), rest'. rewrite app_assoc. repeat split; [assumption| |].
    + intros c Hc. simpl in Hc. apply orb_true_iff in Hc. apply in_or_app.
      destruct Hc; [left; auto | right; auto].
    + intros Hc. simpl in Hc. apply orb_true_iff in Hc.
      destruct Hc as [Hc|Hc].
      * specialize (Hcon Hc). destruct pre; [contradiction | discriminate].
      * specialize (Hcon' Hc). destruct pre'; [contradiction|].
        destruct pre; discriminate.
  - destruct (rmatch a s k) as [y| ] eqn:E.
    + injection H as ->. apply IHa in E.
      destruct E as (pre & rest & -> & Hk & _).
      exists pre, rest. repeat split; try discriminate; assumption.
    + exists [], s. repeat split; try discriminate; assumption.
  - apply (star_loop_splits a k _ s x IHa) in H.
    destruct H as (pre & rest & -> & Hk).
    exists pre, rest. repeat split; try discriminate; assumption.
Qed.

Lemma match_here_splits r adv s rest :
  match_here r adv s = Some rest ->
  exists pre, s = pre ++ rest
              /\ (forall c, requires c r = true -> In c pre)
              /\ (consumes r = true -> pre <> []).
Proof.
  unfold match_here. intros H. apply rmatch_splits in H.
  destruct H as (pre & rest' & -> & Hk & Hreq & Hcon).
  destruct (_ && _); [discriminate|]. injection Hk as ->.
  exists pre. auto.
Qed.

Lemma match_here_shorter r adv s rest :
  consumes r = true -> match_here r adv s = Some rest ->
  (length rest < length s)%nat.
Proof.
  intros Hc H. apply match_here_splits in H.
  destruct H as (pre & -> & _ & Hne). specialize (Hne Hc).
  rewrite length_app. destruct pre; [contradiction|]. simpl. lia.
Qed.


(** One turn of the substitution loop for a pattern that cannot match the
    empty string. *)
Lemma sub_loop_step r repl fuel s :
  consumes r = true ->
  sub_loop r repl (S fuel) false s
  = match match_here r false s with
    | Some rest => repl ++ sub_loop r repl fuel false rest
    | None => match s with
              | [] => []
              | c :: t => c :: sub_loop r repl fuel false t
              end
    end.
Proof.
  intros Hc. simpl. destruct (match_here r false s) as [rest| ] eqn:E;
    [|reflexivity].
  pose proof (match_here_shorter r false s rest Hc E) as Hlt.
  destruct (Nat.eqb_spec (length rest) (length s)); [lia | reflexivity].
Qed.



(** The characters of the result come from the input or the replacement. *)
Lemma sub_loop_chars r repl fuel s c :
  consumes r = true ->
  In c (sub_loop r repl fuel false s) -> In c s \/ In c repl.
Proof.
  intros Hc. revert s. induction fuel as [|fuel IH]; intros s H;
    [now left|].
  rewrite sub_loop_step in H by assumption.
  destruct (match_here r false s) as [rest| ] eqn:E.
  - apply in_app_or in H. destruct H as [H|H]; [now right|].
    apply IH in H. destruct H as [H|H]; [|now right].
    apply match_here_splits in E. destruct E as (pre & -> & _).
    left. apply in_or_app. now right.
  - destruct s as [|x t]; [contradiction|].
    destruct H as [->|H]; [left; now left|].
    apply IH in H. destruct H as [H|H]; [left; now right | now right].
Qed.

End Matching.

(** ** Stripping and collapsing white space *)

Section WhiteSpace.
Import Re App.


Definition starts_with_space (s : str) : bool :=
  match s with
  | c :: _ => isspace c
  | [] => false
  end.


(** White space occurs only as single U+0020 characters. *)
Fixpoint collapsed (s : str) : bool :=
  match s with
  | [] => true
  | c :: t =>
      (if isspace c then cp_eqb c SPACE && negb (starts_with_space t) else true)
      && collapsed t
  end.

Lemma lstrip_by_suffix p s : exists pre, s = pre ++ lstrip_by p s.
Proof.
  induction s as [|c t [pre IH]]; [now exists []|]. simpl.
  destruct (p c); [|now exists []].
  exists (c :: pre). simpl. now f_equal.
Qed.

Lemma rstrip_by_prefix p s : exists suf, s = rstrip_by p s ++ suf.
Proof.
  unfold rstrip_by. destruct (lstrip_by_suffix p (rev s)) as [pre H].
  exists (rev pre). rewrite <- rev_app_distr, <- H. symmetry. apply rev_involutive.
Qed.


Lemma lstrip_no_leading_space s :
  starts_with_space (lstrip_by isspace s) = false.
Proof.
  induction s as [|c t IH]; [reflexivity|]. simpl.
  destruct (isspace c) eqn:E; [exact IH|]. simpl. exact E.
Qed.



Lemma starts_with_space_prefix s suf :
  starts_with_space (s ++ suf) = false -> starts_with_space s = false.
Proof. destruct s; [reflexivity | exact (fun H => H)]. Qed.

Lemma collapsed_suffix pre s : collapsed (pre ++ s) = true -> collapsed s = true.
Proof.
  induction pre as [|c pre IH]; [exact (fun H => H)|]. simpl.
  intros H. apply andb_true_iff in H. now apply IH.
Qed.

Lemma collapsed_prefix s suf : collapsed (s ++ suf) = true -> collapsed s = true.
Proof.
  induction s as [|c t IH]; [reflexivity|]. simpl.
  intros H. apply andb_true_iff in H. destruct H as [H1 H2].
  apply andb_true_iff. split; [|now apply IH].
  destruct (isspace c); [|reflexivity].
  apply andb_true_iff in H1. destruct H1 as [H1 H3].
  apply andb_true_iff. split; [assumption|].
  apply negb_true_iff. apply negb_true_iff in H3.
  now apply starts_with_space_prefix with suf.
Qed.

Lemma strip_parts s : exists pre suf, s = pre ++ strip s ++ suf.
Proof.
  unfold strip, strip_by.
  destruct (lstrip_by_suffix isspace s) as [pre H].
  destruct (rstrip_by_prefix isspace (lstrip_by isspace s)) as [suf H'].
  exists pre, suf. now rewrite <- H', <- H.
Qed.

Lemma strip_no_leading_space s : starts_with_space (strip s) = false.
Proof.
  unfold strip, strip_by.
  destruct (rstrip_by_prefix isspace (lstrip_by isspace s)) as [suf H].
  apply starts_with_space_prefix with suf. rewrite <- H.
  apply lstrip_no_leading_space.
Qed.

Lemma take_prefix n (s : str) : s = take n s ++ skipn n s.
Proof. symmetry. apply firstn_skipn. Qed.

(** [\s+] at the start of the input takes the whole run of white space. *)
Lemma spaces_star n t (k : str -> option str) :
  (forall u, k u = Some u) -> (length t <= n)%nat ->
  star_loop (rmatch ws) k n t = Some (lstrip_by isspace t).
Proof.
  intros Hk. revert t. induction n as [|n IH]; intros t Hlen.
  - destruct t; [apply Hk | simpl in Hlen; lia].
  - simpl. destruct t as [|d t']; [apply Hk|]. simpl.
    destruct (isspace d) eqn:E; [|apply Hk].
    assert (Hlt : Nat.ltb (length t') (S (length t')) = true)
      by (apply Nat.ltb_lt; lia).
    rewrite Hlt. rewrite IH by (simpl in Hlen; lia). reflexivity.
Qed.

Lemma spaces_match c t :
  match_here spaces_re false (c :: t)
  = if isspace c then Some (lstrip_by isspace t) else None.
Proof.
  unfold match_here, spaces_re, Plus. simpl.
  destruct (isspace c); [|reflexivity].
  now apply spaces_star.
Qed.

Lemma spaces_match_nil : match_here spaces_re false [] = None.
Proof. reflexivity. Qed.

Lemma lstrip_length p s : (length (lstrip_by p s) <= length s)%nat.
Proof.
  destruct (lstrip_by_suffix p s) as [pre H]. rewrite H at 2.
  rewrite length_app. lia.
Qed.

Lemma sub_spaces_collapsed fuel : forall s,
  (length s < fuel)%nat ->
  collapsed (sub_loop spaces_re [SPACE] fuel false s) = true
  /\ (starts_with_space s = false ->
      starts_with_space (sub_loop spaces_re [SPACE] fuel false s) = false).
Proof.
  induction fuel as [|fuel IH]; intros s Hlen; [lia|].
  rewrite sub_loop_step by reflexivity.
  destruct s as [|c t]; [now rewrite spaces_match_nil|].
  rewrite spaces_match. simpl in Hlen.
  destruct (isspace c) eqn:E.
  - pose proof (lstrip_length isspace t) as Hl.
    destruct (IH (lstrip_by isspace t) ltac:(lia)) as [H1 H2].
    split; [|simpl; rewrite E; discriminate].
    simpl. rewrite H1, (H2 (lstrip_no_leading_space t)). reflexivity.
  - destruct (IH t ltac:(lia)) as [H1 H2].
    split; [simpl; now rewrite E, H1 | intros _; simpl; exact E].
Qed.


(** The owner-tag pattern matches wherever the mark stands. *)
Lemma star_loop_total step (k : str -> option str) n s :
  k s <> None -> star_loop step k n s <> None.
Proof.
  intros Hk. destruct n; simpl; [assumption|].
  destruct (step s _); [discriminate | assumption].
Qed.

Lemma owner_matches_at_mark t :
  match_here owner_re false (OWNER_MARK :: t) <> None.
Proof.
  unfold match_here, owner_re. cbn [rmatch].
  apply star_loop_total. cbn [rmatch]. unfold cp_eqb. rewrite N.eqb_refl.
  apply star_loop_total. discriminate.
Qed.

Lemma sub_owner_no_mark fuel : forall s,
  (length s < fuel)%nat -> ~ In OWNER_MARK (sub_loop owner_re [] fuel false s).
Proof.
  induction fuel as [|fuel IH]; intros s Hlen; [lia|].
  rewrite sub_loop_step by reflexivity.
  destruct (match_here owner_re false s) as [rest| ] eqn:E.
  - apply match_here_shorter in E; [|reflexivity]. simpl. apply IH. lia.
  - destruct s as [|c t]; [now intros []|].
    simpl in Hlen. intros [->|H].
    + now apply (owner_matches_at_mark t).
    + revert H. apply IH. lia.
Qed.

End WhiteSpace.

(** ** app.py: canonical names *)

Section CanonicalNames.
Import Re App.
Local Open Scope N_scope.



(** What every canonical name looks like. *)
Lemma canonical_form x :
  let y := canonicalize_name x in
  collapsed y = true
  /\ starts_with_space y = false
  /\ ~ In OWNER_MARK y
  /\ (length y <= 255)%nat.
Proof.
  intros y. unfold y, canonicalize_name.
  set (z0 := strip (Urllib.unquote x)).
  set (z1 := sub traffic_re [] z0).
  set (z2 := sub owner_re [] z1).
  set (z3 := sub paren_re [] z2).
  set (z4 := sub spaces_re [SPACE] z3).
  destruct (strip_parts z4) as (pre & suf & Hz4).
  assert (Hcol : collapsed z4 = true)
    by (apply sub_spaces_collapsed; lia).
  assert (Hmark : ~ In OWNER_MARK z4).
  { intros H. apply sub_loop_chars in H; [|reflexivity].
    destruct H as [H|[H|[]]]; [|discriminate].
    apply sub_loop_chars in H; [|reflexivity].
    destruct H as [H|[]].
    revert H. apply sub_owner_no_mark. lia. }
  repeat split.
  - rewrite Hz4 in Hcol. apply collapsed_suffix in Hcol.
    apply collapsed_prefix in Hcol.
    rewrite (take_prefix 255 (strip z4)) in Hcol.
    now apply collapsed_prefix in Hcol.
  - pose proof (strip_no_leading_space z4) as H.
    rewrite (take_prefix 255 (strip z4)) in H.
    now apply starts_with_space_prefix in H.
  - intros H. apply Hmark. rewrite Hz4.
    apply in_or_app. right. apply in_or_app. left.
    rewrite (take_prefix 255 (strip z4)). apply in_or_app. left. exact H.
  - unfold take. apply firstn_le_length.
Qed.





End CanonicalNames.

(** ** app.py: the final merge filter *)

Section MergeFilter.
Import App.
Variable lower : str -> str.

(** Written after the specification: every entry at the place where it is
    first seen, later copies dropped. *)
Fixpoint first_seen (l : list str) : list str :=
  match l with
  | [] => []
  | x :: rest => x :: filter (fun y => negb (str_eqb y x)) (first_seen rest)
  end.

Definition unseen (seen : list str) (y : str) : bool :=
  negb (existsb (str_eqb y) seen).

Lemma filter_twice {A} (f g : A -> bool) (l : list A) :
  filter f (filter g l) = filter (fun x => g x && f x) l.
Proof.
  induction l as [|x l IH]; simpl; [reflexivity|].
  destruct (g x); simpl; [|exact IH].
  destruct (f x); [now f_equal | exact IH].
Qed.

Lemma filter_dedupe_loop_spec links : forall out seen,
  filter_dedupe_loop lower links out seen
  = out ++ filter (unseen seen)
             (first_seen (filter (allowed lower) (map unwrap links))).
Proof.
  induction links as [|s rest IH]; intros out seen; simpl.
  - now rewrite app_nil_r.
  - destruct (allowed lower (unwrap s)) eqn:Ea; simpl; [|apply IH].
    destruct (existsb (str_eqb (unwrap s)) seen) eqn:Es; simpl.
    + rewrite IH. f_equal. unfold unseen at 2. rewrite Es. simpl.
      rewrite filter_twice. apply filter_ext. intros y.
      destruct (str_eqb y (unwrap s)) eqn:E; simpl; [|reflexivity].
      apply str_eqb_eq in E. subst y. unfold unseen. now rewrite Es.
    + rewrite IH, <- app_assoc. f_equal. simpl.
      unfold unseen at 2. rewrite Es. simpl. f_equal.
      rewrite filter_twice. apply filter_ext. intros y.
      unfold unseen. simpl. now rewrite negb_orb.
Qed.

Lemma first_seen_in l x : In x (first_seen l) <-> In x l.
Proof.
  induction l as [|y l IH]; simpl; [tauto|].
  rewrite filter_In, IH. split.
  - intros [H|[H _]]; auto.
  - intros [H|H]; [now left|].
    destruct (str_eqb x y) eqn:E.
    + left. symmetry. now apply str_eqb_eq.
    + right. auto.
Qed.

Lemma first_seen_nodup l : NoDup (first_seen l).
Proof.
  induction l as [|y l IH]; simpl; constructor.
  - rewrite filter_In. intros [_ H].
    assert (E : str_eqb y y = true) by now apply str_eqb_eq.
    now rewrite E in H.
  - now apply NoDup_filter.
Qed.

Lemma filter_dedupe_first_seen links :
  filter_dedupe lower links
  = first_seen (filter (allowed lower) (map unwrap links)).
Proof.
  unfold filter_dedupe. rewrite filter_dedupe_loop_spec. simpl.
  apply forallb_filter_id. apply forallb_forall. reflexivity.
Qed.

(** C9.  [filter_dedupe] returns the entries, stripped of surrounding white
    space and quotes, whose lower-cased form starts with one of the four
    schemes, each at the place where it is first seen: every entry it
    returns passes the scheme test, none is returned twice, an entry is
    returned exactly when it passes the test and is the stripped form of
    an input entry, and for distinct links [A], [B], [C] that are stripped
    and pass the test, the input [[A; B; A; C]] gives [[A; B; C]]. *)
Theorem filter_dedupe_keeps_allowed_first_seen :
  (forall links,
     filter_dedupe lower links
     = first_seen (filter (allowed lower) (map unwrap links)))
  /\ (forall links x,
        In x (filter_dedupe lower links) ->
        startswith_any ALLOWED_SCHEMES (lower x) = true)
  /\ (forall links, NoDup (filter_dedupe lower links))
  /\ (forall links x,
        In x (filter_dedupe lower links)
        <-> In x (map unwrap links) /\ allowed lower x = true)
  /\ (forall A B C,
        unwrap A = A -> unwrap B = B -> unwrap C = C ->
        allowed lower A = true -> allowed lower B = true ->
        allowed lower C = true ->
        A <> B -> A <> C -> B <> C ->
        filter_dedupe lower [A; B; A; C] = [A; B; C]).
Proof.
  split; [exact filter_dedupe_first_seen|].
  split; [|split; [|split]].
  - intros links x. rewrite filter_dedupe_first_seen, first_seen_in, filter_In.
    now intros [_ H].
  - intros links. rewrite filter_dedupe_first_seen. apply first_seen_nodup.
  - intros links x. rewrite filter_dedupe_first_seen, first_seen_in.
    apply filter_In.
  - intros A B C HA HB HC Ha Hb Hc Hab Hac Hbc.
    assert (Nab : str_eqb A B = false)
      by (destruct (str_eqb A B) eqn:E; [apply str_eqb_eq in E; contradiction | reflexivity]).
    assert (Nba : str_eqb B A = false)
      by (destruct (str_eqb B A) eqn:E; [apply str_eqb_eq in E; congruence | reflexivity]).
    assert (Nac : str_eqb A C = false)
      by (destruct (str_eqb A C) eqn:E; [apply str_eqb_eq in E; contradiction | reflexivity]).
    assert (Nca : str_eqb C A = false)
      by (destruct (str_eqb C A) eqn:E; [apply str_eqb_eq in E; congruence | reflexivity]).
    assert (Nbc : str_eqb B C = false)
      by (destruct (str_eqb B C) eqn:E; [apply str_eqb_eq in E; contradiction | reflexivity]).
    assert (Ncb : str_eqb C B = false)
      by (destruct (str_eqb C B) eqn:E; [apply str_eqb_eq in E; congruence | reflexivity]).
    assert (Raa : str_eqb A A = true) by now apply str_eqb_eq.
    unfold filter_dedupe. simpl.
    rewrite HA, HB, HC, Ha, Hb, Hc. simpl.
    rewrite ?Nab, ?Nba, ?Raa, ?Nac, ?Nca, ?Nbc, ?Ncb, ?orb_true_r, ?orb_false_r.
    simpl. rewrite ?Nab, ?Nba, ?Raa, ?Nac, ?Nca, ?Nbc, ?Ncb, ?orb_true_r, ?orb_false_r.
    reflexivity.
Qed.

End MergeFilter.


(** ** Worked scenarios *)

Module Scenario.
Local Open Scope Z_scope.

(** ASCII lower-casing, which is what [str.lower] does on ASCII text. *)
Definition ascii_lower (s : str) : str :=
  map (fun c => if in_range 65%N 90%N c then (c + 32)%N else c) s.

Definition is_fetch (e : Event) : bool :=
  match e with EvGetUser _ _ _ _ _ => true | _ => false end.

(** Panels that answer the n-th [get_user] with the n-th scripted value,
    except for the account [gone], and that refuse every change. *)
Definition scripted (reports : list Z) : Panels :=
  {| get_user := fun history _ _ _ name =>
       if str_eqb name (lit "gone") then (None, Some (lit "404 not found"))
       else (Some {| used_traffic :=
                       UtInt (nth (length (filter is_fetch history)) reports 0) |},
             None);
     disable_remote_user := fun _ _ _ _ _ => (false, Some (lit "503 busy"));
     enable_remote_user := fun _ _ _ _ _ => (false, Some (lit "503 busy"));
     reset_remote_user_usage := fun _ _ _ _ _ => (false, Some (lit "503 busy"));
     http := fun _ _ => HttpError (lit "timed out") |}.

Definition alice : str := lit "alice".
Definition key : str := lit "k3y".

Definition panel1 : Panel.t :=
  Panel.mk 1 10 (lit "https://p1.example") (lit "token1") (lit "marzneshin").

Definition panel2 : Panel.t :=
  Panel.mk 2 10 (lit "https://p2.example") (lit "cookie2") (lit "sanaei").

Definition link1 (last : Z) : Link.t := Link.mk 1 10 alice 1 alice last.

Definition link0 (remote : str) (last : Z) : Link.t :=
  Link.mk 0 10 alice 2 remote last.

Definition user (limit used pushed : Z) : LocalUser.t :=
  LocalUser.mk 10 alice limit used None pushed None.

Definition agent (limit : Z) (expire_at : option Z) (active total pushed : Z)
  : Agent.t :=
  Agent.mk 10 limit expire_at active total pushed None.

Definition world (u : LocalUser.t) (a : Agent.t) (ls : list Link.t) : World :=
  mkWorld (Db.mk [u] [a] [panel1; panel2] ls [] [AppUser.mk 10 alice key]) [].

(** Limit 1000, 800 used, baseline 500: a report of 800 adds 300. *)
Definition w_near_limit : World :=
  world (user 1000 800 0) (agent 0 None 1 800 0) [link1 500].

(** The scenario of the specification: the poll makes [used_bytes] 1100,
    the flag goes from 0 to 1 and one disable call is made for the one
    linked panel; the next turn makes no further disable call although the
    first one was refused. *)
Example poll_crosses_limit :
  let w1 := exec (UsageSync.cycle (scripted [800; 800]) 100) w_near_limit in
  let w2 := exec (UsageSync.cycle (scripted [800; 800]) 160) w1 in
  Db.local_users (db w1)
  = [LocalUser.mk 10 alice 1000 1100 None 1 (Some 100)]
  /\ map Agent.total_used_bytes (Db.agents (db w1)) = [1100]
  /\ map Link.last_used_traffic (Db.local_user_panel_links (db w1)) = [800]
  /\ filter (fun e => negb (is_fetch e)) (calls w1)
     = [EvDisable Marzneshin (lit "https://p1.example") (lit "token1") alice
          (false, Some (lit "503 busy"))]
  /\ filter (fun e => negb (is_fetch e)) (calls w2)
     = filter (fun e => negb (is_fetch e)) (calls w1)
  /\ Db.local_users (db w2) = Db.local_users (db w1).
Proof. vm_compute. repeat split. Qed.

(** An agent without a limit whose expiry has passed is pushed on expiry
    alone, and its users with it. *)
Example unlimited_agent_expires :
  let w := world (user 0 5 0) (agent 0 (Some 50) 1 5 0) [link1 5] in
  let w1 := exec (UsageSync.cycle (scripted [5]) 100) w in
  map Agent.disabled_pushed (Db.agents (db w1)) = [1]
  /\ map LocalUser.disabled_pushed (Db.local_users (db w1)) = [1].
Proof. vm_compute. repeat split. Qed.

(** *** Panels that refuse: the push is attempted once *)

Definition w_over_limit : World :=
  world (user 1000 1100 0) (agent 0 None 1 1100 0) [link1 800].

Lemma pushed_user_witness :
  let w' := exec (UsageSync.try_disable_if_user_exceeded (scripted []) 100 10
                    alice) w_over_limit in
  calls w' = calls (after_disable_attempts (scripted []) 10 alice w_over_limit)
  /\ Db.select_one (UsageSync.user_is 10 alice) (Db.local_users (db w'))
     = Some (LocalUser.set_disabled_pushed 1 (Some 100) (user 1000 1100 0))
  /\ forall now',
       UsageSync.try_disable_if_user_exceeded (scripted []) now' 10 alice w'
       = (tt, w').
Proof.
  apply (proj2 (pushed_user_is_not_disabled_again (scripted []) 100 10 alice
                  w_over_limit (user 1000 1100 0) eq_refl)).
  - vm_compute. reflexivity.
  - vm_compute. discriminate.
  - reflexivity.
Defined.

(** *** A report below the baseline *)

Definition w_reset : World :=
  world (user 0 800 0) (agent 0 None 1 800 0) [link1 900].

Lemma counter_regression_witness :
  let w' := exec (UsageSync.sync_row (scripted [500]) 100 (link1 900, panel1))
                 w_reset in
  baseline_of (db w') 1 = Some 500
  /\ Db.local_user_panel_links (db w')
     = Db.update_where (fun l => Link.id l =? 1)
         (Link.set_last_used_traffic 500)
         (Db.local_user_panel_links (db w_reset))
  /\ Db.local_users (db w') = Db.local_users (db w_reset)
  /\ Db.agents (db w') = Db.agents (db w_reset)
  /\ (forall owner uname,
        used_bytes_of (db w') owner uname
        = used_bytes_of (db w_reset) owner uname)
  /\ (forall owner,
        total_used_of (db w') owner = total_used_of (db w_reset) owner).
Proof.
  apply (counter_regression_rebases_baseline (scripted [500]) 100
           (link1 900, panel1) w_reset 500).
  - left. reflexivity.
  - reflexivity.
  - vm_compute. reflexivity.
Defined.

(** *** Three polls of one link, reported 800, 800 and 1100 *)

Definition three_reports : Panels := scripted [800; 800; 1100].

Definition w_poll0 : World :=
  world (user 0 800 0) (agent 0 None 1 800 0) [link1 500].



(** The same three reports through [loop]: 800 + 300 + 0 + 300. *)
Example loop_three_turns :
  let w3 := exec (UsageSync.loop three_reports [100; 160; 220]) w_poll0 in
  baseline_of (db w3) 1 = Some 1100
  /\ used_bytes_of (db w3) 10 alice = Some 1400
  /\ total_used_of (db w3) 10 = Some 1400.
Proof. vm_compute. repeat split. Qed.

(** *** A link with two sub-identities, one of them gone *)

Definition w_multi : World :=
  world (user 0 800 0) (agent 0 None 1 800 0)
        [link0 (lit "a, gone") 300; link1 500].


(** The skipped link is reported [None]; the other link of the same turn
    is still credited. *)
Example multi_identity_skipped_others_proceed :
  report (scripted [40]) (link0 (lit "a, gone") 300, panel2) w_multi = None
  /\ (let w1 := exec (UsageSync.cycle (scripted [40; 0; 700]) 100) w_multi in
      map Link.last_used_traffic (Db.local_user_panel_links (db w1)) = [300; 700]
      /\ map LocalUser.used_bytes (Db.local_users (db w1)) = [1000]).
Proof. vm_compute. repeat split. Qed.

(** *** An agent over its quota, read by a page and by a client *)

Definition no_links (w : World) (mapped : list App.Mapping.t)
           (local_username : str) (want_html : bool)
  : list str * list str * option UserObj := ([], [], None).

Definition placeholder (owner_id : Z) (local_username : str) (limit used : Z)
  : str := lit "vless://limitreached@info.info:80#limit".

Definition w_agent_over : World :=
  world (user 0 6000 0) (agent 5000 None 1 6000 0) [link1 6000].

Lemma html_request_gets_a_page :
  eval (App.unified_links ascii_lower (scripted []) [] no_links placeholder
          100 true alice key) w_agent_over
  = App.Html alice key (Some (user 0 6000 0)) None
  /\ body_empty (eval (App.unified_links ascii_lower (scripted []) []
                         no_links placeholder 100 true alice key)
                      w_agent_over) = false.
Proof. vm_compute. split; reflexivity. Qed.

Lemma blocked_agent_witness :
  let gated := exec (App.agent_gate (scripted []) [] 100 10) w_agent_over in
  App.unified_links ascii_lower (scripted []) [] no_links placeholder
    100 false alice key w_agent_over = (App.Plain [] None, gated)
  /\ (Agent.disabled_pushed (agent 5000 None 1 6000 0) = 0 ->
      (exists chunks,
         calls gated = calls w_agent_over ++ concat chunks
         /\ Forall2 link_attempt
              (eval (App.list_all_agent_links [] 10) w_agent_over) chunks)
      /\ Db.select_one (App.agent_in (App.ids_of [] 10)) (Db.agents (db gated))
         = Some (Agent.set_disabled_pushed 1 (Some 100)
                   (agent 5000 None 1 6000 0)))
  /\ (Agent.disabled_pushed (agent 5000 None 1 6000 0) <> 0 ->
      gated = w_agent_over)
  /\ (forall want_html,
        let final := exec (App.unified_links ascii_lower (scripted []) []
                             no_links placeholder 100 want_html alice key)
                          w_agent_over in
        Db.agents (db final) = Db.agents (db gated)
        /\ exists extra, calls final = calls gated ++ extra).
Proof.
  apply (blocked_agent_gate_disables_once_and_answers_empty ascii_lower
           (scripted []) [] no_links placeholder 100 alice key w_agent_over
           10 (user 0 6000 0) (agent 5000 None 1 6000 0)).
  - repeat split. vm_compute. discriminate.
  - reflexivity.
  - left. vm_compute. split; [reflexivity | discriminate].
Defined.

(** *** Giving back more than the agent has on record *)

Definition w_drifted : World :=
  world (user 0 800 0) (agent 0 None 1 500 0) [link1 800].

Lemma credit_removal_witness :
  let floored := Z.max (500 - 800) 0 in
  total_used_of (db (exec (Bot.reset_used (scripted []) [] 10 alice) w_drifted))
                10 = Some floored
  /\ total_used_of (db (exec (Bot.delete_local_user [] 10 alice) w_drifted)) 10
     = Some floored
  /\ 0 <= floored
  /\ option_map LocalUser.used_bytes
       (Db.select_one (Bot.user_in (Bot.ids_of [] 10) alice)
          (Db.local_users
             (db (exec (Bot.reset_used (scripted []) [] 10 alice) w_drifted))))
     = Some 0.
Proof.
  apply (credit_removal_floors_at_zero (scripted []) [] 10 alice w_drifted
           (user 0 800 0) (agent 0 None 1 500 0)).
  - reflexivity.
  - reflexivity.
  - vm_compute. discriminate.
  - vm_compute. discriminate.
Defined.

(** *** No limit, any usage *)

Definition w_unlimited : World :=
  world (user 0 987654321987654321 0) (agent 0 None 1 987654321987654321 0)
        [link1 0].

Lemma unlimited_plan_witness :
  UsageSync.try_disable_if_user_exceeded (scripted []) 100 10 alice w_unlimited
  = (tt, w_unlimited)
  /\ UsageSync.try_disable_agent_if_exceeded (scripted []) 100 10 w_unlimited
     = (tt, w_unlimited)
  /\ App.agent_gate (scripted []) [] 100 10 w_unlimited = (false, w_unlimited).
Proof.
  pose proof (unlimited_plan_is_never_over_quota ascii_lower (scripted []) []
                no_links placeholder) as (_ & Huser & _ & _ & Hagent & Hgate).
  split; [|split].
  - apply (Huser 100 10 alice w_unlimited
             (user 0 987654321987654321 0)); reflexivity.
  - apply (Hagent 100 10 w_unlimited
             (agent 0 None 1 987654321987654321 0)); reflexivity.
  - apply (Hgate 100 10 w_unlimited
             (agent 0 None 1 987654321987654321 0)); reflexivity.
Defined.

(** *** An inactive agent, over quota and expired *)

Definition w_inactive : World :=
  world (user 0 6000 0) (agent 5000 (Some 50) 0 6000 0) [link1 6000].

Lemma inactive_agent_witness :
  (UsageSync.try_disable_agent_if_exceeded (scripted []) 100 10 w_inactive
   = (tt, w_inactive)
   /\ UsageSync.try_enable_agent_if_ok (scripted []) 100 10 w_inactive
      = (tt, w_inactive))
  /\ App.agent_gate (scripted []) [] 100 10 w_inactive = (false, w_inactive).
Proof.
  pose proof (inactive_agent_is_not_enforced (scripted []) [])
    as (Hloop & _ & Hgate).
  split.
  - apply (Hloop 100 10 w_inactive (agent 5000 (Some 50) 0 6000 0));
      reflexivity.
  - apply Hgate. intros a [<-|[]] _. reflexivity.
Defined.

(** *** Links of two panels merged *)

Lemma merge_witness :
  App.filter_dedupe ascii_lower
    [lit "vless://a@h:1#x"; lit "ss://b"; lit "vless://a@h:1#x";
     lit "trojan://c"]
  = [lit "vless://a@h:1#x"; lit "ss://b"; lit "trojan://c"].
Proof.
  apply (proj2 (proj2 (proj2 (proj2
           (filter_dedupe_keeps_allowed_first_seen ascii_lower)))));
    try reflexivity; vm_compute; discriminate.
Defined.

(** Entries are compared after stripping; other schemes are dropped. *)
Example merge_strips_and_drops :
  App.filter_dedupe ascii_lower
    [lit "  VLESS://a "; lit "http://x"; lit "'ss://b'"; lit "VLESS://a"]
  = [lit "VLESS://a"; lit "ss://b"].
Proof. vm_compute. reflexivity. Qed.

End Scenario.

(* ===================================================================== *)
(** * Further properties of the modelled code *)
(* ===================================================================== *)

(** ** usage_sync.py: the rows of a polling turn *)

Section PollingOrder.
Import UsageSync.
Local Open Scope Z_scope.

(** The order of [ORDER BY lup.id ASC]. *)
Definition by_link_id (a b : Db.joined) : Prop :=
  Link.id (fst a) <= Link.id (fst b).

Lemma insert_by_id_sorted r rows :
  StronglySorted by_link_id rows ->
  StronglySorted by_link_id (insert_by_id r rows).
Proof.
  induction rows as [|x t IH]; intros Hs; simpl.
  - constructor; constructor.
  - apply StronglySorted_inv in Hs. destruct Hs as [Ht Hx].
    destruct (Z.ltb_spec (Link.id (fst r)) (Link.id (fst x))) as [Hlt|Hge].
    + constructor; [constructor; assumption|].
      constructor; [unfold by_link_id; lia|].
      apply Forall_impl with (2 := Hx). unfold by_link_id. intros; lia.
    + constructor; [now apply IH|].
      apply (Permutation_Forall (Permutation_sym (insert_by_id_perm r t))).
      constructor; [exact Hge | exact Hx].
Qed.

Lemma order_by_id_sorted rows : StronglySorted by_link_id (order_by_id rows).
Proof.
  induction rows as [|r rows IH]; simpl; [constructor|].
  now apply insert_by_id_sorted.
Qed.

Lemma in_join_panels d ls l p :
  In (l, p) (Db.join_panels d ls)
  <-> In l ls /\ In p (Db.panels d) /\ Panel.id p = Link.panel_id l.
Proof.
  unfold Db.join_panels. rewrite in_flat_map. split.
  - intros [l' [Hl Hin]]. apply in_map_iff in Hin.
    destruct Hin as [p' [E Hp]]. injection E as -> ->.
    apply filter_In in Hp. destruct Hp as [Hp Hid].
    apply Z.eqb_eq in Hid. auto.
  - intros (Hl & Hp & Hid). exists l. split; [assumption|].
    apply in_map_iff. exists p. split; [reflexivity|].
    apply filter_In. split; [assumption | now apply Z.eqb_eq].
Qed.

(** X1.  [fetch_all_links] only reads.  It returns the link rows in
    ascending order of their id; a link is among them once for every panel
    row whose id is the link's [panel_id], so a link whose panel is gone is
    not polled. *)
Theorem fetch_all_links_in_id_order w :
  fetch_all_links w = (eval fetch_all_links w, w)
  /\ StronglySorted by_link_id (eval fetch_all_links w)
  /\ Permutation (eval fetch_all_links w)
                 (Db.join_panels (db w) (Db.local_user_panel_links (db w)))
  /\ (forall l p,
        In (l, p) (eval fetch_all_links w)
        <-> In l (Db.local_user_panel_links (db w))
            /\ In p (Db.panels (db w))
            /\ Panel.id p = Link.panel_id l).
Proof.
  split; [reflexivity|]. unfold eval, fetch_all_links, query. cbn [fst].
  split; [apply order_by_id_sorted|].
  split; [apply order_by_id_perm|].
  intros l p. rewrite <- in_join_panels. split.
  - apply Permutation_in, order_by_id_perm.
  - apply Permutation_in, Permutation_sym, order_by_id_perm.
Qed.

End PollingOrder.

(** ** usage_sync.py: switching an account on the panels *)

Section RemoteSwitch.
Import UsageSync.
Local Open Scope Z_scope.
Variable P : Panels.

(** The message of the last call that failed, [last_msg] when none did. *)
Definition last_failure (replies : list (bool * option str))
           (last_msg : option str) : option str :=
  fold_left (fun acc (r : bool * option str) => if fst r then acc else snd r)
            replies last_msg.

(** The log entries of the calls for the names, with their answers. *)
Definition events_of (ev : str -> bool * option str -> Event)
           (rns : list str) (replies : list (bool * option str))
  : list Event :=
  map (fun x : str * (bool * option str) => ev (fst x) (snd x))
      (combine rns replies).

(** A call answered by the panels and logged. *)
Definition logged (f : list Event -> str -> bool * option str)
           (ev : str -> bool * option str -> Event) (rn : str)
  : M (bool * option str) :=
  fun w => let r := f (calls w) rn in
           (r, mkWorld (db w) (calls w ++ [ev rn r])).

Lemma each_remote_logged f ev rns : forall all_ok last_msg w,
  exists replies,
    length replies = length rns
    /\ each_remote (logged f ev) rns all_ok last_msg w
       = ((if all_ok && forallb fst replies then Some 200 else None,
           last_failure replies last_msg),
          mkWorld (db w) (calls w ++ events_of ev rns replies)).
Proof.
  induction rns as [|rn rest IH]; intros all_ok last_msg w.
  - exists []. split; [reflexivity|]. simpl. rewrite andb_true_r, app_nil_r.
    now destruct w.
  - rewrite each_remote_cons.
    set (r := f (calls w) rn).
    set (w1 := mkWorld (db w) (calls w ++ [ev rn r])).
    change (logged f ev rn w) with (r, w1). cbn [fst snd].
    destruct (fst r) eqn:Er.
    + destruct (IH all_ok last_msg w1) as [replies [Hlen Hrun]].
      exists (r :: replies). split; [simpl; now rewrite Hlen|].
      rewrite Hrun. unfold last_failure, events_of. simpl. rewrite Er.
      now rewrite <- app_assoc.
    + destruct (IH false (snd r) w1) as [replies [Hlen Hrun]].
      exists (r :: replies). split; [simpl; now rewrite Hlen|].
      rewrite Hrun. unfold last_failure, events_of. simpl. rewrite Er.
      rewrite andb_false_r. now rewrite <- app_assoc.
Qed.

Lemma split_pieces sep s : (1 <= length (split sep s))%nat.
Proof.
  induction s as [|c t IH]; simpl; [lia|].
  destruct (cp_eqb c sep); simpl; [lia|].
  destruct (split sep t); simpl; lia.
Qed.

Lemma remotes_of_pieces pt rn : (1 <= length (remotes_of pt rn))%nat.
Proof.
  unfold remotes_of. destruct (str_eqb pt _); [apply split_pieces | simpl; lia].
Qed.

(** X2.  [disable_remote] and [enable_remote] of [usage_sync.py] call the
    API module once for every piece of the remote name, in order and
    without stopping at a failure: for [sanaei] the pieces between commas,
    taken as they are (empty or padded ones included), otherwise the whole
    name, so at least one call is made.  They answer 200 exactly when every
    call succeeded, with the message of the last failed call, and leave
    the database alone. *)
Theorem remote_switch_calls_every_piece pt url tok rn w :
  (1 <= length (remotes_of pt rn))%nat
  /\ (exists replies,
        length replies = length (remotes_of pt rn)
        /\ disable_remote P pt url tok rn w
           = ((if forallb fst replies then Some 200 else None,
               last_failure replies None),
              mkWorld (db w)
                (calls w ++ events_of (EvDisable (get_api pt) url tok)
                                      (remotes_of pt rn) replies)))
  /\ (exists replies,
        length replies = length (remotes_of pt rn)
        /\ enable_remote P pt url tok rn w
           = ((if forallb fst replies then Some 200 else None,
               last_failure replies None),
              mkWorld (db w)
                (calls w ++ events_of (EvEnable (get_api pt) url tok)
                                      (remotes_of pt rn) replies))).
Proof.
  split; [apply remotes_of_pieces|]. split.
  - exact (each_remote_logged
             (fun cs rn => disable_remote_user P cs (get_api pt) url tok rn)
             (EvDisable (get_api pt) url tok) (remotes_of pt rn) true None w).
  - exact (each_remote_logged
             (fun cs rn => enable_remote_user P cs (get_api pt) url tok rn)
             (EvEnable (get_api pt) url tok) (remotes_of pt rn) true None w).
Qed.

End RemoteSwitch.

(** ** usage_sync.py: the two user-level checks of a polling turn *)

Section UserChecks.
Import UsageSync.
Local Open Scope Z_scope.
Variable P : Panels.

Lemma exec_seq {A B} (a : M A) (b : M B) w :
  exec (bind a (fun _ => b)) w = exec b (exec a w).
Proof. unfold exec. now rewrite bind_run. Qed.

Lemma snd_query {A} (q : Db.t -> A) w : snd (query q w) = w.
Proof. reflexivity. Qed.

Lemma fst_query {A} (q : Db.t -> A) w : fst (query q w) = q (db w).
Proof. reflexivity. Qed.

Lemma selected_matches {A} (key : A -> bool) rows r :
  Db.select_one key rows = Some r -> key r = true.
Proof. unfold Db.select_one. intros H. now apply find_some in H. Qed.

(** The world right after the enable attempts of the user's links. *)
Definition after_enable_attempts (owner : Z) (uname : str) (w : World)
  : World :=
  exec (bind (list_links_of_local_user owner uname)
             (fun links => for_each links (enable_link P))) w.

Lemma after_enable_attempts_db owner uname w :
  db (after_enable_attempts owner uname w) = db w.
Proof.
  unfold after_enable_attempts, exec.
  apply keeps_db_bind.
  - apply keeps_db_list_links.
  - intros links. apply keeps_db_for_each, keeps_db_enable_link.
Qed.

(** The guard of [try_disable_if_user_exceeded]. *)
Definition disable_due (lu : LocalUser.t) : bool :=
  (0 <? LocalUser.plan_limit_bytes lu)
  && (LocalUser.plan_limit_bytes lu <=? LocalUser.used_bytes lu)
  && negb (truthy (LocalUser.disabled_pushed lu)).

(** The guard of [try_enable_if_user_ok]. *)
Definition enable_due (lu : LocalUser.t) : bool :=
  truthy (LocalUser.disabled_pushed lu)
  && ((LocalUser.plan_limit_bytes lu =? 0)
      || (LocalUser.used_bytes lu <? LocalUser.plan_limit_bytes lu)).

Lemma try_disable_run now owner uname w lu :
  Db.select_one (user_is owner uname) (Db.local_users (db w)) = Some lu ->
  try_disable_if_user_exceeded P now owner uname w
  = (tt, if disable_due lu
         then exec (mark_user_disabled now owner uname)
                   (after_disable_attempts P owner uname w)
         else w).
Proof.
  intros Hlu. unfold try_disable_if_user_exceeded.
  rewrite bind_run. unfold get_local_user, query at 1. cbn [fst snd].
  rewrite Hlu. fold (disable_due lu). destruct (disable_due lu); [|reflexivity].
  unfold after_disable_attempts, exec. rewrite !bind_run. reflexivity.
Qed.

Lemma try_enable_run owner uname w lu :
  Db.select_one (user_is owner uname) (Db.local_users (db w)) = Some lu ->
  try_enable_if_user_ok P owner uname w
  = (tt, if enable_due lu
         then exec (mark_user_enabled owner uname)
                   (after_enable_attempts owner uname w)
         else w).
Proof.
  intros Hlu. unfold try_enable_if_user_ok.
  rewrite bind_run. unfold get_local_user, query at 1. cbn [fst snd].
  rewrite Hlu. fold (enable_due lu). destruct (enable_due lu); [|reflexivity].
  unfold after_enable_attempts, exec. rewrite !bind_run. reflexivity.
Qed.

Lemma select_after_mark_disabled now owner uname w0 w lu :
  db w0 = db w ->
  Db.select_one (user_is owner uname) (Db.local_users (db w)) = Some lu ->
  Db.select_one (user_is owner uname)
    (Db.local_users (db (exec (mark_user_disabled now owner uname) w0)))
  = Some (LocalUser.set_disabled_pushed 1 (Some now) lu).
Proof.
  intros Hdb Hlu. unfold exec, mark_user_disabled, execute. simpl.
  rewrite Hdb.
  rewrite select_one_update_where by (intros; apply user_is_set_disabled).
  rewrite Hlu. simpl. now rewrite (selected_matches _ _ _ Hlu).
Qed.

Lemma select_after_mark_enabled owner uname w0 w lu :
  db w0 = db w ->
  Db.select_one (user_is owner uname) (Db.local_users (db w)) = Some lu ->
  Db.select_one (user_is owner uname)
    (Db.local_users (db (exec (mark_user_enabled owner uname) w0)))
  = Some (LocalUser.set_disabled_pushed 0 None lu).
Proof.
  intros Hdb Hlu. unfold exec, mark_user_enabled, execute. simpl.
  rewrite Hdb.
  rewrite select_one_update_where by (intros; apply user_is_set_disabled).
  rewrite Hlu. simpl. now rewrite (selected_matches _ _ _ Hlu).
Qed.

(** X3.  [try_enable_if_user_ok] does nothing for a user whose push flag
    is 0, and nothing for a user over quota.  For a user whose flag is set
    and whose plan is unlimited or not used up, the enable attempts of the
    user's links are issued and then the flag and its time stamp are
    cleared, whatever the attempts answered; running it again calls no
    panel. *)
Theorem cleared_user_is_enabled_once owner uname w lu :
  Db.select_one (user_is owner uname) (Db.local_users (db w)) = Some lu ->
  (LocalUser.disabled_pushed lu = 0 ->
   try_enable_if_user_ok P owner uname w = (tt, w))
  /\
  (0 < LocalUser.plan_limit_bytes lu ->
   LocalUser.plan_limit_bytes lu <= LocalUser.used_bytes lu ->
   try_enable_if_user_ok P owner uname w = (tt, w))
  /\
  (LocalUser.disabled_pushed lu <> 0 ->
   LocalUser.plan_limit_bytes lu = 0
   \/ LocalUser.used_bytes lu < LocalUser.plan_limit_bytes lu ->
   let w' := exec (try_enable_if_user_ok P owner uname) w in
   calls w' = calls (after_enable_attempts owner uname w)
   /\ Db.select_one (user_is owner uname) (Db.local_users (db w'))
      = Some (LocalUser.set_disabled_pushed 0 None lu)
   /\ try_enable_if_user_ok P owner uname w' = (tt, w')).
Proof.
  intros Hlu. rewrite (try_enable_run owner uname w lu Hlu).
  split; [|split].
  - intros Hp. unfold enable_due, truthy. now rewrite Hp.
  - intros Hl Hu. unfold enable_due.
    destruct (Z.eqb_spec (LocalUser.plan_limit_bytes lu) 0); [lia|].
    destruct (Z.ltb_spec (LocalUser.used_bytes lu) (LocalUser.plan_limit_bytes lu));
      [lia|].
    now rewrite andb_false_r.
  - intros Hp Hok w'.
    assert (Hdue : enable_due lu = true).
    { unfold enable_due, truthy.
      destruct (Z.eqb_spec (LocalUser.disabled_pushed lu) 0); [contradiction|].
      simpl. apply orb_true_iff.
      destruct Hok as [H|H]; [left; now apply Z.eqb_eq | right; now apply Z.ltb_lt]. }
    assert (Hw' : w' = exec (mark_user_enabled owner uname)
                            (after_enable_attempts owner uname w)).
    { unfold w', exec. rewrite (try_enable_run owner uname w lu Hlu).
      now rewrite Hdue. }
    assert (Hsel : Db.select_one (user_is owner uname) (Db.local_users (db w'))
                   = Some (LocalUser.set_disabled_pushed 0 None lu)).
    { rewrite Hw'. apply select_after_mark_enabled with (w := w); [|assumption].
      apply after_enable_attempts_db. }
    split; [now rewrite Hw'|]. split; [exact Hsel|].
    now rewrite (try_enable_run owner uname w' _ Hsel).
Qed.

Lemma over_quota_excludes_enable lu :
  over_quota (LocalUser.plan_limit_bytes lu) (LocalUser.used_bytes lu) = true ->
  enable_due lu = false.
Proof.
  unfold over_quota, enable_due. intros H. apply andb_true_iff in H.
  destruct H as [H1 H2]. apply Z.ltb_lt in H1. apply Z.leb_le in H2.
  destruct (Z.eqb_spec (LocalUser.plan_limit_bytes lu) 0); [lia|].
  destruct (Z.ltb_spec (LocalUser.used_bytes lu) (LocalUser.plan_limit_bytes lu));
    [lia|].
  now rewrite andb_false_r.
Qed.

Lemma within_quota_allows_enable lu :
  0 <= LocalUser.plan_limit_bytes lu ->
  over_quota (LocalUser.plan_limit_bytes lu) (LocalUser.used_bytes lu) = false ->
  enable_due lu = truthy (LocalUser.disabled_pushed lu).
Proof.
  unfold over_quota, enable_due. intros H0 H.
  destruct (Z.eqb_spec (LocalUser.plan_limit_bytes lu) 0);
    [now rewrite andb_true_r|].
  destruct (Z.ltb_spec (LocalUser.used_bytes lu) (LocalUser.plan_limit_bytes lu));
    [now rewrite andb_true_r|].
  destruct (Z.ltb_spec 0 (LocalUser.plan_limit_bytes lu)); [|lia].
  destruct (Z.leb_spec (LocalUser.plan_limit_bytes lu) (LocalUser.used_bytes lu));
    [discriminate | lia].
Qed.

(** The pair of checks the loop runs after a poll. *)
Definition user_checks (now owner : Z) (uname : str) : M unit :=
  bind (try_disable_if_user_exceeded P now owner uname)
       (fun _ => try_enable_if_user_ok P owner uname).

Lemma user_checks_settled now owner uname w lu :
  Db.select_one (user_is owner uname) (Db.local_users (db w)) = Some lu ->
  0 <= LocalUser.plan_limit_bytes lu ->
  truthy (LocalUser.disabled_pushed lu)
  = over_quota (LocalUser.plan_limit_bytes lu) (LocalUser.used_bytes lu) ->
  user_checks now owner uname w = (tt, w).
Proof.
  intros Hlu H0 Hflag. unfold user_checks. rewrite bind_run.
  rewrite (try_disable_run now owner uname w lu Hlu).
  assert (Hd : disable_due lu = false).
  { unfold disable_due. fold (over_quota (LocalUser.plan_limit_bytes lu)
                                         (LocalUser.used_bytes lu)).
    rewrite Hflag. now destruct (over_quota _ _). }
  rewrite Hd. cbn [fst snd].
  rewrite (try_enable_run owner uname w lu Hlu).
  destruct (over_quota (LocalUser.plan_limit_bytes lu) (LocalUser.used_bytes lu))
    eqn:Hov.
  - now rewrite (over_quota_excludes_enable lu Hov).
  - now rewrite (within_quota_allows_enable lu H0 Hov), Hflag.
Qed.

(** X4.  After [try_disable_if_user_exceeded] and [try_enable_if_user_ok],
    run one after the other as the loop does, the push flag of a user with
    a non-negative limit says whether the user is over quota; no other
    column of the user row has changed; at most one of the two has acted;
    and running the pair again changes nothing and calls no panel. *)
Theorem user_checks_settle_the_flag now owner uname w lu :
  Db.select_one (user_is owner uname) (Db.local_users (db w)) = Some lu ->
  0 <= LocalUser.plan_limit_bytes lu ->
  let w' := exec (user_checks now owner uname) w in
  (exists lu',
     Db.select_one (user_is owner uname) (Db.local_users (db w')) = Some lu'
     /\ erase_user lu' = erase_user lu
     /\ truthy (LocalUser.disabled_pushed lu')
        = over_quota (LocalUser.plan_limit_bytes lu) (LocalUser.used_bytes lu))
  /\ (w' = exec (try_disable_if_user_exceeded P now owner uname) w
      \/ w' = exec (try_enable_if_user_ok P owner uname) w)
  /\ (forall now', user_checks now' owner uname w' = (tt, w')).
Proof.
  intros Hlu H0 w'.
  assert (Hw' : w' = exec (try_enable_if_user_ok P owner uname)
                          (exec (try_disable_if_user_exceeded P now owner uname) w))
    by apply exec_seq.
  assert (Hdis := try_disable_run now owner uname w lu Hlu).
  assert (Hen := try_enable_run owner uname w lu Hlu).
  assert (Main : exists lu',
     Db.select_one (user_is owner uname) (Db.local_users (db w')) = Some lu'
     /\ erase_user lu' = erase_user lu
     /\ truthy (LocalUser.disabled_pushed lu')
        = over_quota (LocalUser.plan_limit_bytes lu) (LocalUser.used_bytes lu)
     /\ (w' = exec (try_disable_if_user_exceeded P now owner uname) w
         \/ w' = exec (try_enable_if_user_ok P owner uname) w)).
  { destruct (over_quota (LocalUser.plan_limit_bytes lu) (LocalUser.used_bytes lu))
      eqn:Hov.
    - (* over quota *)
      destruct (truthy (LocalUser.disabled_pushed lu)) eqn:Hp.
      + assert (Hd : disable_due lu = false)
          by (unfold disable_due; rewrite Hp; now rewrite andb_false_r).
        assert (E1 : exec (try_disable_if_user_exceeded P now owner uname) w = w)
          by (unfold exec; now rewrite Hdis, Hd).
        assert (E2 : exec (try_enable_if_user_ok P owner uname) w = w)
          by (unfold exec; now rewrite Hen, (over_quota_excludes_enable lu Hov)).
        rewrite E1, E2 in Hw'. exists lu. rewrite Hw'.
        repeat split; auto.
      + assert (Hd : disable_due lu = true).
        { unfold disable_due. rewrite Hp. unfold over_quota in Hov.
          now rewrite Hov. }
        set (w1 := exec (try_disable_if_user_exceeded P now owner uname) w) in *.
        assert (Hw1 : w1 = exec (mark_user_disabled now owner uname)
                                (after_disable_attempts P owner uname w))
          by (unfold w1, exec; now rewrite Hdis, Hd).
        assert (Hsel : Db.select_one (user_is owner uname)
                         (Db.local_users (db w1))
                       = Some (LocalUser.set_disabled_pushed 1 (Some now) lu)).
        { rewrite Hw1. apply select_after_mark_disabled with (w := w); [|assumption].
          apply after_disable_attempts_db. }
        assert (E2 : exec (try_enable_if_user_ok P owner uname) w1 = w1).
        { unfold exec. rewrite (try_enable_run owner uname w1 _ Hsel).
          now rewrite over_quota_excludes_enable. }
        rewrite E2 in Hw'. rewrite Hw'.
        exists (LocalUser.set_disabled_pushed 1 (Some now) lu).
        repeat split; auto.
    - (* within quota *)
      assert (Hd : disable_due lu = false).
      { unfold disable_due. unfold over_quota in Hov. now rewrite Hov. }
      assert (E1 : exec (try_disable_if_user_exceeded P now owner uname) w = w)
        by (unfold exec; now rewrite Hdis, Hd).
      rewrite E1 in Hw'.
      destruct (enable_due lu) eqn:He.
      + assert (Hw2 : w' = exec (mark_user_enabled owner uname)
                                (after_enable_attempts owner uname w))
          by (rewrite Hw'; unfold exec; now rewrite Hen).
        exists (LocalUser.set_disabled_pushed 0 None lu).
        split; [|repeat split; auto].
        rewrite Hw2. apply select_after_mark_enabled with (w := w); [|assumption].
        apply after_enable_attempts_db.
      + assert (E2 : exec (try_enable_if_user_ok P owner uname) w = w)
          by (unfold exec; now rewrite Hen).
        rewrite E2 in Hw'. exists lu. rewrite Hw'.
        repeat split; auto.
        now rewrite <- (within_quota_allows_enable lu H0 Hov). }
  destruct Main as (lu' & Hsel & Her & Hflag & Hone).
  split; [exists lu'; auto|]. split; [exact Hone|].
  intros now'. apply user_checks_settled with lu'; [assumption| |].
  - assert (E : LocalUser.plan_limit_bytes lu' = LocalUser.plan_limit_bytes lu)
      by (apply (f_equal LocalUser.plan_limit_bytes) in Her; exact Her).
    now rewrite E.
  - assert (E1 : LocalUser.plan_limit_bytes lu' = LocalUser.plan_limit_bytes lu)
      by (apply (f_equal LocalUser.plan_limit_bytes) in Her; exact Her).
    assert (E2 : LocalUser.used_bytes lu' = LocalUser.used_bytes lu)
      by (apply (f_equal LocalUser.used_bytes) in Her; exact Her).
    now rewrite E1, E2.
Qed.

End UserChecks.

(** ** usage_sync.py: the two agent-level checks *)

Section AgentChecks.
Import UsageSync.
Local Open Scope Z_scope.
Variable P : Panels.

(** The agent is expired or over its quota, as both checks compute it. *)
Definition agent_blocked (now : Z) (ag : Agent.t) : bool :=
  is_expired now (Agent.expire_at ag)
  || over_quota (Agent.plan_limit_bytes ag) (Agent.total_used_bytes ag).

(** The remote calls of the agent-level disable: for every user of the
    owner, the user's links and then the panels assigned to the agent. *)
Definition agent_disable_attempts (owner : Z) : M unit :=
  bind (list_all_local_usernames owner) (fun usernames =>
    for_each usernames (fun uname =>
      bind (list_links_of_local_user owner uname) (fun links =>
        bind (for_each links (disable_link P)) (fun _ =>
          disable_user_on_assigned_panels P owner uname)))).

Definition agent_enable_attempts (owner : Z) : M unit :=
  bind (list_all_local_usernames owner) (fun usernames =>
    for_each usernames (fun uname =>
      bind (list_links_of_local_user owner uname) (fun links =>
        bind (for_each links (enable_link P)) (fun _ =>
          enable_user_on_assigned_panels P owner uname)))).

Lemma keeps_db_agent_disable_attempts owner :
  keeps_db (agent_disable_attempts owner).
Proof.
  unfold agent_disable_attempts.
  apply keeps_db_bind; [apply keeps_db_query|]. intros usernames.
  apply keeps_db_for_each. intros uname.
  apply keeps_db_bind; [apply keeps_db_query|]. intros links.
  apply keeps_db_bind; [apply keeps_db_for_each, keeps_db_disable_link|].
  intros _. apply keeps_db_assigned_disable.
Qed.

Lemma keeps_db_agent_enable_attempts owner :
  keeps_db (agent_enable_attempts owner).
Proof.
  unfold agent_enable_attempts.
  apply keeps_db_bind; [apply keeps_db_query|]. intros usernames.
  apply keeps_db_for_each. intros uname.
  apply keeps_db_bind; [apply keeps_db_query|]. intros links.
  apply keeps_db_bind; [apply keeps_db_for_each, keeps_db_enable_link|].
  intros _. apply keeps_db_assigned_enable.
Qed.

(** The two flag updates of a push, on the database. *)
Definition agent_marked (v : Z) (at_ : option Z) (owner : Z) (d : Db.t) : Db.t :=
  Db.with_agents
    (Db.update_where (agent_is owner) (Agent.set_disabled_pushed v at_)
                     (Db.agents d))
    (Db.with_local_users
       (Db.update_where (fun r => LocalUser.owner_id r =? owner)
          (LocalUser.set_disabled_pushed v at_) (Db.local_users d)) d).

Lemma agent_over_limit_run owner ag w :
  Db.select_one (agent_is owner) (Db.agents (db w)) = Some ag ->
  agent_over_limit owner (Agent.plan_limit_bytes ag) w
  = (over_quota (Agent.plan_limit_bytes ag) (Agent.total_used_bytes ag), w).
Proof.
  intros Hag. unfold agent_over_limit, over_quota.
  destruct (0 <? Agent.plan_limit_bytes ag); [|reflexivity].
  rewrite bind_run. unfold total_used_by_owner, query. cbn [fst snd].
  now rewrite Hag.
Qed.

(** The guard of [try_disable_agent_if_exceeded]. *)
Definition agent_disable_due (now : Z) (ag : Agent.t) : bool :=
  negb (Agent.active ag =? 0)
  && (agent_blocked now ag && negb (truthy (Agent.disabled_pushed ag))).

(** The guard of [try_enable_agent_if_ok]. *)
Definition agent_enable_due (now : Z) (ag : Agent.t) : bool :=
  negb (Agent.active ag =? 0)
  && (truthy (Agent.disabled_pushed ag) && negb (agent_blocked now ag)).

Lemma try_disable_agent_run now owner w ag :
  Db.select_one (agent_is owner) (Db.agents (db w)) = Some ag ->
  try_disable_agent_if_exceeded P now owner w
  = (tt, if agent_disable_due now ag
         then let w1 := exec (agent_disable_attempts owner) w in
              mkWorld (agent_marked 1 (Some now) owner (db w)) (calls w1)
         else w).
Proof.
  intros Hag. unfold try_disable_agent_if_exceeded, agent_disable_due.
  rewrite bind_run. unfold get_agent, query at 1. cbn [fst snd].
  rewrite Hag. destruct (Agent.active ag =? 0); [reflexivity|].
  rewrite bind_run, !snd_query, (agent_over_limit_run owner ag w Hag).
  cbn [fst snd negb andb].
  fold (agent_blocked now ag).
  destruct (agent_blocked now ag && negb (truthy (Agent.disabled_pushed ag)));
    [|reflexivity].
  rewrite bind_run. unfold list_all_local_usernames at 1, query at 1.
  cbn [fst snd]. rewrite bind_run.
  unfold exec, agent_disable_attempts. rewrite bind_run.
  unfold list_all_local_usernames at 1 2, query at 1 2. cbn [fst snd].
  match goal with
  | |- context [for_each ?us ?body w] =>
      set (w1 := snd (for_each us body w));
      assert (Hdb : db w1 = db w)
  end.
  { unfold w1. apply keeps_db_for_each. intros uname.
    apply keeps_db_bind; [apply keeps_db_query|]. intros links.
    apply keeps_db_bind; [apply keeps_db_for_each, keeps_db_disable_link|].
    intros _. apply keeps_db_assigned_disable. }
  rewrite bind_run. unfold mark_all_users_disabled, mark_agent_disabled, execute.
  cbn [fst snd db calls]. unfold agent_marked.
  cbn [Db.agents Db.with_local_users]. now rewrite Hdb.
Qed.

Lemma try_enable_agent_run now owner w ag :
  Db.select_one (agent_is owner) (Db.agents (db w)) = Some ag ->
  try_enable_agent_if_ok P now owner w
  = (tt, if agent_enable_due now ag
         then let w1 := exec (agent_enable_attempts owner) w in
              mkWorld (agent_marked 0 None owner (db w)) (calls w1)
         else w).
Proof.
  intros Hag. unfold try_enable_agent_if_ok, agent_enable_due.
  rewrite bind_run. unfold get_agent, query at 1. cbn [fst snd].
  rewrite Hag. destruct (Agent.active ag =? 0); [reflexivity|].
  destruct (truthy (Agent.disabled_pushed ag)); [|reflexivity].
  cbn [negb andb].
  rewrite bind_run, !snd_query, (agent_over_limit_run owner ag w Hag).
  cbn [fst snd].
  unfold agent_blocked. rewrite negb_orb.
  destruct (negb (is_expired now (Agent.expire_at ag))
            && negb (over_quota (Agent.plan_limit_bytes ag)
                                (Agent.total_used_bytes ag)));
    [|reflexivity].
  rewrite bind_run. unfold list_all_local_usernames at 1, query at 1.
  cbn [fst snd]. rewrite bind_run.
  unfold exec, agent_enable_attempts. rewrite bind_run.
  unfold list_all_local_usernames at 1 2, query at 1 2. cbn [fst snd].
  match goal with
  | |- context [for_each ?us ?body w] =>
      set (w1 := snd (for_each us body w));
      assert (Hdb : db w1 = db w)
  end.
  { unfold w1. apply keeps_db_for_each. intros uname.
    apply keeps_db_bind; [apply keeps_db_query|]. intros links.
    apply keeps_db_bind; [apply keeps_db_for_each, keeps_db_enable_link|].
    intros _. apply keeps_db_assigned_enable. }
  rewrite bind_run. unfold mark_all_users_enabled, mark_agent_enabled, execute.
  cbn [fst snd db calls]. unfold agent_marked.
  cbn [Db.agents Db.with_local_users]. now rewrite Hdb.
Qed.

Lemma select_agent_marked v at_ owner d ag :
  Db.select_one (agent_is owner) (Db.agents d) = Some ag ->
  Db.select_one (agent_is owner) (Db.agents (agent_marked v at_ owner d))
  = Some (Agent.set_disabled_pushed v at_ ag).
Proof.
  intros Hag. unfold agent_marked. cbn [Db.agents Db.with_agents].
  rewrite select_one_update_where by reflexivity.
  rewrite Hag. simpl. now rewrite (selected_matches _ _ _ Hag).
Qed.

Lemma select_user_marked v at_ owner uname d lu :
  Db.select_one (user_is owner uname) (Db.local_users d) = Some lu ->
  Db.select_one (user_is owner uname)
                (Db.local_users (agent_marked v at_ owner d))
  = Some (LocalUser.set_disabled_pushed v at_ lu).
Proof.
  intros Hlu. unfold agent_marked.
  cbn [Db.local_users Db.with_agents Db.with_local_users].
  rewrite select_one_update_where by reflexivity.
  rewrite Hlu. simpl.
  pose proof (selected_matches _ _ _ Hlu) as Hk. unfold user_is in Hk.
  apply andb_true_iff in Hk. destruct Hk as [Hk _]. now rewrite Hk.
Qed.

Lemma agent_blocked_set_flag now v at_ ag :
  agent_blocked now (Agent.set_disabled_pushed v at_ ag) = agent_blocked now ag.
Proof. reflexivity. Qed.

Lemma active_flag ag : Agent.active ag <> 0 -> (Agent.active ag =? 0) = false.
Proof. intros H. now apply Z.eqb_neq. Qed.

(** X5.  When [try_disable_agent_if_exceeded] finds an active agent that is
    expired or over its quota and whose push flag is 0, it issues the
    disable attempts for every user of the owner (the user's links, then
    the panels assigned to the agent) and then sets the push flag of every
    [local_users] row of the owner and of the agent row, whatever the
    panels answered.  Rows of other owners and all usage counters stay as
    they were, and running it again calls no panel. *)
Theorem exceeded_agent_marks_every_user now owner w ag :
  Db.select_one (agent_is owner) (Db.agents (db w)) = Some ag ->
  Agent.active ag <> 0 ->
  agent_blocked now ag = true ->
  Agent.disabled_pushed ag = 0 ->
  let w' := exec (try_disable_agent_if_exceeded P now owner) w in
  calls w' = calls (exec (agent_disable_attempts owner) w)
  /\ Db.local_users (db w')
     = map (fun r => if LocalUser.owner_id r =? owner
                     then LocalUser.set_disabled_pushed 1 (Some now) r
                     else r)
           (Db.local_users (db w))
  /\ Db.select_one (agent_is owner) (Db.agents (db w'))
     = Some (Agent.set_disabled_pushed 1 (Some now) ag)
  /\ ledger (db w') = ledger (db w)
  /\ forall now', try_disable_agent_if_exceeded P now' owner w' = (tt, w').
Proof.
  intros Hag Hact Hb Hp w'.
  assert (Hdue : agent_disable_due now ag = true).
  { unfold agent_disable_due, truthy. now rewrite (active_flag ag Hact), Hb, Hp. }
  assert (Hw' : w' = mkWorld (agent_marked 1 (Some now) owner (db w))
                             (calls (exec (agent_disable_attempts owner) w))).
  { unfold w', exec at 1. rewrite (try_disable_agent_run now owner w ag Hag).
    now rewrite Hdue. }
  assert (Hsel : Db.select_one (agent_is owner) (Db.agents (db w'))
                 = Some (Agent.set_disabled_pushed 1 (Some now) ag)).
  { rewrite Hw'. cbn [db]. now apply select_agent_marked. }
  split; [now rewrite Hw'|]. split; [now rewrite Hw'|].
  split; [exact Hsel|]. split; [apply keeps_ledger_try_disable_agent|].
  intros now'. rewrite (try_disable_agent_run now' owner w' _ Hsel).
  unfold agent_disable_due. cbn [Agent.disabled_pushed Agent.set_disabled_pushed].
  unfold truthy. cbn [Z.eqb negb]. now rewrite !andb_false_r.
Qed.

Lemma agent_checks_settled now owner w ag :
  Db.select_one (agent_is owner) (Db.agents (db w)) = Some ag ->
  truthy (Agent.disabled_pushed ag) = agent_blocked now ag ->
  sync_agent_now P now owner w = (tt, w).
Proof.
  intros Hag Hflag. unfold sync_agent_now. rewrite bind_run.
  rewrite (try_disable_agent_run now owner w ag Hag).
  assert (Hd : agent_disable_due now ag = false).
  { unfold agent_disable_due. rewrite Hflag.
    destruct (agent_blocked now ag); now rewrite ?andb_false_r. }
  rewrite Hd. cbn [fst snd].
  rewrite (try_enable_agent_run now owner w ag Hag).
  assert (He : agent_enable_due now ag = false).
  { unfold agent_enable_due. rewrite Hflag.
    destruct (agent_blocked now ag); now rewrite ?andb_false_r. }
  now rewrite He.
Qed.

Lemma sync_agent_now_settles now owner w ag :
  Db.select_one (agent_is owner) (Db.agents (db w)) = Some ag ->
  Agent.active ag <> 0 ->
  let w' := exec (sync_agent_now P now owner) w in
  (exists ag',
     Db.select_one (agent_is owner) (Db.agents (db w')) = Some ag'
     /\ erase_agent ag' = erase_agent ag
     /\ truthy (Agent.disabled_pushed ag') = agent_blocked now ag)
  /\ (w' = exec (try_disable_agent_if_exceeded P now owner) w
      \/ w' = exec (try_enable_agent_if_ok P now owner) w)
  /\ sync_agent_now P now owner w' = (tt, w').
Proof.
  intros Hag Hact w'.
  assert (Hw' : w' = exec (try_enable_agent_if_ok P now owner)
                          (exec (try_disable_agent_if_exceeded P now owner) w))
    by apply exec_seq.
  assert (Hdis := try_disable_agent_run now owner w ag Hag).
  assert (Hen := try_enable_agent_run now owner w ag Hag).
  unfold agent_disable_due in Hdis. unfold agent_enable_due in Hen.
  rewrite (active_flag ag Hact) in Hdis, Hen. cbn [negb andb] in Hdis, Hen.
  assert (Main : exists ag',
     Db.select_one (agent_is owner) (Db.agents (db w')) = Some ag'
     /\ erase_agent ag' = erase_agent ag
     /\ truthy (Agent.disabled_pushed ag') = agent_blocked now ag
     /\ (w' = exec (try_disable_agent_if_exceeded P now owner) w
         \/ w' = exec (try_enable_agent_if_ok P now owner) w)).
  { destruct (agent_blocked now ag) eqn:Hb;
      destruct (truthy (Agent.disabled_pushed ag)) eqn:Hp;
      cbn [negb andb] in Hdis, Hen.
    - assert (E1 : exec (try_disable_agent_if_exceeded P now owner) w = w)
        by (unfold exec; now rewrite Hdis).
      assert (E2 : exec (try_enable_agent_if_ok P now owner) w = w)
        by (unfold exec; now rewrite Hen).
      rewrite E1, E2 in Hw'. exists ag. rewrite Hw'. repeat split; auto.
    - set (w1 := exec (try_disable_agent_if_exceeded P now owner) w) in *.
      assert (Hw1 : w1 = mkWorld (agent_marked 1 (Some now) owner (db w))
                           (calls (exec (agent_disable_attempts owner) w)))
        by (unfold w1, exec at 1; now rewrite Hdis).
      assert (Hsel : Db.select_one (agent_is owner) (Db.agents (db w1))
                     = Some (Agent.set_disabled_pushed 1 (Some now) ag))
        by (rewrite Hw1; cbn [db]; now apply select_agent_marked).
      assert (E2 : exec (try_enable_agent_if_ok P now owner) w1 = w1).
      { unfold exec. rewrite (try_enable_agent_run now owner w1 _ Hsel).
        unfold agent_enable_due. rewrite agent_blocked_set_flag, Hb.
        now rewrite !andb_false_r. }
      rewrite E2 in Hw'. rewrite Hw'.
      exists (Agent.set_disabled_pushed 1 (Some now) ag). repeat split; auto.
    - assert (E1 : exec (try_disable_agent_if_exceeded P now owner) w = w)
        by (unfold exec; now rewrite Hdis).
      rewrite E1 in Hw'.
      assert (Hw2 : w' = mkWorld (agent_marked 0 None owner (db w))
                           (calls (exec (agent_enable_attempts owner) w)))
        by (rewrite Hw'; unfold exec at 1; now rewrite Hen).
      exists (Agent.set_disabled_pushed 0 None ag).
      split; [|repeat split; auto].
      rewrite Hw2. cbn [db]. now apply select_agent_marked.
    - assert (E1 : exec (try_disable_agent_if_exceeded P now owner) w = w)
        by (unfold exec; now rewrite Hdis).
      assert (E2 : exec (try_enable_agent_if_ok P now owner) w = w)
        by (unfold exec; now rewrite Hen).
      rewrite E1, E2 in Hw'. exists ag. rewrite Hw'. repeat split; auto. }
  destruct Main as (ag' & Hsel & Her & Hflag & Hone).
  split; [exists ag'; auto|]. split; [exact Hone|].
  apply agent_checks_settled with ag'; [assumption|].
  rewrite Hflag. unfold agent_blocked.
  assert (E1 : Agent.plan_limit_bytes ag' = Agent.plan_limit_bytes ag)
    by (apply (f_equal Agent.plan_limit_bytes) in Her; exact Her).
  assert (E2 : Agent.total_used_bytes ag' = Agent.total_used_bytes ag)
    by (apply (f_equal Agent.total_used_bytes) in Her; exact Her).
  assert (E3 : Agent.expire_at ag' = Agent.expire_at ag)
    by (apply (f_equal Agent.expire_at) in Her; exact Her).
  now rewrite E1, E2, E3.
Qed.

(** X6.  After [sync_agent_now] the push flag of an active agent says
    whether the agent is expired or over its quota at that time; no other
    column of the agent row has changed; at most one of the two checks has
    acted; and running it again at the same time changes nothing and calls
    no panel. *)
Theorem agent_checks_settle_the_flag now owner w ag :
  Db.select_one (agent_is owner) (Db.agents (db w)) = Some ag ->
  Agent.active ag <> 0 ->
  let w' := exec (sync_agent_now P now owner) w in
  (exists ag',
     Db.select_one (agent_is owner) (Db.agents (db w')) = Some ag'
     /\ erase_agent ag' = erase_agent ag
     /\ truthy (Agent.disabled_pushed ag') = agent_blocked now ag)
  /\ (w' = exec (try_disable_agent_if_exceeded P now owner) w
      \/ w' = exec (try_enable_agent_if_ok P now owner) w)
  /\ sync_agent_now P now owner w' = (tt, w').
Proof. exact (sync_agent_now_settles now owner w ag). Qed.

(** X7.  The user-level checks take back an agent-level disable: when the
    agent-level check has marked the users of a blocked agent, the checks
    the loop runs after the next poll of a user who is within the user's
    own quota issue the enable attempts of the user's links and clear the
    user's flag, while the agent row stays marked, so the agent-level
    disable is not issued a second time. *)
Theorem user_checks_take_back_agent_disable now now' owner uname w ag lu :
  Db.select_one (agent_is owner) (Db.agents (db w)) = Some ag ->
  Agent.active ag <> 0 ->
  agent_blocked now ag = true ->
  Agent.disabled_pushed ag = 0 ->
  Db.select_one (user_is owner uname) (Db.local_users (db w)) = Some lu ->
  LocalUser.plan_limit_bytes lu = 0
  \/ LocalUser.used_bytes lu < LocalUser.plan_limit_bytes lu ->
  let w1 := exec (try_disable_agent_if_exceeded P now owner) w in
  let w2 := exec (user_checks P now' owner uname) w1 in
  Db.select_one (user_is owner uname) (Db.local_users (db w1))
  = Some (LocalUser.set_disabled_pushed 1 (Some now) lu)
  /\ Db.select_one (user_is owner uname) (Db.local_users (db w2))
     = Some (LocalUser.set_disabled_pushed 0 None lu)
  /\ calls w2 = calls (after_enable_attempts P owner uname w1)
  /\ Db.select_one (agent_is owner) (Db.agents (db w2))
     = Some (Agent.set_disabled_pushed 1 (Some now) ag)
  /\ forall t, try_disable_agent_if_exceeded P t owner w2 = (tt, w2).
Proof.
  intros Hag Hact Hb Hp Hlu Hok w1 w2.
  assert (Hdue : agent_disable_due now ag = true).
  { unfold agent_disable_due, truthy. now rewrite (active_flag ag Hact), Hb, Hp. }
  assert (Hw1 : w1 = mkWorld (agent_marked 1 (Some now) owner (db w))
                             (calls (exec (agent_disable_attempts owner) w))).
  { unfold w1, exec at 1. rewrite (try_disable_agent_run now owner w ag Hag).
    now rewrite Hdue. }
  assert (Hu1 : Db.select_one (user_is owner uname) (Db.local_users (db w1))
                = Some (LocalUser.set_disabled_pushed 1 (Some now) lu))
    by (rewrite Hw1; cbn [db]; now apply select_user_marked).
  assert (Ha1 : Db.select_one (agent_is owner) (Db.agents (db w1))
                = Some (Agent.set_disabled_pushed 1 (Some now) ag))
    by (rewrite Hw1; cbn [db]; now apply select_agent_marked).
  set (lu1 := LocalUser.set_disabled_pushed 1 (Some now) lu) in *.
  assert (Hd : disable_due lu1 = false)
    by (unfold disable_due, lu1; cbn; now rewrite andb_false_r).
  assert (He : enable_due lu1 = true).
  { unfold enable_due, lu1. cbn. apply orb_true_iff.
    destruct Hok as [H|H]; [left; now apply Z.eqb_eq | right; now apply Z.ltb_lt]. }
  assert (Hw2 : w2 = exec (mark_user_enabled owner uname)
                          (after_enable_attempts P owner uname w1)).
  { unfold w2, user_checks. rewrite exec_seq. unfold exec at 2.
    rewrite (try_disable_run P now' owner uname w1 lu1 Hu1), Hd. cbn [snd].
    unfold exec at 1. rewrite (try_enable_run P owner uname w1 lu1 Hu1), He.
    reflexivity. }
  assert (Ha2 : Db.select_one (agent_is owner) (Db.agents (db w2))
                = Some (Agent.set_disabled_pushed 1 (Some now) ag)).
  { rewrite Hw2. unfold exec, mark_user_enabled, execute.
    cbn [snd db Db.agents Db.with_local_users].
    now rewrite after_enable_attempts_db. }
  split; [exact Hu1|]. split; [|split; [|split]].
  - rewrite Hw2.
    rewrite (select_after_mark_enabled owner uname _ w1 lu1
               (after_enable_attempts_db P owner uname w1) Hu1).
    reflexivity.
  - now rewrite Hw2.
  - exact Ha2.
  - intros t. rewrite (try_disable_agent_run t owner w2 _ Ha2).
    unfold agent_disable_due. cbn [Agent.disabled_pushed Agent.set_disabled_pushed].
    unfold truthy. cbn [Z.eqb negb]. now rewrite !andb_false_r.
Qed.

(** X8.  The other way round: when the agent-level check re-enables the
    users of an agent, it clears the flag of every user of the owner, the
    ones over their own quota included; the checks the loop runs after the
    next poll of such a user issue the disable attempts of the user's
    links again and set the flag again. *)
Theorem user_checks_redo_disable_after_agent_enable
        now now' owner uname w ag lu :
  Db.select_one (agent_is owner) (Db.agents (db w)) = Some ag ->
  Agent.active ag <> 0 ->
  agent_blocked now ag = false ->
  Agent.disabled_pushed ag <> 0 ->
  Db.select_one (user_is owner uname) (Db.local_users (db w)) = Some lu ->
  0 < LocalUser.plan_limit_bytes lu ->
  LocalUser.plan_limit_bytes lu <= LocalUser.used_bytes lu ->
  let w1 := exec (try_enable_agent_if_ok P now owner) w in
  let w2 := exec (user_checks P now' owner uname) w1 in
  calls w1 = calls (exec (agent_enable_attempts owner) w)
  /\ Db.local_users (db w1)
     = map (fun r => if LocalUser.owner_id r =? owner
                     then LocalUser.set_disabled_pushed 0 None r
                     else r)
           (Db.local_users (db w))
  /\ Db.select_one (user_is owner uname) (Db.local_users (db w1))
     = Some (LocalUser.set_disabled_pushed 0 None lu)
  /\ Db.select_one (user_is owner uname) (Db.local_users (db w2))
     = Some (LocalUser.set_disabled_pushed 1 (Some now') lu)
  /\ calls w2 = calls (after_disable_attempts P owner uname w1).
Proof.
  intros Hag Hact Hb Hp Hlu Hl Hu w1 w2.
  assert (Hdue : agent_enable_due now ag = true).
  { unfold agent_enable_due, truthy. rewrite (active_flag ag Hact), Hb.
    now destruct (Z.eqb_spec (Agent.disabled_pushed ag) 0). }
  assert (Hw1 : w1 = mkWorld (agent_marked 0 None owner (db w))
                             (calls (exec (agent_enable_attempts owner) w))).
  { unfold w1, exec at 1. rewrite (try_enable_agent_run now owner w ag Hag).
    now rewrite Hdue. }
  assert (Hu1 : Db.select_one (user_is owner uname) (Db.local_users (db w1))
                = Some (LocalUser.set_disabled_pushed 0 None lu))
    by (rewrite Hw1; cbn [db]; now apply select_user_marked).
  set (lu1 := LocalUser.set_disabled_pushed 0 None lu) in *.
  assert (Hd : disable_due lu1 = true).
  { unfold disable_due, lu1. cbn.
    destruct (Z.ltb_spec 0 (LocalUser.plan_limit_bytes lu)); [|lia].
    destruct (Z.leb_spec (LocalUser.plan_limit_bytes lu) (LocalUser.used_bytes lu));
      [reflexivity | lia]. }
  set (w1' := exec (mark_user_disabled now' owner uname)
                   (after_disable_attempts P owner uname w1)).
  assert (Hu2 : Db.select_one (user_is owner uname) (Db.local_users (db w1'))
                = Some (LocalUser.set_disabled_pushed 1 (Some now') lu)).
  { unfold w1'.
    rewrite (select_after_mark_disabled now' owner uname _ w1 lu1
               (after_disable_attempts_db P owner uname w1) Hu1).
    reflexivity. }
  assert (Hw2 : w2 = w1').
  { unfold w2, user_checks. rewrite exec_seq. unfold exec at 2.
    rewrite (try_disable_run P now' owner uname w1 lu1 Hu1), Hd. cbn [snd].
    fold w1'. unfold exec.
    rewrite (try_enable_run P owner uname w1' _ Hu2).
    rewrite over_quota_excludes_enable; [reflexivity|].
    unfold over_quota. cbn.
    destruct (Z.ltb_spec 0 (LocalUser.plan_limit_bytes lu)); [|lia].
    destruct (Z.leb_spec (LocalUser.plan_limit_bytes lu) (LocalUser.used_bytes lu));
      [reflexivity | lia]. }
  split; [now rewrite Hw1|]. split; [now rewrite Hw1|].
  split; [exact Hu1|]. split; [now rewrite Hw2|].
  now rewrite Hw2.
Qed.

End AgentChecks.

(** ** usage_sync.py: what the polling loop never does *)

Section LoopInvariants.
Import UsageSync.
Local Open Scope Z_scope.
Variable P : Panels.

(** A user row after some polling: the same user with the same plan, and
    a usage counter that has not gone down. *)
Definition user_evolves (r r' : LocalUser.t) : Prop :=
  LocalUser.owner_id r' = LocalUser.owner_id r
  /\ LocalUser.username r' = LocalUser.username r
  /\ LocalUser.plan_limit_bytes r' = LocalUser.plan_limit_bytes r
  /\ LocalUser.expire_at r' = LocalUser.expire_at r
  /\ (LocalUser.used_bytes r <= COUNTER_MAX ->
      LocalUser.used_bytes r <= LocalUser.used_bytes r' <= COUNTER_MAX).

Definition agent_evolves (a a' : Agent.t) : Prop :=
  Agent.telegram_user_id a' = Agent.telegram_user_id a
  /\ Agent.plan_limit_bytes a' = Agent.plan_limit_bytes a
  /\ Agent.expire_at a' = Agent.expire_at a
  /\ Agent.active a' = Agent.active a
  /\ (Agent.total_used_bytes a <= COUNTER_MAX ->
      Agent.total_used_bytes a <= Agent.total_used_bytes a' <= COUNTER_MAX).

Definition link_evolves (l l' : Link.t) : Prop :=
  Link.id l' = Link.id l
  /\ Link.owner_id l' = Link.owner_id l
  /\ Link.local_username l' = Link.local_username l
  /\ Link.panel_id l' = Link.panel_id l
  /\ Link.remote_username l' = Link.remote_username l.

Definition evolves (d d' : Db.t) : Prop :=
  Forall2 user_evolves (Db.local_users d) (Db.local_users d')
  /\ Forall2 agent_evolves (Db.agents d) (Db.agents d')
  /\ Forall2 link_evolves (Db.local_user_panel_links d)
                          (Db.local_user_panel_links d')
  /\ Db.panels d' = Db.panels d
  /\ Db.agent_panels d' = Db.agent_panels d
  /\ Db.app_users d' = Db.app_users d.

Lemma Forall2_same {A} (R : A -> A -> Prop) l :
  (forall x, R x x) -> Forall2 R l l.
Proof. intros H. induction l; constructor; auto. Qed.

Lemma Forall2_chain {A} (R : A -> A -> Prop) :
  (forall x y z, R x y -> R y z -> R x z) ->
  forall l1 l2 l3, Forall2 R l1 l2 -> Forall2 R l2 l3 -> Forall2 R l1 l3.
Proof.
  intros Ht l1 l2 l3 H12. revert l3.
  induction H12; intros l3 H23; inversion H23; subst; constructor; eauto.
Qed.

Lemma Forall2_update_where {A} (R : A -> A -> Prop) cond set rows :
  (forall r, R r r) -> (forall r, R r (set r)) ->
  Forall2 R rows (Db.update_where cond set rows).
Proof.
  intros Hr Hs. unfold Db.update_where.
  induction rows as [|r rows IH]; simpl; constructor; auto.
  destruct (cond r); auto.
Qed.

Lemma user_evolves_refl r : user_evolves r r.
Proof. unfold user_evolves. do 4 (split; [reflexivity|]). intros; lia. Qed.

Lemma agent_evolves_refl a : agent_evolves a a.
Proof. unfold agent_evolves. do 4 (split; [reflexivity|]). intros; lia. Qed.

Lemma link_evolves_refl l : link_evolves l l.
Proof. unfold link_evolves. repeat split; auto. Qed.

Lemma user_evolves_trans x y z :
  user_evolves x y -> user_evolves y z -> user_evolves x z.
Proof.
  unfold user_evolves. intros (A1 & A2 & A3 & A4 & A5) (B1 & B2 & B3 & B4 & B5).
  do 4 (split; [congruence|]).
  intros H. specialize (A5 H).
  assert (Hy : LocalUser.used_bytes y <= COUNTER_MAX) by lia.
  specialize (B5 Hy). lia.
Qed.

Lemma agent_evolves_trans x y z :
  agent_evolves x y -> agent_evolves y z -> agent_evolves x z.
Proof.
  unfold agent_evolves. intros (A1 & A2 & A3 & A4 & A5) (B1 & B2 & B3 & B4 & B5).
  do 4 (split; [congruence|]).
  intros H. specialize (A5 H).
  assert (Hy : Agent.total_used_bytes y <= COUNTER_MAX) by lia.
  specialize (B5 Hy). lia.
Qed.

Lemma link_evolves_trans x y z :
  link_evolves x y -> link_evolves y z -> link_evolves x z.
Proof.
  unfold link_evolves. intros (A1 & A2 & A3 & A4 & A5) (B1 & B2 & B3 & B4 & B5).
  repeat split; congruence.
Qed.

Lemma user_evolves_flag v t r :
  user_evolves r (LocalUser.set_disabled_pushed v t r).
Proof.
  unfold user_evolves. simpl. do 4 (split; [reflexivity|]). intros; lia.
Qed.

Lemma agent_evolves_flag v t a :
  agent_evolves a (Agent.set_disabled_pushed v t a).
Proof.
  unfold agent_evolves. simpl. do 4 (split; [reflexivity|]). intros; lia.
Qed.

Lemma credit_grows delta x :
  0 < delta -> x <= COUNTER_MAX -> x <= credit delta x <= COUNTER_MAX.
Proof. unfold credit. lia. Qed.

Lemma user_evolves_credit delta r :
  0 < delta ->
  user_evolves r (LocalUser.set_used_bytes
                    (credit delta (LocalUser.used_bytes r)) r).
Proof.
  intros Hd. unfold user_evolves. simpl. do 4 (split; [reflexivity|]).
  now apply credit_grows.
Qed.

Lemma agent_evolves_credit delta a :
  0 < delta ->
  agent_evolves a (Agent.set_total_used_bytes
                     (credit delta (Agent.total_used_bytes a)) a).
Proof.
  intros Hd. unfold agent_evolves. simpl. do 4 (split; [reflexivity|]).
  now apply credit_grows.
Qed.

Lemma link_evolves_baseline v l :
  link_evolves l (Link.set_last_used_traffic v l).
Proof. unfold link_evolves. simpl. repeat split. Qed.

Lemma evolves_refl d : evolves d d.
Proof.
  unfold evolves. repeat split; auto.
  - apply Forall2_same, user_evolves_refl.
  - apply Forall2_same, agent_evolves_refl.
  - apply Forall2_same, link_evolves_refl.
Qed.

Lemma evolves_trans d1 d2 d3 : evolves d1 d2 -> evolves d2 d3 -> evolves d1 d3.
Proof.
  unfold evolves.
  intros (A1 & A2 & A3 & A4 & A5 & A6) (B1 & B2 & B3 & B4 & B5 & B6).
  repeat split; try congruence.
  - exact (Forall2_chain _ user_evolves_trans _ _ _ A1 B1).
  - exact (Forall2_chain _ agent_evolves_trans _ _ _ A2 B2).
  - exact (Forall2_chain _ link_evolves_trans _ _ _ A3 B3).
Qed.

(** A computation under which the database only evolves. *)
Definition evolving {A} (c : M A) : Prop :=
  forall w, evolves (db w) (db (snd (c w))).

Lemma evolving_keeps_db {A} (c : M A) : keeps_db c -> evolving c.
Proof. intros H w. rewrite H. apply evolves_refl. Qed.

Lemma evolving_bind {A B} (c : M A) (k : A -> M B) :
  evolving c -> (forall x, evolving (k x)) -> evolving (bind c k).
Proof.
  intros Hc Hk w. rewrite bind_run.
  exact (evolves_trans _ _ _ (Hc w) (Hk _ _)).
Qed.

Lemma evolving_for_each {A} (l : list A) (body : A -> M unit) :
  (forall x, evolving (body x)) -> evolving (for_each l body).
Proof.
  intros Hb. induction l as [|x l IH]; simpl.
  - intros w. apply evolves_refl.
  - apply evolving_bind; auto.
Qed.

Lemma evolving_user_flags cond v t :
  evolving (execute (fun d =>
    Db.with_local_users
      (Db.update_where cond (LocalUser.set_disabled_pushed v t)
                       (Db.local_users d)) d)).
Proof.
  intros w. unfold evolves. simpl.
  split; [|split; [|split; [|auto]]].
  - apply Forall2_update_where;
      [apply user_evolves_refl | apply user_evolves_flag].
  - apply Forall2_same, agent_evolves_refl.
  - apply Forall2_same, link_evolves_refl.
Qed.

Lemma evolving_agent_flags cond v t :
  evolving (execute (fun d =>
    Db.with_agents
      (Db.update_where cond (Agent.set_disabled_pushed v t) (Db.agents d)) d)).
Proof.
  intros w. unfold evolves. simpl.
  split; [|split; [|split; [|auto]]].
  - apply Forall2_same, user_evolves_refl.
  - apply Forall2_update_where;
      [apply agent_evolves_refl | apply agent_evolves_flag].
  - apply Forall2_same, link_evolves_refl.
Qed.

Lemma evolving_add_usage owner uname delta :
  evolving (add_usage owner uname delta).
Proof.
  unfold add_usage. destruct (Z.leb_spec delta 0) as [Hle|Hlt].
  - intros w. apply evolves_refl.
  - apply evolving_bind; [|intros _]; intros w; unfold evolves; simpl;
      (split; [|split; [|split; [|auto]]]).
    + apply Forall2_update_where; [apply user_evolves_refl|].
      intros r. now apply user_evolves_credit.
    + apply Forall2_same, agent_evolves_refl.
    + apply Forall2_same, link_evolves_refl.
    + apply Forall2_same, user_evolves_refl.
    + apply Forall2_update_where; [apply agent_evolves_refl|].
      intros r. now apply agent_evolves_credit.
    + apply Forall2_same, link_evolves_refl.
Qed.

Lemma evolving_update_last link_id used : evolving (update_last link_id used).
Proof.
  intros w. unfold evolves. simpl.
  split; [|split; [|split; [|auto]]].
  - apply Forall2_same, user_evolves_refl.
  - apply Forall2_same, agent_evolves_refl.
  - apply Forall2_update_where;
      [apply link_evolves_refl | apply link_evolves_baseline].
Qed.

Lemma evolving_try_disable_user now owner uname :
  evolving (try_disable_if_user_exceeded P now owner uname).
Proof.
  unfold try_disable_if_user_exceeded.
  apply evolving_bind; [apply evolving_keeps_db, keeps_db_query|].
  intros [lu| ]; [|apply evolving_keeps_db, keeps_db_ret].
  destruct (_ && _); [|apply evolving_keeps_db, keeps_db_ret].
  apply evolving_bind; [apply evolving_keeps_db, keeps_db_query|].
  intros links. apply evolving_bind.
  - apply evolving_keeps_db, keeps_db_for_each, keeps_db_disable_link.
  - intros _. apply evolving_user_flags.
Qed.

Lemma evolving_try_enable_user owner uname :
  evolving (try_enable_if_user_ok P owner uname).
Proof.
  unfold try_enable_if_user_ok.
  apply evolving_bind; [apply evolving_keeps_db, keeps_db_query|].
  intros [lu| ]; [|apply evolving_keeps_db, keeps_db_ret].
  destruct (_ && _); [|apply evolving_keeps_db, keeps_db_ret].
  apply evolving_bind; [apply evolving_keeps_db, keeps_db_query|].
  intros links. apply evolving_bind.
  - apply evolving_keeps_db, keeps_db_for_each, keeps_db_enable_link.
  - intros _. apply evolving_user_flags.
Qed.

Lemma evolving_try_disable_agent now owner :
  evolving (try_disable_agent_if_exceeded P now owner).
Proof.
  unfold try_disable_agent_if_exceeded.
  apply evolving_bind; [apply evolving_keeps_db, keeps_db_query|].
  intros [ag| ]; [|apply evolving_keeps_db, keeps_db_ret].
  destruct (Agent.active ag =? 0); [apply evolving_keeps_db, keeps_db_ret|].
  apply evolving_bind; [apply evolving_keeps_db, keeps_db_agent_over_limit|].
  intros over. destruct (_ && _); [|apply evolving_keeps_db, keeps_db_ret].
  apply evolving_bind; [apply evolving_keeps_db, keeps_db_query|].
  intros usernames. apply evolving_bind.
  - apply evolving_keeps_db, keeps_db_for_each. intros uname.
    apply keeps_db_bind; [apply keeps_db_query|]. intros links.
    apply keeps_db_bind; [apply keeps_db_for_each, keeps_db_disable_link|].
    intros _. apply keeps_db_assigned_disable.
  - intros _. apply evolving_bind; [apply evolving_user_flags|].
    intros _. apply evolving_agent_flags.
Qed.

Lemma evolving_try_enable_agent now owner :
  evolving (try_enable_agent_if_ok P now owner).
Proof.
  unfold try_enable_agent_if_ok.
  apply evolving_bind; [apply evolving_keeps_db, keeps_db_query|].
  intros [ag| ]; [|apply evolving_keeps_db, keeps_db_ret].
  destruct (Agent.active ag =? 0); [apply evolving_keeps_db, keeps_db_ret|].
  destruct (negb _); [apply evolving_keeps_db, keeps_db_ret|].
  apply evolving_bind; [apply evolving_keeps_db, keeps_db_agent_over_limit|].
  intros over. destruct (_ && _); [|apply evolving_keeps_db, keeps_db_ret].
  apply evolving_bind; [apply evolving_keeps_db, keeps_db_query|].
  intros usernames. apply evolving_bind.
  - apply evolving_keeps_db, keeps_db_for_each. intros uname.
    apply keeps_db_bind; [apply keeps_db_query|]. intros links.
    apply keeps_db_bind; [apply keeps_db_for_each, keeps_db_enable_link|].
    intros _. apply keeps_db_assigned_enable.
  - intros _. apply evolving_bind; [apply evolving_user_flags|].
    intros _. apply evolving_agent_flags.
Qed.

Lemma evolving_sync_row now row : evolving (sync_row P now row).
Proof.
  unfold sync_row.
  apply evolving_bind;
    [apply evolving_keeps_db, keeps_db_fetch_used_traffic|].
  intros [[used| ] err]; [|apply evolving_keeps_db, keeps_db_ret].
  destruct (used <? _).
  - apply evolving_bind; [apply evolving_update_last|].
    intros _. apply evolving_keeps_db, keeps_db_ret.
  - apply evolving_bind.
    + destruct (0 <? _); [|apply evolving_keeps_db, keeps_db_ret].
      apply evolving_bind; [apply evolving_add_usage|].
      intros _. apply evolving_update_last.
    + intros _. apply evolving_bind; [apply evolving_try_disable_user|].
      intros _. apply evolving_bind; [apply evolving_try_enable_user|].
      intros _. apply evolving_keeps_db, keeps_db_ret.
Qed.

Lemma evolving_sync_rows now rows : forall seen,
  evolving (sync_rows P now rows seen).
Proof.
  induction rows as [|row rest IH]; intros seen; simpl.
  - apply evolving_keeps_db, keeps_db_ret.
  - apply evolving_bind; [apply evolving_sync_row|].
    intros [owner| ]; apply IH.
Qed.

Lemma evolving_cycle now : evolving (cycle P now).
Proof.
  unfold cycle.
  apply evolving_bind; [apply evolving_keeps_db, keeps_db_query|].
  intros links. apply evolving_bind; [apply evolving_sync_rows|].
  intros owners. apply evolving_for_each. intros owner.
  apply evolving_bind; [apply evolving_try_disable_agent|].
  intros _. apply evolving_try_enable_agent.
Qed.

Lemma evolving_loop times : evolving (loop P times).
Proof.
  induction times as [|now rest IH]; simpl.
  - apply evolving_keeps_db, keeps_db_ret.
  - apply evolving_bind; [apply evolving_cycle | intros _; exact IH].
Qed.

(** X9.  Whatever the panels answer, the polling loop creates, deletes and
    reorders no row.  It leaves [panels], [agent_panels] and [app_users]
    alone; of a link row it changes the baseline only; of a user row and
    of an agent row it changes the push flag and the usage counter only,
    and a counter that is at most 2^64 - 1 never goes down and stays at
    most 2^64 - 1. *)
Theorem loop_never_lowers_usage times w :
  let d := db w in
  let d' := db (exec (loop P times) w) in
  Forall2 user_evolves (Db.local_users d) (Db.local_users d')
  /\ Forall2 agent_evolves (Db.agents d) (Db.agents d')
  /\ Forall2 link_evolves (Db.local_user_panel_links d)
                          (Db.local_user_panel_links d')
  /\ Db.panels d' = Db.panels d
  /\ Db.agent_panels d' = Db.agent_panels d
  /\ Db.app_users d' = Db.app_users d.
Proof. exact (evolving_loop times w). Qed.

End LoopInvariants.

(** ** app.py: answers of the subscription endpoint *)

Section Requests.
Import App.
Local Open Scope Z_scope.
Variable lower : str -> str.
Variable P : Panels.
Variable ADMIN_IDS : list Z.
Variable collect_links :
  World -> list Mapping.t -> str -> bool
  -> list str * list str * option UserObj.
Variable limit_reached_body : Z -> str -> Z -> Z -> str.

Local Abbreviation unified_links :=
  (App.unified_links lower P ADMIN_IDS collect_links limit_reached_body).
Local Abbreviation agent_gate := (App.agent_gate P ADMIN_IDS).
Local Abbreviation user_gate := (App.user_gate P ADMIN_IDS).
Local Abbreviation ids_of := (App.ids_of ADMIN_IDS).

(** X10.  A request whose user name and key match no [app_users] row, or
    match a row whose owner id is 0, is answered 404.  A request whose key
    is known but whose owner has no local user of that name is answered
    with an empty plain-text body, or with the page when it accepts
    [text/html].  None of these writes to the database or calls a panel. *)
Theorem unknown_subscription_is_answered_without_effects
        now want_html local_username app_key w :
  (eval (get_owner_id local_username app_key) w = None ->
   unified_links now want_html local_username app_key w = (Abort404, w))
  /\ (eval (get_owner_id local_username app_key) w = Some 0 ->
      unified_links now want_html local_username app_key w = (Abort404, w))
  /\ (forall owner_id,
        eval (get_owner_id local_username app_key) w = Some owner_id ->
        owner_id <> 0 ->
        eval (get_local_user ADMIN_IDS owner_id local_username) w = None ->
        unified_links now want_html local_username app_key w
        = (if want_html then Html local_username app_key None None
           else Plain [] None, w)).
Proof.
  unfold eval. split; [|split].
  - intros H. unfold App.unified_links. rewrite bind_run, H. reflexivity.
  - intros H. unfold App.unified_links. rewrite bind_run, H. reflexivity.
  - intros owner_id H Hne Hlu. unfold App.unified_links.
    rewrite bind_run, H.
    change (snd (get_owner_id local_username app_key w)) with w.
    destruct (Z.eqb_spec owner_id 0); [contradiction|].
    rewrite bind_run, Hlu. now destruct want_html.
Qed.

Lemma agent_gate_open now owner_id w :
  eval (agent_gate now owner_id) w = false ->
  agent_gate now owner_id w = (false, w).
Proof.
  unfold eval, App.agent_gate. rewrite bind_run.
  change (snd (App.get_agent ADMIN_IDS owner_id w)) with w.
  destruct (fst (App.get_agent ADMIN_IDS owner_id w)) as [ag| ]; [|reflexivity].
  rewrite bind_run.
  set (exceeded := if 0 <? Agent.plan_limit_bytes ag
                   then bind (get_agent_total_used ADMIN_IDS owner_id)
                          (fun used_total =>
                             ret (Agent.plan_limit_bytes ag <=? used_total))
                   else ret false).
  assert (Hs : snd (exceeded w) = w).
  { unfold exceeded. destruct (0 <? Agent.plan_limit_bytes ag); [|reflexivity].
    now rewrite bind_run. }
  rewrite Hs. destruct (_ || _); [|reflexivity].
  rewrite bind_run. cbn [fst ret]. discriminate.
Qed.

Lemma keeps_ledger_agent_gate now owner_id :
  keeps_ledger (agent_gate now owner_id).
Proof.
  unfold App.agent_gate.
  apply keeps_ledger_bind; [apply keeps_db_ledger, keeps_db_query|].
  intros [ag| ]; [|apply keeps_db_ledger, keeps_db_ret].
  apply keeps_ledger_bind.
  - destruct (0 <? _); [|apply keeps_db_ledger, keeps_db_ret].
    apply keeps_db_ledger, keeps_db_bind; [apply keeps_db_query|].
    intros; apply keeps_db_ret.
  - intros exceeded. destruct (_ || _); [|apply keeps_db_ledger, keeps_db_ret].
    apply keeps_ledger_bind; [|intros; apply keeps_db_ledger, keeps_db_ret].
    destruct (negb _); [|apply keeps_db_ledger, keeps_db_ret].
    apply keeps_ledger_bind; [apply keeps_db_ledger, keeps_db_query|].
    intros links. apply keeps_ledger_bind.
    + apply keeps_db_ledger, keeps_db_for_each, keeps_db_disable_agent_link.
    + intros _. apply keeps_ledger_agent_flags.
Qed.

(** The mappings the user-level block works on: the user's link rows or,
    when there is none, every panel of the owner under the local name. *)
Definition mappings_for (owner_id : Z) (local_username : str) (w : World)
  : list Mapping.t :=
  match eval (list_mapped_links ADMIN_IDS owner_id local_username) w with
  | [] => mappings_of_panels local_username
            (eval (list_all_panels ADMIN_IDS owner_id) w)
  | links => links
  end.

(** The world right after the disable attempts of the user-level block. *)
Definition after_mapping_attempts (owner_id : Z) (local_username : str)
           (w : World) : World :=
  exec (for_each (mappings_for owner_id local_username w)
                 (disable_mapping P)) w.

Lemma after_mapping_attempts_db owner_id local_username w :
  db (after_mapping_attempts owner_id local_username w) = db w.
Proof.
  unfold after_mapping_attempts, exec.
  apply keeps_db_for_each, keeps_db_disable_mapping.
Qed.

Lemma user_gate_run now owner_id local_username lu w :
  user_gate now owner_id local_username lu w
  = (over_quota (LocalUser.plan_limit_bytes lu) (LocalUser.used_bytes lu),
     if over_quota (LocalUser.plan_limit_bytes lu) (LocalUser.used_bytes lu)
        && negb (truthy (LocalUser.disabled_pushed lu))
     then exec (mark_user_disabled ADMIN_IDS now owner_id local_username)
               (after_mapping_attempts owner_id local_username w)
     else w).
Proof.
  unfold App.user_gate.
  fold (over_quota (LocalUser.plan_limit_bytes lu) (LocalUser.used_bytes lu)).
  destruct (over_quota _ _); [|reflexivity].
  rewrite bind_run. cbn [andb].
  destruct (negb (truthy (LocalUser.disabled_pushed lu))); [|reflexivity].
  rewrite !bind_run.
  change (snd (list_mapped_links ADMIN_IDS owner_id local_username w)) with w.
  unfold after_mapping_attempts, mappings_for, eval, exec.
  destruct (fst (list_mapped_links ADMIN_IDS owner_id local_username w))
    as [|m ms].
  - rewrite bind_run. reflexivity.
  - reflexivity.
Qed.

Lemma keeps_ledger_user_gate now owner_id local_username lu :
  keeps_ledger (user_gate now owner_id local_username lu).
Proof.
  intros w. rewrite user_gate_run. cbn [snd].
  destruct (_ && _); [|reflexivity].
  unfold exec.
  transitivity (ledger (db (after_mapping_attempts owner_id local_username w))).
  - exact (keeps_ledger_user_flags _ _ _ _).
  - now rewrite after_mapping_attempts_db.
Qed.

Lemma evolving_agent_gate now owner_id : evolving (agent_gate now owner_id).
Proof.
  unfold App.agent_gate.
  apply evolving_bind; [apply evolving_keeps_db, keeps_db_query|].
  intros [ag| ]; [|apply evolving_keeps_db, keeps_db_ret].
  apply evolving_bind.
  - destruct (0 <? _); [|apply evolving_keeps_db, keeps_db_ret].
    apply evolving_keeps_db, keeps_db_bind; [apply keeps_db_query|].
    intros; apply keeps_db_ret.
  - intros exceeded. destruct (_ || _); [|apply evolving_keeps_db, keeps_db_ret].
    apply evolving_bind; [|intros; apply evolving_keeps_db, keeps_db_ret].
    destruct (negb _); [|apply evolving_keeps_db, keeps_db_ret].
    apply evolving_bind; [apply evolving_keeps_db, keeps_db_query|].
    intros links. apply evolving_bind.
    + apply evolving_keeps_db, keeps_db_for_each, keeps_db_disable_agent_link.
    + intros _. apply evolving_agent_flags.
Qed.

Lemma evolving_user_gate now owner_id local_username lu :
  evolving (user_gate now owner_id local_username lu).
Proof.
  intros w. rewrite user_gate_run. cbn [snd].
  destruct (_ && _); [|apply evolves_refl].
  apply evolves_trans
    with (db (after_mapping_attempts owner_id local_username w)).
  - rewrite after_mapping_attempts_db. apply evolves_refl.
  - exact (evolving_user_flags _ _ _ _).
Qed.

(** The run of [unified_links] from the agent gate on keeps what the two
    gates keep. *)
Lemma from_gate_frame now want_html owner_id local_username app_key lu w :
  let w' := snd (from_gate lower P ADMIN_IDS collect_links limit_reached_body
                   now want_html owner_id local_username app_key lu w) in
  ledger (db w') = ledger (db w) /\ evolves (db w) (db w').
Proof.
  unfold from_gate. rewrite bind_run.
  pose proof (keeps_ledger_agent_gate now owner_id w) as L1.
  pose proof (evolving_agent_gate now owner_id w) as E1.
  set (w1 := snd (agent_gate now owner_id w)) in *.
  destruct (fst (agent_gate now owner_id w) && negb want_html);
    [split; assumption|].
  rewrite bind_run.
  pose proof (keeps_ledger_user_gate now owner_id local_username lu w1) as L2.
  pose proof (evolving_user_gate now owner_id local_username lu w1) as E2.
  set (w2 := snd (user_gate now owner_id local_username lu w1)) in *.
  destruct (fst (user_gate now owner_id local_username lu w1) && negb want_html).
  - cbn [snd ret]. split; [congruence | exact (evolves_trans _ _ _ E1 E2)].
  - rewrite aggregate_reads_only.
    split; [congruence | exact (evolves_trans _ _ _ E1 E2)].
Qed.

(** X11.  No subscription request, whatever it is for and however it is
    answered, creates or deletes a row or changes a usage counter, a
    baseline, a plan or a panel row: the push flags are the only columns
    the endpoint writes. *)
Theorem subscription_requests_write_push_flags_only
        now want_html local_username app_key w :
  let w' := exec (unified_links now want_html local_username app_key) w in
  ledger (db w') = ledger (db w)
  /\ Db.agent_panels (db w') = Db.agent_panels (db w)
  /\ Db.app_users (db w') = Db.app_users (db w).
Proof.
  assert (H : let w' := exec (unified_links now want_html local_username
                                app_key) w in
              ledger (db w') = ledger (db w) /\ evolves (db w) (db w')).
  { unfold exec, App.unified_links. rewrite bind_run.
    change (snd (get_owner_id local_username app_key w)) with w.
    destruct (fst (get_owner_id local_username app_key w)) as [owner_id| ];
      [|split; [reflexivity | apply evolves_refl]].
    destruct (owner_id =? 0); [split; [reflexivity | apply evolves_refl]|].
    rewrite bind_run.
    change (snd (get_local_user ADMIN_IDS owner_id local_username w)) with w.
    destruct (fst (get_local_user ADMIN_IDS owner_id local_username w))
      as [lu| ].
    - apply (from_gate_frame now want_html owner_id local_username app_key lu w).
    - destruct want_html; (split; [reflexivity | apply evolves_refl]). }
  cbv zeta in *. destruct H as [L (_ & _ & _ & _ & A & B)]. auto.
Qed.

(** The events of the disable attempt for one mapping. *)
Definition mapping_attempt (m : Mapping.t) (es : list Event) : Prop :=
  disable_attempt (Mapping.panel_type m) (Mapping.panel_url m)
                  (Mapping.access_token m) (Mapping.remote_username m) es.

Lemma disable_mapping_run m w :
  snd (disable_mapping P m w)
  = snd (App.disable_remote P (Mapping.panel_type m) (Mapping.panel_url m)
           (Mapping.access_token m) (Mapping.remote_username m) w).
Proof. unfold disable_mapping. now rewrite bind_run. Qed.

Lemma attempts_per_mapping ms w :
  exists chunks,
    calls (snd (for_each ms (disable_mapping P) w)) = calls w ++ concat chunks
    /\ Forall2 mapping_attempt ms chunks.
Proof.
  revert w. induction ms as [|m ms IH]; intros w.
  - exists []. simpl. rewrite app_nil_r. split; [reflexivity | constructor].
  - rewrite for_each_cons, disable_mapping_run.
    destruct (app_disable_remote_attempt P (Mapping.panel_type m)
                (Mapping.panel_url m) (Mapping.access_token m)
                (Mapping.remote_username m) w) as [es [Hc Ha]].
    destruct (IH (snd (App.disable_remote P (Mapping.panel_type m)
                         (Mapping.panel_url m) (Mapping.access_token m)
                         (Mapping.remote_username m) w)))
      as [chunks [Hcs Hf]].
    exists (es :: chunks). split; [|now constructor].
    rewrite Hcs, Hc. simpl. now rewrite app_assoc.
Qed.

Lemma over_quota_spec limit used :
  over_quota limit used = true <-> 0 < limit /\ limit <= used.
Proof.
  unfold over_quota. rewrite andb_true_iff, Z.ltb_lt, Z.leb_le. reflexivity.
Qed.

(** X12.  A plain-text request for a known user who is over quota and
    whose agent does not block is answered with the configured
    placeholder entry and the headers limit, usage, remaining 0 and pushed
    1.  When the user's push flag was 0 the request first issues one
    disable attempt per link of the user, or per panel of the owner under
    the local name when the user has no link, and then sets the flag,
    whatever the attempts answered; when the flag was set the request
    writes nothing and calls no panel.  A request that accepts [text/html]
    has the same effects. *)
Theorem over_quota_user_gets_the_placeholder
        now local_username app_key w owner_id lu :
  known_user ADMIN_IDS w local_username app_key owner_id lu ->
  eval (agent_gate now owner_id) w = false ->
  0 < LocalUser.plan_limit_bytes lu ->
  LocalUser.plan_limit_bytes lu <= LocalUser.used_bytes lu ->
  let w' := exec (unified_links now false local_username app_key) w in
  eval (unified_links now false local_username app_key) w
  = Plain (limit_reached_body owner_id local_username
             (LocalUser.plan_limit_bytes lu) (LocalUser.used_bytes lu))
          (Some (Build_Headers (LocalUser.plan_limit_bytes lu)
                               (LocalUser.used_bytes lu) (Some 0) 1))
  /\ (LocalUser.disabled_pushed lu <> 0 -> w' = w)
  /\ (LocalUser.disabled_pushed lu = 0 ->
      (exists chunks,
         calls w' = calls w ++ concat chunks
         /\ Forall2 mapping_attempt
              (mappings_for owner_id local_username w) chunks)
      /\ Db.select_one (user_in (ids_of owner_id) local_username)
                       (Db.local_users (db w'))
         = Some (LocalUser.set_disabled_pushed 1 (Some now) lu))
  /\ exec (unified_links now true local_username app_key) w = w'.
Proof.
  intros Hk Hopen Hl Hu w'.
  assert (Hov : over_quota (LocalUser.plan_limit_bytes lu)
                           (LocalUser.used_bytes lu) = true)
    by (apply over_quota_spec; auto).
  assert (Hrun : forall html,
            unified_links now html local_username app_key w
            = bind (user_gate now owner_id local_username lu)
                (fun limit_reached =>
                   if limit_reached && negb html then
                     ret (limit_reached_response limit_reached_body owner_id
                            local_username lu)
                   else
                     aggregate lower ADMIN_IDS collect_links html owner_id
                       local_username app_key lu false limit_reached) w).
  { intros html.
    rewrite (unified_links_known_user lower P ADMIN_IDS collect_links
               limit_reached_body now html local_username app_key w
               owner_id lu Hk).
    unfold from_gate. rewrite bind_run, (agent_gate_open now owner_id w Hopen).
    reflexivity. }
  assert (Hw' : w' = snd (user_gate now owner_id local_username lu w)).
  { unfold w', exec. rewrite Hrun, bind_run, user_gate_run, Hov. reflexivity. }
  split; [|split; [|split]].
  - unfold eval. rewrite Hrun, bind_run, user_gate_run, Hov. reflexivity.
  - intros Hp. rewrite Hw', user_gate_run, Hov. unfold truthy.
    now destruct (Z.eqb_spec (LocalUser.disabled_pushed lu) 0).
  - intros Hp.
    assert (Hw2 : w' = exec (mark_user_disabled ADMIN_IDS now owner_id
                               local_username)
                            (after_mapping_attempts owner_id local_username w)).
    { rewrite Hw', user_gate_run, Hov. unfold truthy. now rewrite Hp. }
    split.
    + rewrite Hw2. unfold exec, App.mark_user_disabled, execute.
      cbn [snd calls]. apply attempts_per_mapping.
    + rewrite Hw2. unfold exec, App.mark_user_disabled, execute.
      cbn [snd db Db.local_users Db.with_local_users].
      rewrite after_mapping_attempts_db.
      destruct Hk as (_ & _ & Hsel).
      rewrite select_one_update_where by reflexivity.
      rewrite Hsel. cbn [option_map].
      now rewrite (selected_matches _ _ _ Hsel).
  - unfold exec. rewrite Hrun, bind_run, user_gate_run, Hov.
    cbn [fst snd andb negb]. rewrite aggregate_reads_only.
    rewrite Hw', user_gate_run, Hov. reflexivity.
Qed.

(** X13.  A request for a known user who is within quota and whose agent
    does not block only reads.  The plain-text answer is the merged links
    of the user's mappings (or of all panels of the owner when the user has
    none), one per line, or the fetch errors as comment lines when there is
    no link, with the headers limit, usage, remaining (limit - usage, or
    unlimited when the limit is not positive) and the stored push flag. *)
Theorem served_request_only_reads now local_username app_key w owner_id lu :
  known_user ADMIN_IDS w local_username app_key owner_id lu ->
  eval (agent_gate now owner_id) w = false ->
  over_quota (LocalUser.plan_limit_bytes lu) (LocalUser.used_bytes lu) = false ->
  let fetched want_html :=
    collect_links w (mappings_for owner_id local_username w)
                  local_username want_html in
  unified_links now false local_username app_key w
  = (Plain (body_of (filter_dedupe lower (fst (fst (fetched false))))
                    (snd (fst (fetched false))))
           (Some (Build_Headers
                    (LocalUser.plan_limit_bytes lu) (LocalUser.used_bytes lu)
                    (if 0 <? LocalUser.plan_limit_bytes lu
                     then Some (LocalUser.plan_limit_bytes lu
                                - LocalUser.used_bytes lu)
                     else None)
                    (LocalUser.disabled_pushed lu))), w)
  /\ unified_links now true local_username app_key w
     = (Html local_username app_key (Some lu) (snd (fetched true)), w).
Proof.
  intros Hk Hopen Hov fetched.
  assert (Hrun : forall html,
            unified_links now html local_username app_key w
            = aggregate lower ADMIN_IDS collect_links html owner_id
                local_username app_key lu false false w).
  { intros html.
    rewrite (unified_links_known_user lower P ADMIN_IDS collect_links
               limit_reached_body now html local_username app_key w
               owner_id lu Hk).
    unfold from_gate. rewrite bind_run, (agent_gate_open now owner_id w Hopen).
    cbn [fst snd andb]. rewrite bind_run, user_gate_run, Hov. reflexivity. }
  assert (Hrem : (if 0 <=? (if 0 <? LocalUser.plan_limit_bytes lu
                             then LocalUser.plan_limit_bytes lu
                                  - LocalUser.used_bytes lu
                             else -1)
                  then Some (Z.max 0
                               (if 0 <? LocalUser.plan_limit_bytes lu
                                then LocalUser.plan_limit_bytes lu
                                     - LocalUser.used_bytes lu
                                else -1))
                  else None)
                 = (if 0 <? LocalUser.plan_limit_bytes lu
                    then Some (LocalUser.plan_limit_bytes lu
                               - LocalUser.used_bytes lu)
                    else None)).
  { unfold over_quota in Hov.
    destruct (Z.ltb_spec 0 (LocalUser.plan_limit_bytes lu)); [|reflexivity].
    cbn [andb] in Hov. apply Z.leb_gt in Hov.
    destruct (Z.leb_spec 0 (LocalUser.plan_limit_bytes lu
                            - LocalUser.used_bytes lu)); [|lia].
    f_equal. lia. }
  split.
  - rewrite Hrun. unfold aggregate. rewrite bind_run.
    change (snd (list_mapped_links ADMIN_IDS owner_id local_username w)) with w.
    cbn [negb andb]. rewrite bind_run, Hrem.
    unfold fetched, mappings_for, eval.
    destruct (fst (list_mapped_links ADMIN_IDS owner_id local_username w))
      as [|m ms].
    + rewrite bind_run.
      change (snd (list_all_panels ADMIN_IDS owner_id w)) with w.
      cbn [fst snd].
      now destruct (collect_links w _ local_username false) as [[al er] ri].
    + cbn [fst snd].
      now destruct (collect_links w _ local_username false) as [[al er] ri].
  - rewrite Hrun. unfold aggregate. rewrite bind_run.
    change (snd (list_mapped_links ADMIN_IDS owner_id local_username w)) with w.
    cbn [negb andb]. rewrite bind_run.
    unfold fetched, mappings_for, eval.
    destruct (fst (list_mapped_links ADMIN_IDS owner_id local_username w))
      as [|m ms].
    + rewrite bind_run.
      change (snd (list_all_panels ADMIN_IDS owner_id w)) with w.
      cbn [fst snd].
      now destruct (collect_links w _ local_username true) as [[al er] ri].
    + cbn [fst snd].
      now destruct (collect_links w _ local_username true) as [[al er] ri].
Qed.

End Requests.

(** ** app.py: configuration names and owner ids *)

Section Names.
Import App.

(** The number sign, which starts the name of a link. *)
Definition HASH : cp := 35%N.

Lemma after_hash_none link : ~ In HASH link -> after_hash link = None.
Proof.
  induction link as [|c t IH]; intros H; simpl; [reflexivity|].
  destruct (cp_eqb c 35%N) eqn:E.
  - exfalso. apply H. left. unfold cp_eqb in E. apply N.eqb_eq in E.
    now subst c.
  - apply IH. intros Hin. apply H. now right.
Qed.

Lemma after_hash_first pre nm :
  ~ In HASH pre -> after_hash (pre ++ HASH :: nm) = Some nm.
Proof.
  induction pre as [|c t IH]; intros H; simpl; [reflexivity|].
  destruct (cp_eqb c 35%N) eqn:E.
  - exfalso. apply H. left. unfold cp_eqb in E. apply N.eqb_eq in E.
    now subst c.
  - apply IH. intros Hin. apply H. now right.
Qed.

(** X14.  [extract_name] gives the empty name to a link without a number
    sign; otherwise the name is the canonical form of what follows the
    first number sign, so two links that differ only before it have the
    same name.  Every name it returns has at most 255 characters, does
    not start with white space, has white space only as single U+0020
    characters, and has no owner mark left in it. *)
Theorem extract_name_reads_after_first_hash :
  (forall link, ~ In HASH link -> extract_name link = [])
  /\ (forall pre nm,
        ~ In HASH pre ->
        extract_name (pre ++ HASH :: nm) = canonicalize_name nm)
  /\ (forall pre pre' nm,
        ~ In HASH pre -> ~ In HASH pre' ->
        extract_name (pre ++ HASH :: nm) = extract_name (pre' ++ HASH :: nm))
  /\ (forall link,
        (length (extract_name link) <= 255)%nat
        /\ starts_with_space (extract_name link) = false
        /\ collapsed (extract_name link) = true
        /\ ~ In OWNER_MARK (extract_name link)).
Proof.
  assert (H2 : forall pre nm, ~ In HASH pre ->
                 extract_name (pre ++ HASH :: nm) = canonicalize_name nm).
  { intros pre nm H. unfold extract_name. now rewrite after_hash_first. }
  split; [|split; [exact H2|split]].
  - intros link H. unfold extract_name. now rewrite after_hash_none.
  - intros pre pre' nm H H'. now rewrite !H2.
  - intros link. unfold extract_name.
    destruct (after_hash link) as [nm| ].
    + destruct (canonical_form nm) as (Hc & Hs & Hm & Hl). auto.
    + simpl. repeat split; auto; lia.
Qed.

End Names.

Section Owners.
Local Open Scope Z_scope.

Lemma in_ids_spec ids x : Db.in_ids ids x = true <-> In x ids.
Proof.
  unfold Db.in_ids. rewrite existsb_exists. split.
  - intros [y [Hy E]]. apply Z.eqb_eq in E. now subst y.
  - intros H. exists x. split; [assumption | apply Z.eqb_refl].
Qed.

(** X15.  [expand_owner_ids] always lists the owner itself.  An owner who
    is not an administrator is alone in the list; every administrator gets
    the same list, the administrators' ids, with no other owner in it.  So
    a lookup such as [get_local_user] of [app.py] finds the same row for
    every administrator, and never a row of an owner outside the list. *)
Theorem administrators_share_one_id_list admins :
  (forall owner, In owner (expand_owner_ids admins owner))
  /\ (forall owner, ~ In owner admins ->
                    expand_owner_ids admins owner = [owner])
  /\ (forall a b, In a admins -> In b admins ->
                  expand_owner_ids admins a = expand_owner_ids admins b)
  /\ (forall a b, In a admins -> ~ In b admins ->
                  ~ In b (expand_owner_ids admins a))
  /\ (forall a b uname w, In a admins -> In b admins ->
        App.get_local_user admins a uname w
        = App.get_local_user admins b uname w)
  /\ (forall owner uname w lu,
        eval (App.get_local_user admins owner uname) w = Some lu ->
        In (LocalUser.owner_id lu) (expand_owner_ids admins owner)
        /\ LocalUser.username lu = uname).
Proof.
  assert (Hadm : forall a, In a admins -> expand_owner_ids admins a = admins).
  { intros a Ha. unfold expand_owner_ids.
    now rewrite (proj2 (in_ids_spec admins a) Ha). }
  assert (Hnon : forall o, ~ In o admins -> expand_owner_ids admins o = [o]).
  { intros o Ho. unfold expand_owner_ids.
    destruct (Db.in_ids admins o) eqn:E; [|reflexivity].
    apply in_ids_spec in E. contradiction. }
  split; [|split; [exact Hnon|split; [|split; [|split]]]].
  - intros owner. unfold expand_owner_ids.
    destruct (Db.in_ids admins owner) eqn:E;
      [now apply in_ids_spec | now left].
  - intros a b Ha Hb. now rewrite !Hadm.
  - intros a b Ha Hb. now rewrite Hadm.
  - intros a b uname w Ha Hb. unfold App.get_local_user, App.ids_of.
    now rewrite !Hadm.
  - intros owner uname w lu H. unfold eval, App.get_local_user, query in H.
    cbn [fst] in H. apply selected_matches in H. unfold App.user_in in H.
    apply andb_true_iff in H. destruct H as [H1 H2].
    split; [now apply in_ids_spec | now apply str_eqb_eq].
Qed.

End Owners.

(** ** bot.py: resetting usage, deleting a user, changing an agent's quota *)

Section BotOperations.
Local Open Scope Z_scope.
Variable lower : str -> str.
Variable P : Panels.
Variable ADMIN_IDS : list Z.
Variable collect_links :
  World -> list App.Mapping.t -> str -> bool
  -> list str * list str * option UserObj.
Variable limit_reached_body : Z -> str -> Z -> Z -> str.

Local Abbreviation ids_of := (Bot.ids_of ADMIN_IDS).

Lemma credit_removal_frame used owner d :
  Db.local_users (Bot.credit_removal used owner d) = Db.local_users d
  /\ Db.local_user_panel_links (Bot.credit_removal used owner d)
     = Db.local_user_panel_links d
  /\ Db.panels (Bot.credit_removal used owner d) = Db.panels d
  /\ Db.agent_panels (Bot.credit_removal used owner d) = Db.agent_panels d
  /\ Db.app_users (Bot.credit_removal used owner d) = Db.app_users d.
Proof.
  unfold Bot.credit_removal. destruct owner as [o| ]; [|auto].
  destruct (0 <? used); auto.
Qed.

Lemma for_each_logged f ev rns : forall w,
  exists replies,
    length replies = length rns
    /\ for_each rns (fun rn => bind (logged f ev rn) (fun _ => ret tt)) w
       = (tt, mkWorld (db w) (calls w ++ events_of ev rns replies)).
Proof.
  induction rns as [|rn rest IH]; intros w.
  - exists []. split; [reflexivity|]. simpl. rewrite app_nil_r. now destruct w.
  - rewrite for_each_cons, bind_run.
    set (r := f (calls w) rn).
    set (w1 := mkWorld (db w) (calls w ++ [ev rn r])).
    change (logged f ev rn w) with (r, w1). cbn [fst snd ret].
    destruct (IH w1) as [replies [Hlen Hrun]].
    exists (r :: replies). split; [simpl; now rewrite Hlen|].
    rewrite Hrun. unfold events_of. simpl. now rewrite <- app_assoc.
Qed.

(** The reset calls for one link: one per piece of the remote name. *)
Definition reset_attempt (row : Db.joined) (es : list Event) : Prop :=
  let pt := Panel.panel_type (snd row) in
  let rns := Bot.remotes_of pt (Link.remote_username (fst row)) in
  exists replies,
    length replies = length rns
    /\ es = events_of (EvReset (get_api pt) (Panel.panel_url (snd row))
                               (Panel.access_token (snd row)))
                      rns replies.

Lemma reset_for_each api url tok rns w :
  exists replies,
    length replies = length rns
    /\ for_each rns (fun rn =>
         bind (api_reset_remote_user_usage P api url tok rn)
              (fun _ => ret tt)) w
       = (tt, mkWorld (db w)
                (calls w ++ events_of (EvReset api url tok) rns replies)).
Proof.
  exact (for_each_logged
           (fun cs rn => reset_remote_user_usage P cs api url tok rn)
           (EvReset api url tok) rns w).
Qed.

Lemma reset_calls_per_link rows : forall w,
  exists chunks,
    snd (for_each rows (fun row =>
           let api := get_api (Panel.panel_type (snd row)) in
           for_each (Bot.remotes_of (Panel.panel_type (snd row))
                                    (Link.remote_username (fst row)))
             (fun rn =>
                bind (api_reset_remote_user_usage P api
                        (Panel.panel_url (snd row))
                        (Panel.access_token (snd row)) rn)
                     (fun _ => ret tt))) w)
    = mkWorld (db w) (calls w ++ concat chunks)
    /\ Forall2 reset_attempt rows chunks.
Proof.
  induction rows as [|row rows IH]; intros w.
  - exists []. simpl. rewrite app_nil_r. split; [now destruct w | constructor].
  - rewrite for_each_cons. cbv beta zeta.
    destruct (reset_for_each (get_api (Panel.panel_type (snd row)))
                (Panel.panel_url (snd row)) (Panel.access_token (snd row))
                (Bot.remotes_of (Panel.panel_type (snd row))
                                (Link.remote_username (fst row))) w)
      as [replies [Hlen Hrun]].
    rewrite Hrun. cbn [snd].
    match goal with
    | |- context [for_each rows ?body ?w1] =>
        destruct (IH w1) as [chunks [Hcs Hf]]
    end.
    eexists (_ :: chunks). split.
    + cbv beta zeta in Hcs. rewrite Hcs. cbn [db calls concat].
      now rewrite <- app_assoc.
    + constructor; [|exact Hf]. exists replies. split; [exact Hlen | reflexivity].
Qed.

Lemma used_bytes_after_reset owner_id username d o r :
  Db.select_one (UsageSync.user_is o username) (Db.local_users d) = Some r ->
  In o (ids_of owner_id) ->
  used_bytes_of (Bot.reset_used_tx ADMIN_IDS owner_id username d) o username
  = Some 0.
Proof.
  intros Hr Hin. unfold used_bytes_of, Bot.reset_used_tx.
  destruct (credit_removal_frame
              (match Db.select_one (Bot.user_in (ids_of owner_id) username)
                       (Db.local_users d) with
               | Some r0 => LocalUser.used_bytes r0
               | None => 0
               end)
              (option_map LocalUser.owner_id
                 (Db.select_one (Bot.user_in (ids_of owner_id) username)
                    (Db.local_users d)))
              (Db.with_local_users
                 (Db.update_where (Bot.user_in (ids_of owner_id) username)
                    (LocalUser.set_used_bytes 0) (Db.local_users d)) d))
    as [E _].
  rewrite E. cbn [Db.local_users Db.with_local_users].
  rewrite select_one_update_where by reflexivity.
  rewrite Hr. cbn [option_map].
  pose proof (selected_matches _ _ _ Hr) as Hk. unfold UsageSync.user_is in Hk.
  apply andb_true_iff in Hk. destruct Hk as [Ho Hu]. apply Z.eqb_eq in Ho.
  unfold Bot.user_in. rewrite Ho, (proj2 (in_ids_spec _ _) Hin), Hu.
  reflexivity.
Qed.

(** X16.  [reset_used] sets [used_bytes] of the named user to 0 and
    changes no other column of [local_users], no link row (the baselines
    stay as the last poll left them), no panel; after the transaction it
    calls [reset_remote_user_usage] once for every piece of the remote name
    of every link of the user, whatever the calls answer.  So the next
    poll of one of the user's links that reports at least the baseline
    credits the difference to a counter that starts from 0 again. *)
Theorem reset_used_keeps_the_baselines owner_id username w :
  let w' := exec (Bot.reset_used P ADMIN_IDS owner_id username) w in
  Db.local_users (db w')
  = map (fun r => if Bot.user_in (ids_of owner_id) username r
                  then LocalUser.set_used_bytes 0 r else r)
        (Db.local_users (db w))
  /\ Db.local_user_panel_links (db w') = Db.local_user_panel_links (db w)
  /\ Db.panels (db w') = Db.panels (db w)
  /\ (exists chunks,
        calls w' = calls w ++ concat chunks
        /\ Forall2 reset_attempt
             (eval (Bot.list_user_links ADMIN_IDS owner_id username) w) chunks)
  /\ (forall now link_id o row used r,
        In o (ids_of owner_id) ->
        Db.select_one (UsageSync.user_is o username) (Db.local_users (db w))
        = Some r ->
        own_row link_id o username row ->
        baseline_of (db w) link_id = Some (Link.last_used_traffic (fst row)) ->
        report P row w' = Some used ->
        Link.last_used_traffic (fst row) <= used ->
        let w'' := exec (UsageSync.sync_row P now row) w' in
        baseline_of (db w'') link_id = Some used
        /\ used_bytes_of (db w'') o username
           = Some (UsageSync.credit
                     (used - Link.last_used_traffic (fst row)) 0)).
Proof.
  intros w'.
  assert (Hdb : db w' = Bot.reset_used_tx ADMIN_IDS owner_id username (db w))
    by apply reset_used_db.
  destruct (credit_removal_frame
              (match Db.select_one (Bot.user_in (ids_of owner_id) username)
                       (Db.local_users (db w)) with
               | Some r0 => LocalUser.used_bytes r0
               | None => 0
               end)
              (option_map LocalUser.owner_id
                 (Db.select_one (Bot.user_in (ids_of owner_id) username)
                    (Db.local_users (db w))))
              (Db.with_local_users
                 (Db.update_where (Bot.user_in (ids_of owner_id) username)
                    (LocalUser.set_used_bytes 0) (Db.local_users (db w)))
                 (db w)))
    as (E1 & E2 & E3 & _).
  split; [rewrite Hdb; exact E1|].
  split; [rewrite Hdb; exact E2|].
  split; [rewrite Hdb; exact E3|].
  split.
  - unfold w', exec, Bot.reset_used. rewrite !bind_run.
    set (w0 := snd (execute (Bot.reset_used_tx ADMIN_IDS owner_id username) w)).
    assert (Hrows : fst (Bot.list_user_links ADMIN_IDS owner_id username w0)
                    = eval (Bot.list_user_links ADMIN_IDS owner_id username) w).
    { unfold eval, Bot.list_user_links, query, w0, execute. cbn [fst snd db].
      unfold Bot.reset_used_tx, Db.join_panels. now rewrite E2, E3. }
    rewrite Hrows.
    change (snd (Bot.list_user_links ADMIN_IDS owner_id username w0)) with w0.
    destruct (reset_calls_per_link
                (eval (Bot.list_user_links ADMIN_IDS owner_id username) w) w0)
      as [chunks [Hc Hf]].
    exists chunks. split; [|exact Hf]. exact (f_equal calls Hc).
  - intros now link_id o row used r Hin Hr Hown Hb Hrep Hle w''.
    apply (sync_row_own P link_id o username now row w' used 0);
      try assumption.
    + unfold baseline_of in *. rewrite Hdb.
      unfold Bot.reset_used_tx. now rewrite E2.
    + rewrite Hdb. now apply used_bytes_after_reset with r.
    + unfold UsageSync.COUNTER_MAX. lia.
Qed.

Lemma find_all_false {A} (f : A -> bool) l :
  (forall x, In x l -> f x = false) -> find f l = None.
Proof.
  induction l as [|x l IH]; intros H; simpl; [reflexivity|].
  rewrite (H x (or_introl eq_refl)). apply IH. intros y Hy. apply H. now right.
Qed.

Lemma filter_excluded {A} (f : A -> bool) l :
  filter f (filter (fun x => negb (f x)) l) = [].
Proof.
  induction l as [|x l IH]; simpl; [reflexivity|].
  destruct (f x) eqn:E; simpl; [exact IH | now rewrite E].
Qed.

(** X17.  [delete_local_user] calls no panel.  Afterwards the named user
    has no [local_users] row, no link row and no [app_users] row under the
    owner's ids, and every other row of these tables is still there;
    panels are untouched.  A subscription request for that user name is
    answered 404, whatever the key, unless an owner outside the ids has an
    application user of the same name and key. *)
Theorem deleted_user_is_gone owner_id username w :
  let ids := ids_of owner_id in
  let w' := exec (Bot.delete_local_user ADMIN_IDS owner_id username) w in
  calls w' = calls w
  /\ Db.select_one (Bot.user_in ids username) (Db.local_users (db w')) = None
  /\ eval (Bot.list_user_links ADMIN_IDS owner_id username) w' = []
  /\ (forall r, In r (Db.local_users (db w'))
                <-> In r (Db.local_users (db w))
                    /\ Bot.user_in ids username r = false)
  /\ (forall l, In l (Db.local_user_panel_links (db w'))
                <-> In l (Db.local_user_panel_links (db w))
                    /\ (Db.in_ids ids (Link.owner_id l)
                        && str_eqb (Link.local_username l) username) = false)
  /\ (forall r, In r (Db.app_users (db w'))
                <-> In r (Db.app_users (db w))
                    /\ (Db.in_ids ids (AppUser.telegram_user_id r)
                        && str_eqb (AppUser.username r) username) = false)
  /\ Db.panels (db w') = Db.panels (db w)
  /\ (forall now want_html key,
        (forall r, In r (Db.app_users (db w)) ->
                   AppUser.username r = username -> AppUser.app_key r = key ->
                   In (AppUser.telegram_user_id r) ids) ->
        App.unified_links lower P ADMIN_IDS collect_links limit_reached_body
          now want_html username key w' = (App.Abort404, w')).
Proof.
  intros ids w'.
  set (d := db w).
  set (row := Db.select_one (Bot.user_in ids username) (Db.local_users d)).
  set (d3 := Db.with_app_users
               (Db.delete_where
                  (fun r => Db.in_ids ids (AppUser.telegram_user_id r)
                            && str_eqb (AppUser.username r) username)
                  (Db.app_users d))
               (Db.with_local_users
                  (Db.delete_where (Bot.user_in ids username)
                                   (Db.local_users d))
                  (Db.with_links
                     (Db.delete_where
                        (fun l => Db.in_ids ids (Link.owner_id l)
                                  && str_eqb (Link.local_username l) username)
                        (Db.local_user_panel_links d)) d))).
  assert (Hdb : db w' = Bot.credit_removal
                          (match row with
                           | Some r => LocalUser.used_bytes r
                           | None => 0
                           end)
                          (option_map LocalUser.owner_id row) d3)
    by reflexivity.
  destruct (credit_removal_frame
              (match row with
               | Some r => LocalUser.used_bytes r
               | None => 0
               end)
              (option_map LocalUser.owner_id row) d3)
    as (E1 & E2 & E3 & _ & E5).
  rewrite <- Hdb in E1, E2, E3, E5.
  assert (Hneg : forall {A} (f : A -> bool) x,
             negb (f x) = true <-> f x = false)
    by (intros A f x; destruct (f x); simpl; split; congruence).
  split; [reflexivity|].
  split.
  { rewrite E1. unfold d3. cbn [Db.local_users Db.with_app_users Db.with_local_users].
    unfold Db.select_one, Db.delete_where. apply find_all_false.
    intros x Hx. apply filter_In in Hx. destruct Hx as [_ Hx].
    now apply Hneg in Hx. }
  split.
  { unfold eval, Bot.list_user_links, query. cbn [fst].
    rewrite E2. unfold d3.
    cbn [Db.local_user_panel_links Db.with_app_users Db.with_local_users
         Db.with_links].
    unfold Db.delete_where.
    now rewrite filter_excluded. }
  split.
  { intros r. rewrite E1. unfold d3.
    cbn [Db.local_users Db.with_app_users Db.with_local_users].
    unfold Db.delete_where. rewrite filter_In. now rewrite Hneg. }
  split.
  { intros l. rewrite E2. unfold d3.
    cbn [Db.local_user_panel_links Db.with_app_users Db.with_local_users
         Db.with_links].
    unfold Db.delete_where. rewrite filter_In.
    now rewrite (Hneg _ (fun l => Db.in_ids ids (Link.owner_id l)
                                  && str_eqb (Link.local_username l) username)). }
  split.
  { intros r. rewrite E5. unfold d3. cbn [Db.app_users Db.with_app_users].
    unfold Db.delete_where. rewrite filter_In.
    now rewrite (Hneg _ (fun r => Db.in_ids ids (AppUser.telegram_user_id r)
                                  && str_eqb (AppUser.username r) username)). }
  split; [rewrite E3; reflexivity|].
  intros now want_html key Hkey.
  unfold App.unified_links. rewrite bind_run.
  assert (Hnone : fst (App.get_owner_id username key w') = None).
  { unfold App.get_owner_id, query. cbn [fst]. rewrite E5. unfold d3.
    cbn [Db.app_users Db.with_app_users].
    unfold Db.select_one, Db.delete_where.
    rewrite find_all_false; [reflexivity|].
    intros r Hr. apply filter_In in Hr. destruct Hr as [Hin Hkeep].
    destruct (str_eqb (AppUser.username r) username) eqn:Eu;
      [|reflexivity].
    destruct (str_eqb (AppUser.app_key r) key) eqn:Ek;
      [|reflexivity].
    exfalso. apply str_eqb_eq in Eu, Ek.
    pose proof (Hkey r Hin Eu Ek) as Hids. apply in_ids_spec in Hids.
    rewrite Hids in Hkeep. discriminate. }
  now rewrite Hnone.
Qed.

(** X18.  [set_agent_quota] writes the new limit and re-checks the agent
    at once: for an active agent, the push flag afterwards says whether the
    agent is expired or its total usage has reached the new limit (a limit
    of 0 never being reached); usage and expiry are unchanged. *)
Theorem set_agent_quota_settles_the_flag now tg_id limit_bytes w ag :
  Db.select_one (UsageSync.agent_is tg_id) (Db.agents (db w)) = Some ag ->
  Agent.active ag <> 0 ->
  let w' := exec (BotAgents.set_agent_quota P now tg_id limit_bytes) w in
  exists ag',
    Db.select_one (UsageSync.agent_is tg_id) (Db.agents (db w')) = Some ag'
    /\ Agent.plan_limit_bytes ag' = limit_bytes
    /\ Agent.total_used_bytes ag' = Agent.total_used_bytes ag
    /\ Agent.expire_at ag' = Agent.expire_at ag
    /\ Agent.active ag' = Agent.active ag
    /\ truthy (Agent.disabled_pushed ag')
       = (UsageSync.is_expired now (Agent.expire_at ag)
          || over_quota limit_bytes (Agent.total_used_bytes ag)).
Proof.
  intros Hag Hact w'.
  set (w0 := exec (execute (fun d =>
                Db.with_agents
                  (Db.update_where (fun a => Agent.telegram_user_id a =? tg_id)
                     (BotAgents.set_plan_limit_bytes limit_bytes)
                     (Db.agents d)) d)) w).
  assert (Hw' : w' = exec (UsageSync.sync_agent_now P now tg_id) w0)
    by (unfold w', BotAgents.set_agent_quota; apply exec_seq).
  assert (Hsel : Db.select_one (UsageSync.agent_is tg_id) (Db.agents (db w0))
                 = Some (BotAgents.set_plan_limit_bytes limit_bytes ag)).
  { unfold w0, exec, execute. cbn [snd db Db.agents Db.with_agents].
    rewrite select_one_update_where by reflexivity.
    rewrite Hag. cbn [option_map].
    pose proof (selected_matches _ _ _ Hag) as Hk.
    unfold UsageSync.agent_is in Hk. now rewrite Hk. }
  destruct (sync_agent_now_settles P now tg_id w0 _ Hsel Hact)
    as [(ag' & Hs & Her & Hflag) _].
  exists ag'. rewrite Hw'. split; [exact Hs|].
  split; [exact (f_equal Agent.plan_limit_bytes Her)|].
  split; [exact (f_equal Agent.total_used_bytes Her)|].
  split; [exact (f_equal Agent.expire_at Her)|].
  split; [exact (f_equal Agent.active Her)|].
  exact Hflag.
Qed.

End BotOperations.

(** ** app.py: the per-panel filters *)

Section PanelFilters.
Import Filters.
Local Open Scope Z_scope.

(** [x in m.get(k, set())] *)
Definition in_set {X} (eqb : X -> X -> bool) (k : Z) (x : X) (m : dict X)
  : bool :=
  existsb (eqb x) (get k m).

Section Dicts.
Context {X : Type}.
Variable eqb : X -> X -> bool.
Hypothesis eqb_spec : forall a b, eqb a b = true <-> a = b.

Lemma existsb_added (x x' : X) s :
  existsb (eqb x') (if existsb (eqb x) s then s else s ++ [x])
  = existsb (eqb x') s || eqb x' x.
Proof.
  destruct (existsb (eqb x) s) eqn:E.
  - destruct (eqb x' x) eqn:E'; [|now rewrite orb_false_r].
    apply eqb_spec in E'. subst x'. now rewrite E.
  - rewrite existsb_app. simpl. now rewrite orb_false_r.
Qed.

Lemma in_set_setdefault_add k x k' x' (m : dict X) :
  in_set eqb k' x' (setdefault_add eqb k x m)
  = ((k =? k') && eqb x' x) || in_set eqb k' x' m.
Proof.
  unfold in_set, get. induction m as [|[k0 s] rest IH]; simpl.
  - destruct (k =? k'); simpl; [now rewrite orb_false_r | reflexivity].
  - destruct (Z.eqb_spec k0 k) as [->|Hne]; simpl.
    + destruct (Z.eqb_spec k k') as [->|Hne']; simpl.
      * rewrite existsb_added. apply orb_comm.
      * reflexivity.
    + destruct (Z.eqb_spec k0 k') as [->|Hne']; simpl.
      * destruct (Z.eqb_spec k k'); [congruence | reflexivity].
      * exact IH.
Qed.

Lemma in_set_fold {R} (cond : R -> bool) (key : R -> Z) (val : R -> X)
      k' x' rows : forall m0,
  in_set eqb k' x'
    (fold_left (fun m r => if cond r then setdefault_add eqb (key r) (val r) m
                           else m) rows m0)
  = existsb (fun r => cond r && (key r =? k') && eqb x' (val r)) rows
    || in_set eqb k' x' m0.
Proof.
  induction rows as [|r rows IH]; intros m0; simpl; [reflexivity|].
  rewrite IH. destruct (cond r); simpl; [|reflexivity].
  rewrite in_set_setdefault_add.
  destruct ((key r =? k') && eqb x' (val r)); simpl;
    [now rewrite orb_true_r | reflexivity].
Qed.

End Dicts.

Lemma existsb_filter {A} (f g : A -> bool) l :
  existsb f (filter g l) = existsb (fun x => g x && f x) l.
Proof.
  induction l as [|x l IH]; simpl; [reflexivity|].
  destruct (g x); simpl; now rewrite IH.
Qed.

Lemma existsb_same {A} (f g : A -> bool) l :
  (forall x, f x = g x) -> existsb f l = existsb g l.
Proof.
  intros H. induction l as [|x l IH]; simpl; [reflexivity|].
  now rewrite H, IH.
Qed.

Lemma loaded_name t panel_ids pid nm :
  In pid panel_ids ->
  in_set str_eqb pid nm (fst (load_disabled_filters t panel_ids))
  = existsb (fun r => (fst r =? pid)
                      && nonempty (App.canonicalize_name (snd r))
                      && str_eqb nm (App.canonicalize_name (snd r)))
            (panel_disabled_configs t).
Proof.
  intros Hin. unfold load_disabled_filters.
  destruct panel_ids as [|p ps]; [contradiction|]. cbn [fst].
  rewrite (in_set_fold str_eqb str_eqb_eq
             (fun r => nonempty (App.canonicalize_name (snd r)))
             fst (fun r => App.canonicalize_name (snd r))).
  rewrite orb_false_r, existsb_filter.
  apply existsb_same. intros r.
  generalize (App.canonicalize_name (snd r)). intros cn.
  destruct (Z.eqb_spec (fst r) pid) as [E|E].
  - rewrite E, (proj2 (in_ids_spec _ _) Hin).
    destruct (nonempty cn), (str_eqb nm cn); reflexivity.
  - destruct (Db.in_ids (p :: ps) (fst r)), (nonempty cn), (str_eqb nm cn);
      reflexivity.
Qed.

Lemma Zeqb_spec' (a b : Z) : (a =? b) = true <-> a = b.
Proof. apply Z.eqb_eq. Qed.

Lemma loaded_number t panel_ids pid k :
  In pid panel_ids ->
  in_set Z.eqb pid k (snd (load_disabled_filters t panel_ids))
  = existsb (fun r => (fst r =? pid) && (0 <? snd r) && (k =? snd r))
            (panel_disabled_numbers t).
Proof.
  intros Hin. unfold load_disabled_filters.
  destruct panel_ids as [|p ps]; [contradiction|]. cbn [snd].
  rewrite (in_set_fold Z.eqb Zeqb_spec' (fun r => 0 <? snd r) fst snd).
  rewrite orb_false_r, existsb_filter.
  apply existsb_same. intros r.
  destruct (Z.eqb_spec (fst r) pid) as [E|E].
  - rewrite E, (proj2 (in_ids_spec _ _) Hin).
    destruct (0 <? snd r), (k =? snd r); reflexivity.
  - destruct (Db.in_ids (p :: ps) (fst r)), (0 <? snd r), (k =? snd r);
      reflexivity.
Qed.

Lemma in_existsb_str nm names :
  In nm names <-> existsb (str_eqb nm) names = true.
Proof.
  rewrite existsb_exists. split.
  - intros H. exists nm. split; [assumption | now apply str_eqb_eq].
  - intros [y [Hy E]]. apply str_eqb_eq in E. now subst y.
Qed.

Lemma in_existsb_Z k nums : In k nums <-> existsb (Z.eqb k) nums = true.
Proof.
  rewrite existsb_exists. split.
  - intros H. exists k. split; [assumption | apply Z.eqb_refl].
  - intros [y [Hy E]]. apply Z.eqb_eq in E. now subst y.
Qed.

Lemma drop_numbered_none idx links : drop_numbered idx [] links = links.
Proof.
  revert idx. induction links as [|x l IH]; intros idx; simpl;
    [reflexivity | now rewrite IH].
Qed.

Lemma drop_numbered_in idx nums links x :
  In x (drop_numbered idx nums links) -> In x links.
Proof.
  revert idx. induction links as [|y l IH]; intros idx; simpl; [auto|].
  destruct (existsb (Z.eqb idx) nums); simpl.
  - intros H. right. now apply IH in H.
  - intros [H|H]; [now left | right; now apply IH in H].
Qed.

(** X19.  The filters [collect_links] applies to the links of one mapping,
    as loaded by [load_disabled_filters] for the mapping's panel: a name
    is disabled when it is the canonical form, not empty, of a
    [config_name] stored for the panel; a position is disabled when it is
    a positive [config_index] stored for the panel.  The name filter
    compares the canonical name of each link and runs first, so positions
    count the links that are left (from 1); links are only ever removed,
    and a link without a name is never removed for its name. *)
Theorem disabled_filters_drop_by_name_then_by_position
        t panel_ids pid links :
  In pid panel_ids ->
  let names := get pid (fst (load_disabled_filters t panel_ids)) in
  let nums := get pid (snd (load_disabled_filters t panel_ids)) in
  let named :=
    filter (fun x => negb (existsb (str_eqb (App.extract_name x)) names))
           links in
  (forall nm, In nm names
              <-> nm <> []
                  /\ exists raw, In (pid, raw) (panel_disabled_configs t)
                                 /\ App.canonicalize_name raw = nm)
  /\ (forall k, In k nums
                <-> 0 < k /\ In (pid, k) (panel_disabled_numbers t))
  /\ apply_filters names nums links = drop_numbered 1 nums named
  /\ (forall x, In x (apply_filters names nums links) -> In x links)
  /\ (forall x, In x links -> App.extract_name x = [] -> In x named).
Proof.
  intros Hin names nums named.
  assert (Hnames : forall nm, In nm names
              <-> nm <> []
                  /\ exists raw, In (pid, raw) (panel_disabled_configs t)
                                 /\ App.canonicalize_name raw = nm).
  { intros nm. rewrite in_existsb_str.
    change (existsb (str_eqb nm) names)
      with (in_set str_eqb pid nm (fst (load_disabled_filters t panel_ids))).
    rewrite (loaded_name t panel_ids pid nm Hin), existsb_exists. split.
    - intros [[p raw] [Hr H]]. cbn [fst snd] in H.
      apply andb_true_iff in H. destruct H as [H H3].
      apply andb_true_iff in H. destruct H as [H1 H2].
      apply Z.eqb_eq in H1. apply str_eqb_eq in H3. subst p.
      split; [|exists raw; split; [exact Hr | symmetry; exact H3]].
      intros Hnil. rewrite <- H3, Hnil in H2. discriminate H2.
    - intros [Hne [raw [Hr E]]]. exists (pid, raw). split; [assumption|].
      cbn [fst snd]. rewrite Z.eqb_refl, E.
      rewrite (proj2 (str_eqb_eq nm nm) eq_refl).
      destruct nm; [contradiction | reflexivity]. }
  assert (Hnums : forall k, In k nums
                <-> 0 < k /\ In (pid, k) (panel_disabled_numbers t)).
  { intros k. rewrite in_existsb_Z.
    change (existsb (Z.eqb k) nums)
      with (in_set Z.eqb pid k (snd (load_disabled_filters t panel_ids))).
    rewrite (loaded_number t panel_ids pid k Hin), existsb_exists. split.
    - intros [[p i] [Hr H]]. cbn [fst snd] in H.
      apply andb_true_iff in H. destruct H as [H H3].
      apply andb_true_iff in H. destruct H as [H1 H2].
      apply Z.eqb_eq in H1, H3. apply Z.ltb_lt in H2. subst p k. auto.
    - intros [Hpos Hr]. exists (pid, k). split; [assumption|].
      cbn [fst snd]. rewrite !Z.eqb_refl.
      now rewrite (proj2 (Z.ltb_lt 0 k) Hpos). }
  assert (Happly : apply_filters names nums links = drop_numbered 1 nums named).
  { unfold apply_filters, named.
    assert (E : match names with
                | [] => links
                | _ :: _ =>
                    filter (fun x => negb (existsb (str_eqb (App.extract_name x))
                                                   names)) links
                end
                = filter (fun x => negb (existsb (str_eqb (App.extract_name x))
                                                 names)) links).
    { destruct names; [|reflexivity]. simpl.
      induction links as [|x l IH]; simpl; [reflexivity | now rewrite <- IH]. }
    rewrite E. destruct nums; [now rewrite drop_numbered_none | reflexivity]. }
  split; [exact Hnames|]. split; [exact Hnums|]. split; [exact Happly|].
  split.
  - intros x H. rewrite Happly in H. apply drop_numbered_in in H.
    unfold named in H. apply filter_In in H. tauto.
  - intros x Hx Hn. unfold named. apply filter_In. split; [assumption|].
    rewrite Hn. destruct (existsb (str_eqb []) names) eqn:E; [|reflexivity].
    apply in_existsb_str, Hnames in E. destruct E as [E _]. congruence.
Qed.

End PanelFilters.

(** ** app.py and usage_sync.py: the two agent-level pushes *)

Section TwoAgentPushes.
Local Open Scope Z_scope.
Variable P : Panels.
Variable ADMIN_IDS : list Z.


(** X20.  When the agent gate of a subscription request has pushed a
    blocked agent, it has set the push flag of the agent rows only: the
    [local_users] rows are as they were.  [try_disable_agent_if_exceeded]
    of the polling loop then finds the flag set and does nothing for the
    agent's id, so the users' flags are not set and the panels assigned to
    the agent are not called by it. *)
Theorem gate_push_preempts_the_loop_push now owner_id w ag :
  Db.select_one (App.agent_in (App.ids_of ADMIN_IDS owner_id))
                (Db.agents (db w)) = Some ag ->
  agent_blocks now ag ->
  Agent.disabled_pushed ag = 0 ->
  let gated := exec (App.agent_gate P ADMIN_IDS now owner_id) w in
  Db.local_users (db gated) = Db.local_users (db w)
  /\ Db.agents (db gated)
     = map (fun a => if Db.in_ids (App.ids_of ADMIN_IDS owner_id)
                                  (Agent.telegram_user_id a)
                     then Agent.set_disabled_pushed 1 (Some now) a else a)
           (Db.agents (db w))
  /\ forall now',
       UsageSync.try_disable_agent_if_exceeded P now'
         (Agent.telegram_user_id ag) gated = (tt, gated).
Proof.
  intros Hag Hb Hp gated.
  assert (Hg : gated = exec (App.mark_agent_disabled ADMIN_IDS now owner_id)
                            (after_agent_attempts P ADMIN_IDS owner_id w)).
  { unfold gated, exec at 1.
    rewrite (agent_gate_blocks P ADMIN_IDS now owner_id w ag Hag Hb).
    unfold truthy. now rewrite Hp. }
  assert (Hagents : Db.agents (db gated)
     = map (fun a => if Db.in_ids (App.ids_of ADMIN_IDS owner_id)
                                  (Agent.telegram_user_id a)
                     then Agent.set_disabled_pushed 1 (Some now) a else a)
           (Db.agents (db w))).
  { rewrite Hg. unfold exec, App.mark_agent_disabled, execute.
    cbn [snd db Db.agents Db.with_agents].
    now rewrite after_agent_attempts_db. }
  split; [|split; [exact Hagents|]].
  - rewrite Hg. unfold exec, App.mark_agent_disabled, execute.
    cbn [snd db Db.local_users Db.with_agents].
    now rewrite after_agent_attempts_db.
  - intros now'.
    assert (Hid : Db.in_ids (App.ids_of ADMIN_IDS owner_id)
                            (Agent.telegram_user_id ag) = true).
    { apply selected_matches in Hag. unfold App.agent_in in Hag.
      now apply andb_true_iff in Hag. }
    destruct (Db.select_one (UsageSync.agent_is (Agent.telegram_user_id ag))
                            (Db.agents (db gated))) as [a'| ] eqn:Sel.
    + rewrite (try_disable_agent_run P now' _ gated a' Sel).
      assert (Hflag : Agent.disabled_pushed a' = 1).
      { pose proof (selected_matches _ _ _ Sel) as Hk.
        unfold UsageSync.agent_is in Hk. apply Z.eqb_eq in Hk.
        unfold Db.select_one in Sel. apply find_some in Sel.
        destruct Sel as [Hin _]. rewrite Hagents in Hin.
        apply in_map_iff in Hin. destruct Hin as [a0 [E Hin0]].
        destruct (Db.in_ids (App.ids_of ADMIN_IDS owner_id)
                            (Agent.telegram_user_id a0)) eqn:E0.
        - now subst a'.
        - subst a'. rewrite Hk in E0. congruence. }
      unfold agent_disable_due, truthy. rewrite Hflag. cbn [Z.eqb negb].
      now rewrite !andb_false_r.
    + unfold UsageSync.try_disable_agent_if_exceeded.
      rewrite bind_run. unfold UsageSync.get_agent, query at 1.
      cbn [fst snd]. now rewrite Sel.
Qed.

End TwoAgentPushes.

(** ** usage_sync.py: what a fetch answers *)

Section FetchAnswers.
Import UsageSync.
Local Open Scope Z_scope.
Variable P : Panels.

Lemma sum_used_traffic_answer api url tok rns : forall total w,
  let r := fst (sum_used_traffic P api url tok rns total w) in
  (fst r = None <-> snd r <> None).
Proof.
  induction rns as [|rn rest IH]; intros total w; simpl.
  - split; [discriminate | intros H; now elim H].
  - rewrite bind_run.
    destruct (fst (api_get_user P api url tok rn w)) as [[o| ] err].
    + destruct (int_used_traffic o) as [n|msg].
      * apply IH.
      * simpl. split; [discriminate | reflexivity].
    + simpl. split; [discriminate | reflexivity].
Qed.

(** All the pieces of the remote name are blank. *)
Definition blank_pieces (remote_username : str) : Prop :=
  sub_identities remote_username = [].

(** X21.  [fetch_used_traffic] never writes to the database, and it
    answers either a usage and no error or no usage and an error, so
    [used is None] is the failure test.  For a [sanaei] link whose remote
    name has a comma and only blank pieces it calls no panel and answers
    a usage of 0. *)
Theorem fetch_answers_usage_or_error pt url tok rn w :
  let r := fetch_used_traffic P pt url tok rn w in
  db (snd r) = db w
  /\ (fst (fst r) = None <-> snd (fst r) <> None)
  /\ (str_eqb pt (lit "sanaei") = true -> mem COMMA rn = true ->
      blank_pieces rn -> r = ((Some 0, None), w)).
Proof.
  intros r. split; [apply keeps_db_fetch_used_traffic|]. split.
  - unfold r, fetch_used_traffic.
    destruct (str_eqb pt (lit "sanaei") && mem COMMA rn).
    + apply sum_used_traffic_answer.
    + rewrite bind_run.
      destruct (fst (api_get_user P (get_api pt) url tok rn w)) as [[o| ] err].
      * destruct (int_used_traffic o) as [n|msg]; simpl;
          split; try discriminate; try reflexivity.
        intros H. now elim H.
      * simpl. split; [discriminate | reflexivity].
  - intros Hs Hc Hb. unfold r, fetch_used_traffic. rewrite Hs, Hc.
    unfold blank_pieces in Hb. cbn [andb]. now rewrite Hb.
Qed.

End FetchAnswers.

(** ** Further worked scenarios *)

Module Cases.
Import Scenario.
Local Open Scope Z_scope.

(** Panels that refuse every change and report nothing. *)
Definition refusing : Panels := scripted [].

Ltac not_among :=
  vm_compute; intros H;
  repeat (destruct H as [H|H]; [discriminate H|]); exact H.

(** *** A user whose quota was raised after the push *)

Definition w_raised : World :=
  world (user 1000 500 1) (agent 0 None 1 500 0) [link1 500].

Lemma cleared_user_witness :
  let w' := exec (UsageSync.try_enable_if_user_ok refusing 10 alice) w_raised in
  calls w' = calls (after_enable_attempts refusing 10 alice w_raised)
  /\ Db.select_one (UsageSync.user_is 10 alice) (Db.local_users (db w'))
     = Some (LocalUser.set_disabled_pushed 0 None (user 1000 500 1))
  /\ UsageSync.try_enable_if_user_ok refusing 10 alice w' = (tt, w').
Proof.
  apply (proj2 (proj2 (cleared_user_is_enabled_once refusing 10 alice w_raised
                         (user 1000 500 1) eq_refl))).
  - vm_compute. discriminate.
  - right. vm_compute. reflexivity.
Defined.

Lemma user_checks_witness :
  user_checks refusing 160 10 alice
    (exec (user_checks refusing 100 10 alice) w_over_limit)
  = (tt, exec (user_checks refusing 100 10 alice) w_over_limit).
Proof.
  apply (proj2 (proj2 (user_checks_settle_the_flag refusing 100 10 alice
                         w_over_limit (user 1000 1100 0) eq_refl
                         ltac:(vm_compute; discriminate)))).
Defined.

(** *** An agent over its quota whose user has no limit *)

Definition w_agent_due : World :=
  world (user 0 200 0) (agent 100 None 1 200 0) [link1 200].

Lemma exceeded_agent_witness :
  Db.select_one (UsageSync.agent_is 10)
    (Db.agents (db (exec (UsageSync.try_disable_agent_if_exceeded refusing 100 10)
                         w_agent_due)))
  = Some (Agent.set_disabled_pushed 1 (Some 100) (agent 100 None 1 200 0)).
Proof.
  exact (proj1 (proj2 (proj2
           (exceeded_agent_marks_every_user refusing 100 10 w_agent_due
              (agent 100 None 1 200 0) eq_refl
              ltac:(vm_compute; discriminate) eq_refl eq_refl)))).
Defined.

Lemma agent_checks_witness :
  UsageSync.sync_agent_now refusing 100 10
    (exec (UsageSync.sync_agent_now refusing 100 10) w_agent_due)
  = (tt, exec (UsageSync.sync_agent_now refusing 100 10) w_agent_due).
Proof.
  exact (proj2 (proj2
           (agent_checks_settle_the_flag refusing 100 10 w_agent_due
              (agent 100 None 1 200 0) eq_refl
              ltac:(vm_compute; discriminate)))).
Defined.

Lemma take_back_witness :
  let w1 := exec (UsageSync.try_disable_agent_if_exceeded refusing 100 10)
                 w_agent_due in
  let w2 := exec (user_checks refusing 160 10 alice) w1 in
  Db.select_one (UsageSync.user_is 10 alice) (Db.local_users (db w1))
  = Some (LocalUser.set_disabled_pushed 1 (Some 100) (user 0 200 0))
  /\ Db.select_one (UsageSync.user_is 10 alice) (Db.local_users (db w2))
     = Some (LocalUser.set_disabled_pushed 0 None (user 0 200 0))
  /\ calls w2 = calls (after_enable_attempts refusing 10 alice w1)
  /\ Db.select_one (UsageSync.agent_is 10) (Db.agents (db w2))
     = Some (Agent.set_disabled_pushed 1 (Some 100) (agent 100 None 1 200 0))
  /\ forall t,
       UsageSync.try_disable_agent_if_exceeded refusing t 10 w2 = (tt, w2).
Proof.
  apply (user_checks_take_back_agent_disable refusing 100 160 10 alice
           w_agent_due (agent 100 None 1 200 0) (user 0 200 0)).
  - reflexivity.
  - vm_compute. discriminate.
  - reflexivity.
  - reflexivity.
  - reflexivity.
  - left. reflexivity.
Defined.

(** The same through the loop: the first turn pushes the agent and marks
    the user, the second turn enables the user again and leaves the agent
    marked. *)
Example blocked_agent_user_is_enabled_again :
  let w1 := exec (UsageSync.cycle (scripted [200; 200]) 100) w_agent_due in
  let w2 := exec (UsageSync.cycle (scripted [200; 200]) 160) w1 in
  map LocalUser.disabled_pushed (Db.local_users (db w1)) = [1]
  /\ map Agent.disabled_pushed (Db.agents (db w1)) = [1]
  /\ map LocalUser.disabled_pushed (Db.local_users (db w2)) = [0]
  /\ map Agent.disabled_pushed (Db.agents (db w2)) = [1]
  /\ filter (fun e => negb (is_fetch e)) (calls w2)
     = [EvDisable Marzneshin (lit "https://p1.example") (lit "token1") alice
          (false, Some (lit "503 busy"));
        EvEnable Marzneshin (lit "https://p1.example") (lit "token1") alice
          (false, Some (lit "503 busy"))].
Proof. vm_compute. repeat split. Qed.

(** *** An agent that is fine again whose user is over quota *)

Definition w_agent_fine : World :=
  world (user 1000 1100 1) (agent 0 None 1 1100 1) [link1 1100].

Lemma redo_disable_witness :
  let w1 := exec (UsageSync.try_enable_agent_if_ok refusing 100 10)
                 w_agent_fine in
  let w2 := exec (user_checks refusing 160 10 alice) w1 in
  Db.select_one (UsageSync.user_is 10 alice) (Db.local_users (db w1))
  = Some (LocalUser.set_disabled_pushed 0 None (user 1000 1100 1))
  /\ Db.select_one (UsageSync.user_is 10 alice) (Db.local_users (db w2))
     = Some (LocalUser.set_disabled_pushed 1 (Some 160) (user 1000 1100 1)).
Proof.
  pose proof (user_checks_redo_disable_after_agent_enable refusing 100 160 10
                alice w_agent_fine (agent 0 None 1 1100 1) (user 1000 1100 1)
                eq_refl ltac:(vm_compute; discriminate) eq_refl
                ltac:(vm_compute; discriminate) eq_refl eq_refl
                ltac:(vm_compute; discriminate))
    as (_ & _ & H1 & H2 & _).
  split; [exact H1 | exact H2].
Defined.

(** *** Requests *)

Definition w_no_user : World :=
  mkWorld (Db.mk [] [] [panel1] [] [] [AppUser.mk 10 alice key]) [].

Lemma unknown_subscription_witness :
  App.unified_links ascii_lower refusing [] no_links placeholder
    100 false alice key w_no_user
  = (App.Plain [] None, w_no_user).
Proof.
  apply (proj2 (proj2 (unknown_subscription_is_answered_without_effects
                         ascii_lower refusing [] no_links placeholder
                         100 false alice key w_no_user)) 10).
  - reflexivity.
  - discriminate.
  - reflexivity.
Defined.

Lemma placeholder_witness :
  eval (App.unified_links ascii_lower refusing [] no_links placeholder
          100 false alice key) w_over_limit
  = App.Plain (placeholder 10 alice 1000 1100)
      (Some (App.Build_Headers 1000 1100 (Some 0) 1)).
Proof.
  refine (proj1 (over_quota_user_gets_the_placeholder ascii_lower refusing []
                   no_links placeholder 100 alice key w_over_limit 10
                   (user 1000 1100 0) _ eq_refl eq_refl _)).
  - repeat split. discriminate.
  - vm_compute. discriminate.
Defined.

Lemma served_request_witness :
  App.unified_links ascii_lower refusing [] no_links placeholder
    100 false alice key w_near_limit
  = (App.Plain [] (Some (App.Build_Headers 1000 800 (Some 200) 0)),
     w_near_limit).
Proof.
  refine (proj1 (served_request_only_reads ascii_lower refusing [] no_links
                   placeholder 100 alice key w_near_limit 10 (user 1000 800 0)
                   _ eq_refl eq_refl)).
  repeat split. discriminate.
Defined.

(** *** Names *)

Lemma extract_name_witness :
  App.extract_name (lit "vless://u@h:443?type=tcp" ++ HASH :: lit "DE%20Fast")
  = App.canonicalize_name (lit "DE%20Fast").
Proof.
  apply (proj1 (proj2 extract_name_reads_after_first_hash)). not_among.
Defined.

Lemma administrators_witness :
  expand_owner_ids [7; 8] 7 = expand_owner_ids [7; 8] 8.
Proof.
  apply (proj1 (proj2 (proj2 (administrators_share_one_id_list [7; 8])))).
  - left. reflexivity.
  - right. left. reflexivity.
Defined.

(** *** Reset, then a poll *)

Lemma reset_then_poll_witness :
  let w' := exec (Bot.reset_used (scripted [900]) [] 10 alice) w_poll0 in
  let w'' := exec (UsageSync.sync_row (scripted [900]) 100 (link1 500, panel1))
                  w' in
  baseline_of (db w'') 1 = Some 900
  /\ used_bytes_of (db w'') 10 alice = Some (UsageSync.credit (900 - 500) 0).
Proof.
  apply (proj2 (proj2 (proj2 (proj2
           (reset_used_keeps_the_baselines (scripted [900]) [] 10 alice
              w_poll0))))
           100 1 10 (link1 500, panel1) 900 (user 0 800 0)).
  - left. reflexivity.
  - reflexivity.
  - repeat split.
  - reflexivity.
  - reflexivity.
  - vm_compute. discriminate.
Defined.

Lemma deleted_user_witness :
  App.unified_links ascii_lower refusing [] no_links placeholder
    100 false alice key
    (exec (Bot.delete_local_user [] 10 alice) w_near_limit)
  = (App.Abort404, exec (Bot.delete_local_user [] 10 alice) w_near_limit).
Proof.
  apply (proj2 (proj2 (proj2 (proj2 (proj2 (proj2 (proj2
           (deleted_user_is_gone ascii_lower refusing [] no_links placeholder
              10 alice w_near_limit)))))))).
  intros r [<-|[]] _ _. left. reflexivity.
Defined.

(** *** The quota of a pushed agent is lifted *)

Definition w_agent_pushed : World :=
  world (user 0 200 1) (agent 100 None 1 200 1) [link1 200].

Lemma set_agent_quota_witness :
  exists ag',
    Db.select_one (UsageSync.agent_is 10)
      (Db.agents (db (exec (BotAgents.set_agent_quota refusing 100 10 0)
                           w_agent_pushed))) = Some ag'
    /\ Agent.plan_limit_bytes ag' = 0
    /\ Agent.total_used_bytes ag' = 200
    /\ Agent.expire_at ag' = None
    /\ Agent.active ag' = 1
    /\ truthy (Agent.disabled_pushed ag') = false.
Proof.
  apply (set_agent_quota_settles_the_flag refusing 100 10 0 w_agent_pushed
           (agent 100 None 1 200 1)).
  - reflexivity.
  - vm_compute. discriminate.
Defined.

(** *** Filters of a panel *)

Definition filter_tables : Filters.Tables :=
  {| Filters.panel_disabled_configs :=
       [(1, lit "DE 1.5GB/10GB"); (1, lit "  "); (2, lit "NL")];
     Filters.panel_disabled_numbers := [(1, 2); (1, 0); (2, 1)] |}.

Definition fetched_links : list str :=
  [lit "vless://a@h:1#DE%20(abc123)"; lit "vless://b@h:1#NL";
   lit "ss://c"; lit "trojan://d@h:1#FR"].

Lemma panel_filters_witness :
  let names := Filters.get 1 (fst (Filters.load_disabled_filters
                                     filter_tables [1; 2])) in
  let nums := Filters.get 1 (snd (Filters.load_disabled_filters
                                    filter_tables [1; 2])) in
  Filters.apply_filters names nums fetched_links
  = Filters.drop_numbered 1 nums
      (filter (fun x => negb (existsb (str_eqb (App.extract_name x)) names))
              fetched_links).
Proof.
  exact (proj1 (proj2 (proj2
           (disabled_filters_drop_by_name_then_by_position filter_tables
              [1; 2] 1 fetched_links (or_introl eq_refl))))).
Defined.

(** The name [DE] is disabled for panel 1 and, of the links left, the
    second one. *)
Example panel_filters_applied :
  let loaded := Filters.load_disabled_filters filter_tables [1; 2] in
  Filters.get 1 (fst loaded) = [lit "DE"]
  /\ Filters.get 1 (snd loaded) = [2]
  /\ Filters.apply_filters (Filters.get 1 (fst loaded))
       (Filters.get 1 (snd loaded)) fetched_links
     = [lit "vless://b@h:1#NL"; lit "trojan://d@h:1#FR"].
Proof. vm_compute. repeat split. Qed.

(** *** The gate pushes first *)

Lemma gate_push_witness :
  UsageSync.try_disable_agent_if_exceeded refusing 160 10
    (exec (App.agent_gate refusing [] 100 10) w_agent_over)
  = (tt, exec (App.agent_gate refusing [] 100 10) w_agent_over).
Proof.
  refine (proj2 (proj2
            (gate_push_preempts_the_loop_push refusing [] 100 10 w_agent_over
               (agent 5000 None 1 6000 0) eq_refl _ eq_refl)) 160).
  left. vm_compute. split; [reflexivity | discriminate].
Defined.

(** *** A link with blank remote names *)

Lemma blank_fetch_witness :
  UsageSync.fetch_used_traffic refusing (lit "sanaei")
    (lit "https://p2.example") (lit "cookie2") (lit " , ") w_poll0
  = ((Some 0, None), w_poll0).
Proof.
  apply (proj2 (proj2 (fetch_answers_usage_or_error refusing (lit "sanaei")
                         (lit "https://p2.example") (lit "cookie2")
                         (lit " , ") w_poll0))).
  - reflexivity.
  - reflexivity.
  - reflexivity.
Defined.

(** *** Pieces of a remote name *)

Example sanaei_pieces_are_taken_as_they_are :
  UsageSync.remotes_of (lit "sanaei") (lit "a,, b")
  = [lit "a"; lit ""; lit " b"]
  /\ sub_identities (lit "a,, b") = [lit "a"; lit "b"]
  /\ UsageSync.remotes_of (lit "marzban") (lit "a,, b") = [lit "a,, b"].
Proof. vm_compute. repeat split. Qed.

End Cases.
